(** * Legacy texture container loader: recogniser, stream decoders,
      metadata merge and large-texture tile reassembly.

    Shallow embedding of [src/compat/texture_loader_compat.cpp] (the
    recogniser and its lookup tables, [load_image_from_fileV3], the legacy
    2D and the two v4 stream decoders, [merge_resource_info] with its two
    converter call sites, and [LargeTextureConverterCompat::convert]) and
    of the declarations in [src/compat/texture_loader_compat.h].  Engine
    services the loader calls (file access, the image size formulas, the
    still-image codecs, the binary resource probe) are not part of the
    repository sources; they appear here as a small file model and as the
    fields of the [ImageApi] and [Env] interfaces.  The coordinates of the
    tile reassembly are the engine's single-precision [real_t], modelled
    as IEEE 754 binary32 values. *)

From Stdlib Require Import ZArith List String Ascii Bool Lia.
From Stdlib.Strings Require Import Byte.
From Stdlib.Floats Require Import SpecFloat.
From stdpp Require Import base option list strings gmap sorting.

Local Open Scope Z_scope.

(** ** Error codes *)

(** The engine's [Error] enumeration.  The constructors named here are the
    ones the loader mentions; every other member of the engine's list is
    [ERR_other n]. *)
Inductive Error : Type :=
  | OK
  | ERR_UNAVAILABLE
  | ERR_FILE_CANT_OPEN
  | ERR_FILE_UNRECOGNIZED
  | ERR_FILE_CORRUPT
  | ERR_CANT_OPEN
  | ERR_INVALID_PARAMETER
  | ERR_PRINTER_ON_FIRE
  | ERR_other (n : nat).

Definition Error_eqb (a b : Error) : bool :=
  match a, b with
  | OK, OK | ERR_UNAVAILABLE, ERR_UNAVAILABLE
  | ERR_FILE_CANT_OPEN, ERR_FILE_CANT_OPEN
  | ERR_FILE_UNRECOGNIZED, ERR_FILE_UNRECOGNIZED
  | ERR_FILE_CORRUPT, ERR_FILE_CORRUPT
  | ERR_CANT_OPEN, ERR_CANT_OPEN
  | ERR_INVALID_PARAMETER, ERR_INVALID_PARAMETER
  | ERR_PRINTER_ON_FIRE, ERR_PRINTER_ON_FIRE => true
  | ERR_other n, ERR_other m => Nat.eqb n m
  | _, _ => false
  end.

(** ** Texture variants (texture_loader_compat.h) *)

Inductive TextureVersionType : Type :=
  | FORMAT_NOT_TEXTURE
  | FORMAT_V2_TEXTURE
  | FORMAT_V2_IMAGE_TEXTURE
  | FORMAT_V2_ATLAS_TEXTURE
  | FORMAT_V2_LARGE_TEXTURE
  | FORMAT_V2_CUBEMAP
  | FORMAT_V3_ATLAS_TEXTURE
  | FORMAT_V3_IMAGE_TEXTURE
  | FORMAT_V3_STREAM_TEXTURE2D
  | FORMAT_V3_STREAM_TEXTURE3D
  | FORMAT_V3_STREAM_TEXTUREARRAY
  | FORMAT_V4_ATLAS_TEXTURE
  | FORMAT_V4_IMAGE_TEXTURE
  | FORMAT_V4_COMPRESSED_TEXTURE2D
  | FORMAT_V4_COMPRESSED_TEXTURE3D
  | FORMAT_V4_COMPRESSED_TEXTURELAYERED.

Inductive TextureType : Type :=
  | TEXTURE_TYPE_UNKNOWN
  | TEXTURE_TYPE_2D
  | TEXTURE_TYPE_3D
  | TEXTURE_TYPE_LAYERED
  | TEXTURE_TYPE_ATLAS.

Definition get_ver_major_from_textype (type : TextureVersionType) : Z :=
  match type with
  | FORMAT_V2_TEXTURE | FORMAT_V2_IMAGE_TEXTURE | FORMAT_V2_ATLAS_TEXTURE
  | FORMAT_V2_LARGE_TEXTURE | FORMAT_V2_CUBEMAP => 2
  | FORMAT_V3_ATLAS_TEXTURE | FORMAT_V3_IMAGE_TEXTURE
  | FORMAT_V3_STREAM_TEXTURE2D | FORMAT_V3_STREAM_TEXTURE3D
  | FORMAT_V3_STREAM_TEXTUREARRAY => 3
  | FORMAT_V4_ATLAS_TEXTURE | FORMAT_V4_IMAGE_TEXTURE
  | FORMAT_V4_COMPRESSED_TEXTURE2D | FORMAT_V4_COMPRESSED_TEXTURE3D
  | FORMAT_V4_COMPRESSED_TEXTURELAYERED => 4
  | FORMAT_NOT_TEXTURE => -1
  end.

Definition get_type_enum_from_version_type (type : TextureVersionType)
  : TextureType :=
  match type with
  | FORMAT_V2_LARGE_TEXTURE | FORMAT_V2_CUBEMAP
  | FORMAT_V3_STREAM_TEXTUREARRAY
  | FORMAT_V4_COMPRESSED_TEXTURELAYERED => TEXTURE_TYPE_LAYERED
  | FORMAT_V3_STREAM_TEXTURE3D
  | FORMAT_V4_COMPRESSED_TEXTURE3D => TEXTURE_TYPE_3D
  | FORMAT_V2_TEXTURE | FORMAT_V2_IMAGE_TEXTURE | FORMAT_V3_IMAGE_TEXTURE
  | FORMAT_V3_STREAM_TEXTURE2D | FORMAT_V4_COMPRESSED_TEXTURE2D
  | FORMAT_V4_IMAGE_TEXTURE => TEXTURE_TYPE_2D
  | FORMAT_V2_ATLAS_TEXTURE | FORMAT_V3_ATLAS_TEXTURE
  | FORMAT_V4_ATLAS_TEXTURE => TEXTURE_TYPE_ATLAS
  | FORMAT_NOT_TEXTURE => TEXTURE_TYPE_UNKNOWN
  end.

Definition is_binary_resource (t : TextureVersionType) : bool :=
  match t with
  | FORMAT_V2_TEXTURE | FORMAT_V2_IMAGE_TEXTURE | FORMAT_V2_ATLAS_TEXTURE
  | FORMAT_V2_LARGE_TEXTURE | FORMAT_V2_CUBEMAP | FORMAT_V3_IMAGE_TEXTURE
  | FORMAT_V4_IMAGE_TEXTURE | FORMAT_V3_ATLAS_TEXTURE
  | FORMAT_V4_ATLAS_TEXTURE => true
  | _ => false
  end.

Definition get_type_name_from_textype (type : TextureVersionType) : string :=
  match type with
  | FORMAT_V2_TEXTURE => "Texture"
  | FORMAT_V2_IMAGE_TEXTURE | FORMAT_V3_IMAGE_TEXTURE
  | FORMAT_V4_IMAGE_TEXTURE => "ImageTexture"
  | FORMAT_V2_ATLAS_TEXTURE | FORMAT_V3_ATLAS_TEXTURE
  | FORMAT_V4_ATLAS_TEXTURE => "AtlasTexture"
  | FORMAT_V2_LARGE_TEXTURE => "LargeTexture"
  | FORMAT_V2_CUBEMAP => "CubeMap"
  | FORMAT_V3_STREAM_TEXTURE2D => "StreamTexture"
  | FORMAT_V3_STREAM_TEXTURE3D => "StreamTexture3D"
  | FORMAT_V3_STREAM_TEXTUREARRAY => "StreamTextureArray"
  | FORMAT_V4_COMPRESSED_TEXTURE2D => "CompressedTexture2D"
  | FORMAT_V4_COMPRESSED_TEXTURE3D => "CompressedTexture3D"
  | FORMAT_V4_COMPRESSED_TEXTURELAYERED => "CompressedTextureLayered"
  | FORMAT_NOT_TEXTURE => "Unknown"
  end.

(** ** Fixed-width integers *)

Definition u32 (z : Z) : Z := z mod 2 ^ 32.
Definition u64 (z : Z) : Z := z mod 2 ^ 64.
(** A 32-bit pattern read as the C++ [int] it is assigned to. *)
Definition to_int (z : Z) : Z := (z + 2 ^ 31) mod 2 ^ 32 - 2 ^ 31.

(** [FormatBits] *)
Definition FORMAT_MASK_IMAGE_FORMAT : Z := Z.shiftl 1 20 - 1.
Definition FORMAT_BIT_LOSSLESS : Z := Z.shiftl 1 20.
Definition FORMAT_BIT_PNG : Z := Z.shiftl 1 20.
Definition FORMAT_BIT_LOSSY : Z := Z.shiftl 1 21.
Definition FORMAT_BIT_WEBP : Z := Z.shiftl 1 21.
Definition FORMAT_BIT_STREAM : Z := Z.shiftl 1 22.
Definition FORMAT_BIT_HAS_MIPMAPS : Z := Z.shiftl 1 23.
Definition FORMAT_BIT_DETECT_3D : Z := Z.shiftl 1 24.
Definition FORMAT_BIT_DETECT_SRGB : Z := Z.shiftl 1 25.
Definition FORMAT_BIT_DETECT_NORMAL : Z := Z.shiftl 1 26.
Definition FORMAT_BIT_DETECT_ROUGNESS : Z := Z.shiftl 1 27.

(** [x & bit] used as a C++ condition. *)
Definition has_bit (x bit : Z) : bool := negb (Z.land x bit =? 0).

(** ** File access *)

(** What a decoder did to its file handle, oldest first. *)
Inductive io_event : Type :=
  | EvGetBuffer (requested : Z)
  | EvGet16
  | EvGet32
  | EvSeek (position : Z).

(** Modelled from the spec: the engine's [FileAccess], which is not under
    src/.  A decode call owns its handle and performs strictly sequential
    reads and seeks; multi-byte integers are little-endian.  An open handle
    is the file's bytes, the read cursor, and the log of the operations
    performed on it. *)
Record FileAccess : Type := mkFile {
  f_data : list byte;
  f_pos : Z;
  f_log : list io_event
}.

Definition open_bytes (bytes : list byte) : FileAccess := mkFile bytes 0 [].

(** The bytes a read of [n] at the cursor delivers: at most [n], fewer at
    the end of the file. *)
Definition peek (f : FileAccess) (n : Z) : list byte :=
  take (Z.to_nat n) (drop (Z.to_nat (f_pos f)) (f_data f)).

Definition advance (f : FileAccess) (n : Z) (ev : io_event) : FileAccess :=
  mkFile (f_data f) (f_pos f + n) (f_log f ++ [ev]).

(** Little-endian value of a byte string. *)
Fixpoint le_value (bs : list byte) : Z :=
  match bs with
  | [] => 0
  | b :: rest => Z.of_N (Byte.to_N b) + 256 * le_value rest
  end.

(** ** The decoder monad: file state plus failure *)

(** Outcome of a step: a value, an [ERR_FAIL_*] return with its code and
    message, or a crash (null handle or index out of range). *)
Inductive result (A : Type) : Type :=
  | Ret (a : A)
  | Failed (e : Error) (msg : string)
  | Crash.
Arguments Ret {A} a.
Arguments Failed {A} e msg.
Arguments Crash {A}.

Definition io (A : Type) : Type := FileAccess -> result A * FileAccess.

Definition io_ret {A} (a : A) : io A := fun f => (Ret a, f).
Definition io_fail {A} (e : Error) (msg : string) : io A :=
  fun f => (Failed e msg, f).
Definition io_bind {A B} (m : io A) (k : A -> io B) : io B :=
  fun f =>
    match m f with
    | (Ret a, f') => k a f'
    | (Failed e msg, f') => (Failed e msg, f')
    | (Crash, f') => (Crash, f')
    end.

Declare Scope io_scope.
Delimit Scope io_scope with io.
Notation "'let*' x ':=' m 'in' k" := (io_bind m (fun x => k))
  (at level 10, x pattern, m at level 100, k at level 200) : io_scope.
Notation "'run' m 'then' k" := (io_bind m (fun _ => k))
  (at level 10, m at level 100, k at level 200) : io_scope.
Local Open Scope io_scope.

(** [f->get_buffer(dst, n)]: the bytes read; the cursor moves past them. *)
Definition get_buffer (n : Z) : io (list byte) :=
  fun f =>
    let bs := peek f n in
    (Ret bs, advance f (Z.of_nat (length bs)) (EvGetBuffer n)).

(** [f->get_16()] and [f->get_32()]: little-endian, bytes missing at the end
    of the file read as zero. *)
Definition get_16 : io Z :=
  fun f =>
    let bs := peek f 2 in
    (Ret (le_value bs), advance f (Z.of_nat (length bs)) EvGet16).

Definition get_32 : io Z :=
  fun f =>
    let bs := peek f 4 in
    (Ret (le_value bs), advance f (Z.of_nat (length bs)) EvGet32).

Definition get_position : io Z := fun f => (Ret (f_pos f), f).

Definition seek (p : Z) : io unit :=
  fun f => (Ret tt, mkFile (f_data f) (u64 p) (f_log f ++ [EvSeek (u64 p)])).

(** ** Strings and paths *)

(** Index of the last occurrence of [c] in [s], counting from [i] at the
    head of [s]; [-1] when there is none. *)
Fixpoint rfind_char_from (c : ascii) (s : string) (i : Z) : Z :=
  match s with
  | EmptyString => -1
  | String a rest =>
      let r := rfind_char_from c rest (i + 1) in
      if 0 <=? r then r else if Ascii.eqb a c then i else -1
  end.

Definition rfind_char (c : ascii) (s : string) : Z := rfind_char_from c s 0.

Fixpoint string_drop (n : nat) (s : string) : string :=
  match n, s with
  | O, _ => s
  | S n', String _ rest => string_drop n' rest
  | S _, EmptyString => EmptyString
  end.

(** Modelled from the spec: the engine's [String::get_extension], which is
    not under src/.  The spec speaks of the file's extension; this is the
    text after the last dot of the path, empty when there is no dot or when
    the last dot lies before the last path separator.  Letter case is kept. *)
Definition get_extension (p_path : string) : string :=
  let pos := rfind_char "."%char p_path in
  if (pos <? 0)
     || (pos <? Z.max (rfind_char "/"%char p_path)
                      (rfind_char "\"%char p_path))
  then EmptyString
  else string_drop (Z.to_nat (pos + 1)) p_path.

(** The extension test both the recogniser and the layered decoder make:
    [ext == "ctexarray" || ext == "ccube" || ext == "ccubearray"]. *)
Definition is_layered_extension (ext : string) : bool :=
  String.eqb ext "ctexarray" || String.eqb ext "ccube"
  || String.eqb ext "ccubearray".

(** ** Resource metadata *)

(** The [Variant] values the loader stores in [ResourceInfo::extra]. *)
Inductive Variant : Type :=
  | VNil
  | VInt (z : Z)
  | VString (s : string)
  | VVector2 (x y : Z)
  | VVector2Array (items : list (Z * Z)).

Record ResourceInfo : Type := mkInfo {
  ver_major : Z;
  type : string;
  resource_format : string;
  original_path : string;
  cached_id : string;
  extra : gmap string Variant
}.

(** ** The world outside the loader *)

(** [file_open] is [FileAccess::open(path, READ, &err)]: the error it
    reports and the file's bytes when a handle comes back.
    [binary_get_resource_info] is the binary resource probe
    [ResourceFormatLoaderCompatBinary::get_resource_info(path, r_err)]:
    the error it leaves in [*r_err] and the record it returns, if any. *)
Record Env : Type := mkEnv {
  file_open : string -> Error * option (list byte);
  binary_get_resource_info : string -> Error * option ResourceInfo
}.

(** ** The recogniser *)

(** What [recognize] hands back: the variant, the value left in [*r_err],
    the operations performed on the file handle, and whether the binary
    resource probe was called. *)
Record recognition : Type := mkRecognition {
  variant : TextureVersionType;
  r_err : Error;
  reads : list io_event;
  probed : bool
}.

(** A local [uint8_t header[4]] after [get_buffer(header, 4)]: the bytes
    read, then whatever the array held before ([uninit]). *)
Definition fill_header (uninit read : list byte) : list byte :=
  read ++ drop (length read) uninit.

Definition header_is (header : list byte) (c0 c1 c2 c3 : ascii) : bool :=
  match header with
  | b0 :: b1 :: b2 :: b3 :: _ =>
      Byte.eqb b0 (byte_of_ascii c0) && Byte.eqb b1 (byte_of_ascii c1)
      && Byte.eqb b2 (byte_of_ascii c2) && Byte.eqb b3 (byte_of_ascii c3)
  | _ => false
  end.

(** The switch on the probed major version for "AtlasTexture". *)
Definition atlas_variant (major : Z) : TextureVersionType :=
  if (major =? 1) || (major =? 2) then FORMAT_V2_ATLAS_TEXTURE
  else if major =? 3 then FORMAT_V3_ATLAS_TEXTURE
  else FORMAT_V4_ATLAS_TEXTURE.

Definition image_texture_variant (major : Z) : TextureVersionType :=
  if major <=? 2 then FORMAT_V2_IMAGE_TEXTURE
  else if major =? 3 then FORMAT_V3_IMAGE_TEXTURE
  else FORMAT_V4_IMAGE_TEXTURE.

(** The lookup on the probed record; [None] is the fall-through to the
    unrecognised exit. *)
Definition binary_variant (i_info : ResourceInfo) : option TextureVersionType :=
  let ty := type i_info in
  if String.eqb ty "Texture" then Some FORMAT_V2_TEXTURE
  else if String.eqb ty "ImageTexture"
       then Some (image_texture_variant (ver_major i_info))
  else if String.eqb ty "AtlasTexture"
       then Some (atlas_variant (ver_major i_info))
  else if String.eqb ty "LargeTexture" then Some FORMAT_V2_LARGE_TEXTURE
  else if String.eqb ty "CubeMap" then Some FORMAT_V2_CUBEMAP
  else None.

(** [TextureLoaderCompat::recognize].  [None] is the crash on a null record
    from the probe. *)
Definition recognize (env : Env) (uninit : list byte) (p_path : string)
  : option recognition :=
  match file_open env p_path with
  | (err, Some bytes) =>
      if negb (Error_eqb err OK)
      then Some (mkRecognition FORMAT_NOT_TEXTURE err [] false)
      else
        let '(_, f) := get_buffer 4 (open_bytes bytes) in
        let header := fill_header uninit (peek (open_bytes bytes) 4) in
        let direct v := Some (mkRecognition v err (f_log f) false) in
        if header_is header "G" "D" "S" "T"
        then direct FORMAT_V3_STREAM_TEXTURE2D
        else if header_is header "G" "D" "3" "T"
        then direct FORMAT_V3_STREAM_TEXTURE3D
        else if header_is header "G" "D" "A" "T"
        then direct FORMAT_V3_STREAM_TEXTUREARRAY
        else if header_is header "G" "S" "T" "L"
        then
          if is_layered_extension (get_extension p_path)
          then direct FORMAT_V4_COMPRESSED_TEXTURELAYERED
          else direct FORMAT_V4_COMPRESSED_TEXTURE3D
        else if header_is header "G" "S" "T" "2"
        then direct FORMAT_V4_COMPRESSED_TEXTURE2D
        else if header_is header "R" "S" "R" "C"
                || header_is header "R" "S" "C" "C"
        then
          let '(perr, i_info) := binary_get_resource_info env p_path in
          if negb (Error_eqb perr ERR_PRINTER_ON_FIRE)
             && negb (Error_eqb perr OK)
          then Some (mkRecognition FORMAT_NOT_TEXTURE perr (f_log f) true)
          else
            match i_info with
            | None => None
            | Some info =>
                match binary_variant info with
                | Some v => Some (mkRecognition v OK (f_log f) true)
                | None =>
                    Some (mkRecognition FORMAT_NOT_TEXTURE
                            ERR_FILE_UNRECOGNIZED (f_log f) true)
                end
            end
        else Some (mkRecognition FORMAT_NOT_TEXTURE ERR_FILE_UNRECOGNIZED
                     (f_log f) false)
  | (err, None) => Some (mkRecognition FORMAT_NOT_TEXTURE err [] false)
  end.

(** ** Images *)

(** [Image::Format], by enum value. *)
Definition Format : Type := Z.

Record Image : Type := mkImage {
  width : Z;
  height : Z;
  has_mipmaps : bool;
  get_format : Format;
  get_data : list byte
}.

(** A freshly instantiated [Image]. *)
Definition instantiate : Image := mkImage 0 0 false 0 [].

Definition is_empty (img : Image) : bool :=
  match get_data img with [] => true | _ => false end.

(** The engine's image services the loader calls.  None of them is under
    src/; the loader is modelled over any implementation of them.  The one
    law recorded is the behaviour of [Image::initialize_data] the spec's
    data model states: it either installs exactly the requested dimensions,
    mipmap flag, format and buffer, or rejects them and leaves the image as
    it was. *)
Class ImageApi : Type := {
  FORMAT_MAX : Format;
  V3_FORMAT_MAX : Z;
  FORMAT_VERSION : Z;
  convert_image_format_enum_v3_to_v4 : Z -> Format;
  get_image_data_size : Z -> Z -> Format -> bool -> Z;
  get_image_required_mipmaps : Z -> Z -> Format -> Z;
  get_image_mipmap_offset : Z -> Z -> Format -> Z -> Z;
  initialize_data : Image -> Z -> Z -> bool -> Format -> list byte -> Image;
  create_empty : Z -> Z -> bool -> Format -> Image;
  png_unpacker : list byte -> option Image;
  webp_unpack_v2v3 : list byte -> option Image;
  image_convert : Image -> Format -> Image;
  load_image_from_file : Z -> io (option Image);
  resized_vector : Z -> list byte;
  get_format_name : Format -> string;
  get_v3_format_name : Z -> string;
  itos : Z -> string;
  initialize_data_law :
    forall img w h m fmt d,
      initialize_data img w h m fmt d = img
      \/ initialize_data img w h m fmt d = mkImage w h m fmt d
}.

(** ** The legacy stream decoder *)

Section Decoders.
Context {api : ImageApi}.

(** A [Vector<uint8_t>] resized to [size] and then filled by
    [get_buffer]: the bytes read, then the untouched tail. *)
Definition read_into_vector (size : Z) : io (list byte) :=
  let* rd := get_buffer size in
  io_ret (rd ++ drop (length rd) (resized_vector size)).

Definition half (s : Z) : Z := Z.max (Z.shiftr s 1) 1.

(** The size-limit loop of the embedded-codec branch; each round seeks over
    one level and reads the next level's two header words.  A round at
    least halves the larger edge, so [n] rounds are enough when [n] is the
    binary logarithm of that edge. *)
Fixpoint skip_codec_levels (n : nat) (p_size_limit sw sh mipmaps size : Z)
  : io (Z * Z * Z * Z) :=
  match n with
  | O => io_ret (sw, sh, mipmaps, size)
  | S n' =>
      if (1 <? mipmaps) && (0 <? p_size_limit)
         && ((p_size_limit <? sw) || (p_size_limit <? sh))
      then
        let* pos := get_position in
        run seek (pos + size) then
        let* mipmaps' := get_32 in
        let* size' := get_32 in
        skip_codec_levels n' p_size_limit (half sw) (half sh)
          (u32 (mipmaps' - 1)) size'
      else io_ret (sw, sh, mipmaps, size)
  end.

(** The loop that reads and unpacks the remaining levels; [i] is the loop
    counter, [n] the rounds left, [acc] is [mipmap_images]. *)
Fixpoint read_codec_levels (n : nat) (i df size : Z) (acc : list Image)
  (total_size : Z) : io (list Image * Z) :=
  match n with
  | O => io_ret (acc, total_size)
  | S n' =>
      let* size := (if i =? 0 then io_ret size else get_32) in
      if size =? 0 then io_fail ERR_FILE_CORRUPT "Texture is empty"
      else
        let* pv := read_into_vector size in
        match (if has_bit df FORMAT_BIT_PNG
               then png_unpacker pv else webp_unpack_v2v3 pv) with
        | None => io_fail ERR_FILE_CORRUPT "File is corrupt"
        | Some img =>
            if is_empty img then io_fail ERR_FILE_CORRUPT "File is corrupt"
            else
              let img' :=
                match acc with
                | first :: _ => image_convert img (get_format first)
                | [] => img
                end in
              read_codec_levels n' (i + 1) df size (acc ++ [img'])
                (to_int (total_size + Z.of_nat (length (get_data img'))))
        end
  end.

(** The size-limit loop of the raw branch.  It runs while [mipmaps2 > 1]
    and lowers [mipmaps2] each round, so [mipmaps2 - 1] rounds bound it. *)
Fixpoint skip_raw_levels (n : nat) (p_size_limit sw sh mipmaps2 idx : Z)
  : Z * Z * Z * Z :=
  match n with
  | O => (sw, sh, mipmaps2, idx)
  | S n' =>
      if (1 <? mipmaps2) && (0 <? p_size_limit)
         && ((p_size_limit <? sw) || (p_size_limit <? sh))
      then skip_raw_levels n' p_size_limit (half sw) (half sh)
             (mipmaps2 - 1) (idx + 1)
      else (sw, sh, mipmaps2, idx)
  end.

Definition create_failure (format : Format) : string :=
  "Failed to create image of format " ++ get_format_name format
  ++ "from texture".

(** The check that closes [load_image_from_fileV3]. *)
Definition finish (format : Format) (image : option Image) : io Image :=
  match image with
  | Some img =>
      if is_empty img then io_fail ERR_FILE_CORRUPT (create_failure format)
      else io_ret img
  | None => io_fail ERR_FILE_CORRUPT (create_failure format)
  end.

(** [image->initialize_data(...)] through a possibly null reference. *)
Definition initialize_ref (image : option Image) (w h : Z) (m : bool)
  (fmt : Format) (d : list byte) : io (option Image) :=
  match image with
  | Some img => io_ret (Some (initialize_data img w h m fmt d))
  | None => fun f => (Crash, f)
  end.

(** The mipmapped raw read: seek to the first kept level, read the rest,
    zero the part of the buffer the file did not supply, and return
    [ERR_FILE_CORRUPT] when the read came back short. *)
Definition read_raw_mipmaps (tw th p_size_limit : Z) (format : Format)
  (image : option Image) : io (option Image) :=
  let mipmaps2 := get_image_required_mipmaps tw th format in
  let total_size := get_image_data_size tw th format true in
  let '(sw, sh, _, idx) :=
    skip_raw_levels (Z.to_nat (mipmaps2 - 1)) p_size_limit tw th mipmaps2 0 in
  let ofs := get_image_mipmap_offset tw th format idx in
  if total_size - ofs <=? 0
  then io_fail ERR_FILE_CORRUPT (create_failure format)
  else
    let* pos := get_position in
    run seek (pos + ofs) then
    let* rd := get_buffer (total_size - ofs) in
    let bytes := Z.of_nat (length rd) in
    let expected := total_size - ofs in
    let img_data :=
      if bytes <? expected
      then rd ++ repeat x00 (Z.to_nat (expected - bytes))
      else rd in
    if negb (bytes =? expected) then io_fail ERR_FILE_CORRUPT ""
    else initialize_ref image sw sh true format img_data.

Definition load_image_from_fileV3
  (tw th tw_custom th_custom flags p_size_limit df : Z)
  (image : option Image) : io Image :=
  if has_bit df FORMAT_BIT_PNG || has_bit df FORMAT_BIT_WEBP
  then
    let* mipmaps := get_32 in
    let* size := get_32 in
    let* (sw, sh, mipmaps, size) :=
      skip_codec_levels (Z.to_nat (Z.log2 (Z.max tw th)))
        p_size_limit tw th mipmaps size in
    let* (mipmap_images, total_size) :=
      read_codec_levels (Z.to_nat mipmaps) 0 df size [] 0 in
    match mipmap_images with
    | [] => fun f => (Crash, f)
    | [only] => finish (get_format only) (Some only)
    | first :: _ =>
        let format := get_format first in
        let img_data := concat (map get_data mipmap_images) in
        let* image' := initialize_ref image tw th true format img_data in
        finish format image'
    end
  else
    let v3_fmt := Z.land df FORMAT_MASK_IMAGE_FORMAT in
    let format := convert_image_format_enum_v3_to_v4 v3_fmt in
    if format =? FORMAT_MAX
    then
      if (0 <? v3_fmt) && (v3_fmt <? V3_FORMAT_MAX)
      then io_fail ERR_UNAVAILABLE
             ("Support for deprecated texture format "
              ++ get_v3_format_name v3_fmt ++ " is unimplemented.")
      else io_fail ERR_FILE_CORRUPT
             ("Texture is in an invalid format: " ++ itos v3_fmt)
    else
      if negb (has_bit df FORMAT_BIT_HAS_MIPMAPS)
      then
        let size := get_image_data_size tw th format false in
        let* img_data := read_into_vector size in
        let* image' := initialize_ref image tw th false format img_data in
        finish format image'
      else
        let* image' := read_raw_mipmaps tw th p_size_limit format image in
        finish format image'.

(** [ERR_FAIL_COND_V_MSG(err != OK, err, msg)] after a call: the callee's
    code is returned under the caller's message. *)
Definition relabel {A} (msg : string) (m : io A) : io A :=
  fun f =>
    match m f with
    | (Failed e _, f') => (Failed e msg, f')
    | other => other
    end.

Record stex2d_out : Type := mkStex2d {
  s_tw : Z; s_th : Z; s_tw_custom : Z; s_th_custom : Z;
  s_flags : Z; s_image : Image
}.

(** Body of [_load_data_stex2d_v3] once the file is open.  The assignment
    [p_size_limit = 0] precedes the call of [load_image_from_fileV3]. *)
Definition stex2d_v3_body (p_path : string) (image : option Image)
  (p_size_limit : Z) : io stex2d_out :=
  let* header := get_buffer 4 in
  let* tw := get_16 in
  let* tw_custom := get_16 in
  let* th := get_16 in
  let* th_custom := get_16 in
  let* flags := get_32 in
  let flags := to_int flags in
  let* df := get_32 in
  let p_size_limit := 0 in
  let image :=
    match image with None => Some instantiate | Some _ => image end in
  let* img :=
    relabel ("Failed to load image from texture file " ++ p_path)
      (load_image_from_fileV3 tw th tw_custom th_custom flags p_size_limit
         df image) in
  io_ret (mkStex2d tw th tw_custom th_custom flags img).

(** A decoder's outcome together with the operations it performed on its
    file handle (none when no handle was obtained). *)
Definition decoded (A : Type) : Type := result A * list io_event.

Definition on_handle {A} (m : io A) (bytes : list byte) : decoded A :=
  let '(r, f) := m (open_bytes bytes) in (r, f_log f).

Definition _load_data_stex2d_v3 (env : Env) (p_path : string)
  (image : option Image) (p_size_limit : Z) : decoded stex2d_out :=
  match file_open env p_path with
  | (err, None) =>
      (Failed err ("Can't open image file for loading: " ++ p_path), [])
  | (_, Some bytes) =>
      on_handle (stex2d_v3_body p_path image p_size_limit) bytes
  end.

(** ** The v4 stream decoders *)

Record ctex2d_out : Type := mkCtex2d {
  c_tw : Z; c_th : Z; c_tw_custom : Z; c_th_custom : Z;
  c_image : Image; c_data_format : Z; c_texture_flags : Z
}.

Definition ctex2d_v4_body (tw th p_size_limit : Z) : io ctex2d_out :=
  let* header := get_buffer 4 in
  let* version := get_32 in
  if FORMAT_VERSION <? version
  then io_fail ERR_FILE_CORRUPT "Compressed texture file is too new."
  else
    let* tw_custom := get_32 in
    let* th_custom := get_32 in
    let* r_texture_flags := get_32 in
    let tw_custom := to_int tw_custom in
    let th_custom := to_int th_custom in
    let r_texture_flags := to_int r_texture_flags in
    run get_32 then
    run get_32 then
    run get_32 then
    run get_32 then
    let p_size_limit :=
      if negb (has_bit r_texture_flags FORMAT_BIT_STREAM)
      then 0 else p_size_limit in
    let* pos := get_position in
    let* r_data_format := get_32 in
    run seek pos then
    let* image := load_image_from_file p_size_limit in
    match image with
    | None => io_fail ERR_CANT_OPEN ""
    | Some img =>
        if is_empty img then io_fail ERR_CANT_OPEN ""
        else
          let tw := if tw_custom =? 0 then width img else tw in
          let th := if th_custom =? 0 then height img else th in
          io_ret (mkCtex2d tw th tw_custom th_custom img
                    (to_int r_data_format) r_texture_flags)
    end.

(** [_load_data_ctex2d_v4]; the handle is used without a null check. *)
Definition _load_data_ctex2d_v4 (env : Env) (p_path : string)
  (tw th p_size_limit : Z) : decoded ctex2d_out :=
  match file_open env p_path with
  | (_, None) => (Crash, [])
  | (_, Some bytes) => on_handle (ctex2d_v4_body tw th p_size_limit) bytes
  end.

Record ctexlayered_out : Type := mkCtexLayered {
  r_data : list Image;
  r_format : Format;
  r_width : Z;
  r_height : Z;
  r_depth : Z;
  r_type : Z;
  r_mipmaps : bool;
  r_data_format : Z
}.

(** The image loop of the layered decoder: [n] rounds left, counter [i]. *)
Fixpoint load_layers (n : nat) (i : Z) (st : ctexlayered_out)
  : io ctexlayered_out :=
  match n with
  | O => io_ret st
  | S n' =>
      let* df :=
        (if i =? 0
         then
           let* pos := get_position in
           let* df := get_32 in
           run seek pos then io_ret (to_int df)
         else io_ret (r_data_format st)) in
      let* image := load_image_from_file 0 in
      match image with
      | None => io_fail ERR_CANT_OPEN ""
      | Some img =>
          if is_empty img then io_fail ERR_CANT_OPEN ""
          else
            let st' :=
              if i =? 0
              then mkCtexLayered (r_data st ++ [img]) (get_format img)
                     (width img) (height img) (r_depth st) (r_type st)
                     (r_mipmaps st) df
              else mkCtexLayered (r_data st ++ [img]) (r_format st)
                     (r_width st) (r_height st) (r_depth st) (r_type st)
                     (r_mipmaps st) df in
            load_layers n' (i + 1) st'
      end
  end.

(** [int limit = is_layered ? r_depth : r_depth + mipmaps]. *)
Definition layer_limit (is_layered : bool) (depth mipmaps : Z) : Z :=
  if is_layered then depth else to_int (depth + mipmaps).

(** Body of [_load_data_ctexlayered_v4]; [init] holds the caller's values of
    the reference parameters the decoder may leave untouched. *)
Definition ctexlayered_v4_body (uninit : list byte) (p_path : string)
  (init : ctexlayered_out) : io ctexlayered_out :=
  let* rd := get_buffer 4 in
  let header := fill_header uninit rd in
  if negb (header_is header "G" "S" "T" "L")
  then io_fail ERR_FILE_UNRECOGNIZED ""
  else
    let* version := get_32 in
    if 1 <? version
    then io_fail ERR_FILE_CORRUPT "Stream texture file is too new."
    else
      let* depth := get_32 in
      let* ty := get_32 in
      run get_32 then
      run get_32 then
      let* mipmaps := get_32 in
      run get_32 then
      run get_32 then
      let depth := to_int depth in
      let mipmaps := to_int mipmaps in
      let ext := get_extension p_path in
      let is_layered := is_layered_extension ext in
      let limit := layer_limit is_layered depth mipmaps in
      load_layers (Z.to_nat limit) 0
        (mkCtexLayered [] (r_format init) (r_width init) (r_height init)
           depth (to_int ty) (negb (mipmaps =? 0)) (r_data_format init)).

Definition _load_data_ctexlayered_v4 (env : Env) (uninit : list byte)
  (p_path : string) (init : ctexlayered_out) : decoded ctexlayered_out :=
  match file_open env p_path with
  | (_, None) =>
      (Failed ERR_CANT_OPEN ("Unable to open file: " ++ p_path ++ "."), [])
  | (_, Some bytes) =>
      on_handle (ctexlayered_v4_body uninit p_path init) bytes
  end.

End Decoders.

(** ** Metadata records *)

(** [_set_resource_info] on a fresh record, i.e. [_get_resource_info]. *)
Definition _get_resource_info (original_path : string)
  (t : TextureVersionType) : ResourceInfo :=
  mkInfo (get_ver_major_from_textype t) (get_type_name_from_textype t)
    "Texture" original_path "" ∅.

Definition string_is_empty (s : string) : bool :=
  match s with EmptyString => true | _ => false end.

(** [merge_resource_info(new_dict, texture_dict, int_flags)]: the record
    [new_dict] after the assignments, which is also the value returned. *)
Definition merge_resource_info (new_dict texture_dict : ResourceInfo)
  (int_flags : Z) : ResourceInfo :=
  let flags_set :=
    match extra texture_dict !! "texture_flags" with
    | Some v => <["texture_flags" := v]> (extra new_dict)
    | None => <["texture_flags" := VInt int_flags]> (extra new_dict)
    end in
  let format_set :=
    match extra texture_dict !! "data_format" with
    | Some v => <["data_format" := v]> flags_set
    | None => flags_set
    end in
  mkInfo (ver_major texture_dict) (type texture_dict)
    (resource_format texture_dict)
    (if string_is_empty (original_path new_dict)
     then original_path texture_dict else original_path new_dict)
    (cached_id new_dict) format_set.

(** The record [ResourceConverterTexture2D::convert] sets on the loaded
    texture: [existing_dict] is the record the decode attached to the
    texture (if any), [info] the placeholder's, [flags] the placeholder's
    "flags" property. *)
Definition texture2d_converted_info (existing_dict : option ResourceInfo)
  (info : ResourceInfo) (flags : Z) : ResourceInfo :=
  match existing_dict with
  | Some existing => merge_resource_info existing info flags
  | None => info
  end.

(** The record [ImageTextureConverterCompat::convert] sets on the texture
    it builds from the placeholder at [res_path]. *)
Definition image_texture_converted_info (res_path : string) (ver_major : Z)
  (info : ResourceInfo) (flags : Z) : ResourceInfo :=
  let t :=
    if 4 <=? ver_major then FORMAT_V4_COMPRESSED_TEXTURE2D
    else if ver_major =? 3 then FORMAT_V3_IMAGE_TEXTURE
    else FORMAT_V2_IMAGE_TEXTURE in
  merge_resource_info (_get_resource_info res_path t) info flags.

(** ** Real coordinates *)

(** The engine's [real_t], the coordinate type of [Point2] and [Vector2],
    is not under src/.  In the engine's default build it is the C++
    [float]: IEEE 754 binary32, here the Standard Library's [spec_float]
    at precision 24 and exponent bound 128.  A conversion from an integer
    rounds to nearest, ties to even; sums and differences are correctly
    rounded; comparisons are the IEEE ones, so every comparison with a NaN
    is false and [!=] with a NaN is true. *)
Definition real_t : Type := spec_float.

Definition real_of_int (z : Z) : real_t := binary_normalize 24 128 z 0 false.
Definition real_add : real_t -> real_t -> real_t := SFadd 24 128.
Definition real_sub : real_t -> real_t -> real_t := SFsub 24 128.
Definition real_eqb : real_t -> real_t -> bool := SFeqb.
Definition real_ltb : real_t -> real_t -> bool := SFltb.
Definition real_leb : real_t -> real_t -> bool := SFleb.

(** The integer part of a finite value, towards zero. *)
Definition real_trunc (x : real_t) : option Z :=
  match x with
  | S754_zero _ => Some 0
  | S754_finite s m e =>
      Some (if s then - Z.shiftl (Zpos m) e else Z.shiftl (Zpos m) e)
  | _ => None
  end.

Definition in_int (bits z : Z) : bool :=
  (- 2 ^ (bits - 1) <=? z) && (z <? 2 ^ (bits - 1)).

(** What a conversion from [real_t] to a [bits]-wide signed integer
    delivers where C++ leaves it undefined: on a NaN, an infinity, or a
    value whose integer part the type cannot hold.  The value depends on
    the target; the converter is modelled over any choice of it. *)
Class Conversions : Type := {
  out_of_range : Z -> real_t -> Z
}.

(** The choice of x86-64, whose conversion instructions deliver the
    smallest integer of the type. *)
Definition x86_64 : Conversions :=
  {| out_of_range := fun bits _ => - 2 ^ (bits - 1) |}.

(** [(int)x], [(int64_t)x]. *)
Definition int_of_real {conv : Conversions} (bits : Z) (x : real_t) : Z :=
  match real_trunc x with
  | Some z => if in_int bits z then z else out_of_range bits x
  | None => out_of_range bits x
  end.

(** A 64-bit pattern read as the [int64_t] it is assigned to. *)
Definition to_int64 (z : Z) : Z := (z + 2 ^ 63) mod 2 ^ 64 - 2 ^ 63.

(** [Vector2(x, y)] of two integers. *)
Definition Vector2_of (p : Z * Z) : real_t * real_t :=
  (real_of_int (fst p), real_of_int (snd p)).

(** ** Large-texture tile reassembly *)

(** A tile: its offset on the canvas, a [Point2], and the image its
    texture holds. *)
Record Piece : Type := mkPiece {
  offset : real_t * real_t;
  texture : Image
}.

Module CustomPieceSort.
Definition compare (a b : Piece) : bool :=
  if negb (real_eqb (snd (offset a)) (snd (offset b)))
  then real_ltb (snd (offset a)) (snd (offset b))
  else real_ltb (fst (offset a)) (fst (offset b)).
End CustomPieceSort.

(** "[a] may stand before [b]" for the comparator: [b] is not strictly
    before [a]. *)
Definition piece_le (a b : Piece) : Prop := CustomPieceSort.compare b a = false.

#[global] Instance piece_le_dec : RelDecision piece_le.
Proof. intros a b. unfold piece_le. apply _. Defined.

(** Modelled from the spec: [pieces.sort_custom<CustomPieceSort>()].  The
    engine's sort is not under src/; the spec has the tiles sorted by
    offset with the row-major comparator, which is a comparison sort under
    [CustomPieceSort.compare].  For tiles on distinct cells of a grid the
    sorted order is unique ([sort_custom_unique]). *)
Definition sort_custom (pieces : list Piece) : list Piece :=
  merge_sort piece_le pieces.

(** An entry of the placeholder's [_data] array next to its offset: a
    placeholder of class "ImageTexture" with what
    [ImageTextureConverterCompat::convert] makes of it ([None]: not a valid
    texture), a resource that already is a 2D texture, or any other
    resource.  A valid texture holds an image or a null image reference. *)
Inductive tile_resource : Type :=
  | MissingImageTexture (converted : option (option Image))
  | LoadedTexture (image : option Image)
  | OtherResource.

(** The valid texture an entry resolves to, as the image [get_image()]
    returns on it. *)
Definition image_texture_of (r : tile_resource) : option (option Image) :=
  match r with
  | MissingImageTexture converted => converted
  | LoadedTexture image => Some image
  | OtherResource => None
  end.

(** How [LargeTextureConverterCompat::convert] ends: with the layered
    texture's images and the recorded offsets, with a null resource after an
    [ERR_FAIL_COND_V_MSG], or in a crash on a null reference or an index out
    of range. *)
Inductive reassembly : Type :=
  | Reassembled (images : list Image) (offsets : list (real_t * real_t))
  | Aborted (msg : string)
  | Crashed.

Record cursor : Type := mkCursor {
  expected_x : Z;
  expected_y : Z;
  images : list Image;
  offsets : list (real_t * real_t)
}.

(** How the first loop ends. *)
Inductive gathered : Type :=
  | Gathered (max_piece_size : Z * Z) (pieces : list Piece)
  | Unresolved
  | NullImage.

Section Reassembler.
Context {api : ImageApi} {conv : Conversions}.

(** The first loop: resolve every entry, track the largest piece size.  It
    returns at the first entry that is not a valid texture and
    dereferences the image of every valid one. *)
Fixpoint gather (data : list (real_t * real_t * tile_resource))
  (max_piece_size : Z * Z) (pieces : list Piece) : gathered :=
  match data with
  | [] => Gathered max_piece_size pieces
  | (off, texture_res) :: rest =>
      match image_texture_of texture_res with
      | None => Unresolved
      | Some None => NullImage
      | Some (Some img) =>
          gather rest
            (Z.max (fst max_piece_size) (width img),
             Z.max (snd max_piece_size) (height img))
            (pieces ++ [mkPiece off img])
      end
  end.

(** One edge of [gap_size]: the largest piece's edge, replaced by the
    distance to the far side of the canvas when the sum of cursor and edge,
    an [int64_t] converted to [real_t], exceeds the canvas size.  The
    distance is computed in [real_t] and converted to [int]. *)
Definition gap_edge (max_edge : Z) (whole : real_t) (expected : Z) : Z :=
  if real_ltb whole (real_of_int (to_int64 (expected + max_edge)))
  then int_of_real 32 (real_sub whole (real_of_int expected))
  else max_edge.

Definition gap_size (max_piece_size : Z * Z) (whole_size : real_t * real_t)
  (c : cursor) : Z * Z :=
  (gap_edge (fst max_piece_size) (fst whole_size) (expected_x c),
   gap_edge (snd max_piece_size) (snd whole_size) (expected_y c)).

(** Move the cursor to horizontal position [x], wrapping to the next row
    when [x] reaches the canvas width. *)
Definition advance_to (max_piece_size : Z * Z)
  (whole_size : real_t * real_t) (x : Z) (c : cursor) : Z * Z :=
  if real_leb (fst whole_size) (real_of_int x)
  then (0, to_int64 (expected_y c + snd max_piece_size))
  else (x, expected_y c).

(** One round of either gap loop. *)
Definition emit_gap (max_piece_size : Z * Z) (whole_size : real_t * real_t)
  (mipmaps : bool) (format : Format) (c : cursor) : cursor :=
  let gap := gap_size max_piece_size whole_size c in
  let '(x, y) :=
    advance_to max_piece_size whole_size
      (to_int64 (expected_x c + fst gap)) c in
  mkCursor x y
    (images c ++ [create_empty (fst gap) (snd gap) mipmaps format])
    (offsets c ++ [Vector2_of (expected_x c, expected_y c)]).

(** [pos.x != expected_x || pos.y != expected_y], negated. *)
Definition at_pos (pos : real_t * real_t) (c : cursor) : bool :=
  real_eqb (fst pos) (real_of_int (expected_x c))
  && real_eqb (snd pos) (real_of_int (expected_y c)).

(** [while (pos.x != expected_x || pos.y != expected_y)]; [None] when
    [fuel] rounds did not reach [pos]. *)
Fixpoint fill_until (fuel : nat) (max_piece_size : Z * Z)
  (whole_size pos : real_t * real_t) (image : Image) (c : cursor)
  : option cursor :=
  if at_pos pos c then Some c
  else
    match fuel with
    | O => None
    | S fuel' =>
        fill_until fuel' max_piece_size whole_size pos image
          (emit_gap max_piece_size whole_size (has_mipmaps image)
             (get_format image) c)
    end.

(** The loop over the sorted pieces. *)
Fixpoint place_pieces (fuel : nat) (max_piece_size : Z * Z)
  (whole_size : real_t * real_t) (pieces : list Piece) (c : cursor)
  : option cursor :=
  match pieces with
  | [] => Some c
  | p :: rest =>
      match fill_until fuel max_piece_size whole_size (offset p)
              (texture p) c with
      | None => None
      | Some c1 =>
          let '(x, y) :=
            advance_to max_piece_size whole_size
              (int_of_real 64
                 (real_add (fst (offset p))
                    (real_of_int (width (texture p))))) c1 in
          place_pieces fuel max_piece_size whole_size rest
            (mkCursor x y (images c1 ++ [texture p])
               (offsets c1 ++ [offset p]))
      end
  end.

(** The closing [while (expected_y < whole_size.y)], then [_set_tex]; both
    index [images[0]]. *)
Fixpoint fill_rest (fuel : nat) (max_piece_size : Z * Z)
  (whole_size : real_t * real_t) (c : cursor) : option reassembly :=
  match images c with
  | [] => Some Crashed
  | first :: _ =>
      if real_ltb (real_of_int (expected_y c)) (snd whole_size)
      then
        match fuel with
        | O => None
        | S fuel' =>
            fill_rest fuel' max_piece_size whole_size
              (emit_gap max_piece_size whole_size (has_mipmaps first)
                 (get_format first) c)
        end
      else Some (Reassembled (images c) (offsets c))
  end.

Definition convert_failure (res_path : string) : string :=
  "LargeTextureConverterCompat: Failed to convert ImageTexture in array data of LargeTexture "
  ++ res_path.

(** [LargeTextureConverterCompat::convert] on the placeholder at
    [res_path] whose [_data] holds the entries [data] followed by
    [whole_size].  [None]: the gap loops are still running after [fuel]
    rounds each. *)
Definition convert (fuel : nat) (res_path : string)
  (data : list (real_t * real_t * tile_resource))
  (whole_size : real_t * real_t) : option reassembly :=
  match gather data (0, 0) [] with
  | Unresolved => Some (Aborted (convert_failure res_path))
  | NullImage => Some Crashed
  | Gathered max_piece_size pieces =>
      match place_pieces fuel max_piece_size whole_size
              (sort_custom pieces) (mkCursor 0 0 [] []) with
      | None => None
      | Some c => fill_rest fuel max_piece_size whole_size c
      end
  end.

End Reassembler.

(** ** The legacy 3D and array decoder *)

(** What [_load_layered_texture_v3] leaves in its reference parameters
    on success.  [r_format] is not among them: the decoder never assigns
    it. *)
Record layered_v3_out : Type := mkLayeredV3 {
  l_data : list Image;
  l_width : Z;
  l_height : Z;
  l_depth : Z;
  l_mipmaps : bool
}.

Section LayeredV3.
Context {api : ImageApi}.

(** The inner loop of the lossless branch: [n] levels left, each a size
    word and a PNG payload that must unpack to a non-empty image of the
    header's format. *)
Fixpoint read_png_levels (n : nat) (format : Format) (acc : list Image)
  : io (list Image) :=
  match n with
  | O => io_ret acc
  | S n' =>
      let* size := get_32 in
      let* pv := read_into_vector size in
      match png_unpacker pv with
      | None => io_fail ERR_FILE_CORRUPT ""
      | Some img =>
          if is_empty img || negb (format =? get_format img)
          then io_fail ERR_FILE_CORRUPT ""
          else read_png_levels n' format (acc ++ [img])
      end
  end.

(** The [memcpy] loop into a vector resized to [total_size]: the levels'
    bytes one after the other, then the untouched tail.  [None] when the
    levels hold more bytes than the vector, where the copy writes past
    its end. *)
Definition copy_levels (total_size : Z) (mipmap_images : list Image)
  : option (list byte) :=
  let buffer := resized_vector total_size in
  let bytes := concat (map get_data mipmap_images) in
  if (length bytes <=? length buffer)%nat
  then Some (bytes ++ drop (length bytes) buffer)
  else None.

(** One round of the layer loop: the layer's image and the new value of
    [r_mipmaps]. *)
Definition load_v3_layer (r_width r_height flags : Z) (format : Format)
  (compression : Z) (r_mipmaps : bool) : io (Image * bool) :=
  if compression =? 0
  then
    let* mipmaps := get_32 in
    let mipmaps := to_int mipmaps in
    let r_mipmaps := if 1 <? mipmaps then true else r_mipmaps in
    let* mipmap_images := read_png_levels (Z.to_nat mipmaps) format [] in
    match mipmap_images with
    | [only] => io_ret (only, r_mipmaps)
    | _ =>
        let total_size :=
          get_image_data_size r_width r_height format true in
        match copy_levels total_size mipmap_images with
        | None => fun f => (Crash, f)
        | Some img_data =>
            let image :=
              initialize_data instantiate r_width r_height true format
                img_data in
            if is_empty image then io_fail ERR_FILE_CORRUPT ""
            else io_ret (image, r_mipmaps)
        end
    end
  else
    let mipmaps := has_bit flags 1 in
    let total_size :=
      get_image_data_size r_width r_height format mipmaps in
    let* rd := get_buffer total_size in
    let img_data := rd ++ drop (length rd) (resized_vector total_size) in
    if negb (Z.of_nat (length rd) =? total_size)
    then io_fail ERR_FILE_CORRUPT ""
    else
      io_ret (initialize_data instantiate r_width r_height mipmaps format
                img_data, r_mipmaps).

(** The layer loop: [n] layers left. *)
Fixpoint load_v3_layers (n : nat) (flags : Z) (format : Format)
  (compression : Z) (st : layered_v3_out) : io layered_v3_out :=
  match n with
  | O => io_ret st
  | S n' =>
      let* (image, r_mipmaps) :=
        load_v3_layer (l_width st) (l_height st) flags format compression
          (l_mipmaps st) in
      load_v3_layers n' flags format compression
        (mkLayeredV3 (l_data st ++ [image]) (l_width st) (l_height st)
           (l_depth st) r_mipmaps)
  end.

(** Body of [_load_layered_texture_v3] once the file is open; [r_data] is
    the caller's vector, to which the layers are appended. *)
Definition layered_v3_body (r_data : list Image) : io layered_v3_out :=
  let* header := get_buffer 4 in
  let* r_width := get_32 in
  let* r_height := get_32 in
  let* r_depth := get_32 in
  let* flags := get_32 in
  let r_width := to_int r_width in
  let r_height := to_int r_height in
  let r_depth := to_int r_depth in
  let flags := to_int flags in
  let r_mipmaps := has_bit flags 1 in
  let* v3_fmt := get_32 in
  let format := convert_image_format_enum_v3_to_v4 v3_fmt in
  if format =? FORMAT_MAX
  then io_fail ERR_FILE_CORRUPT
         "Textured layer is in an invalid or deprecated format"
  else
    let* compression := get_32 in
    load_v3_layers (Z.to_nat r_depth) flags format compression
      (mkLayeredV3 r_data r_width r_height r_depth r_mipmaps).

Definition _load_layered_texture_v3 (env : Env) (p_path : string)
  (r_data : list Image) : decoded layered_v3_out :=
  match file_open env p_path with
  | (err, None) =>
      (Failed err ("Cannot open file '" ++ p_path ++ "'."), [])
  | (_, Some bytes) => on_handle (layered_v3_body r_data) bytes
  end.

End LayeredV3.

(** ** An implementation of the image services *)

(** One-byte-per-pixel images (format 0) with a full mipmap chain down to
    1x1, no embedded codecs, and a one-byte stand-in for the v4 image body.  It instantiates [ImageApi] so that the loader
    can be evaluated on concrete files. *)
Module Sample.

(** Byte sizes of [n + 1] successive levels starting at [w] x [h]. *)
Fixpoint level_sizes (n : nat) (w h : Z) : list Z :=
  match n with
  | O => [w * h]
  | S n' => w * h :: level_sizes n' (half w) (half h)
  end.

Definition sum (l : list Z) : Z := fold_right Z.add 0 l.

(** Levels below the base level. *)
Definition required_mipmaps (w h : Z) (_ : Format) : Z :=
  Z.log2 (Z.max w h).

Definition data_size (w h : Z) (fmt : Format) (mipmaps : bool) : Z :=
  if mipmaps
  then sum (level_sizes (Z.to_nat (required_mipmaps w h fmt)) w h)
  else w * h.

Definition mipmap_offset (w h : Z) (fmt : Format) (idx : Z) : Z :=
  sum (take (Z.to_nat idx)
         (level_sizes (Z.to_nat (required_mipmaps w h fmt)) w h)).

Definition init (img : Image) (w h : Z) (m : bool) (fmt : Format)
  (d : list byte) : Image :=
  if (0 <? w) && (0 <? h) && (Z.of_nat (length d) =? data_size w h fmt m)
  then mkImage w h m fmt d else img.

Definition blank (w h : Z) (m : bool) (fmt : Format) : Image :=
  init instantiate w h m fmt (repeat x00 (Z.to_nat (data_size w h fmt m))).

Definition init_law img w h m fmt d :
  init img w h m fmt d = img \/ init img w h m fmt d = mkImage w h m fmt d :=
  match (0 <? w) && (0 <? h) && (Z.of_nat (length d) =? data_size w h fmt m)
    as b
    return (if b then mkImage w h m fmt d else img) = img
           \/ (if b then mkImage w h m fmt d else img) = mkImage w h m fmt d
  with
  | true => or_intror eq_refl
  | false => or_introl eq_refl
  end.

(** The stand-in for the v4 image body: one byte, a 1x1 image. *)
Definition load_pixel (_ : Z) : io (option Image) :=
  (let* bs := get_buffer 1 in
   match bs with
   | [b] => io_ret (Some (mkImage 1 1 false 0 [b]))
   | _ => io_ret None
   end)%io.

#[export] Instance api : ImageApi := {|
  FORMAT_MAX := 39;
  V3_FORMAT_MAX := 38;
  FORMAT_VERSION := 1;
  convert_image_format_enum_v3_to_v4 := fun v => if v =? 0 then 0 else 39;
  get_image_data_size := data_size;
  get_image_required_mipmaps := required_mipmaps;
  get_image_mipmap_offset := mipmap_offset;
  initialize_data := init;
  create_empty := blank;
  png_unpacker := fun _ => None;
  webp_unpack_v2v3 := fun _ => None;
  image_convert := fun img _ => img;
  load_image_from_file := load_pixel;
  resized_vector := fun n => repeat x00 (Z.to_nat n);
  get_format_name := fun _ => "L8";
  get_v3_format_name := fun _ => "deprecated";
  itos := fun _ => "?";
  initialize_data_law := init_law
|}.

(** A file system with the given files and a probe with the given
    answers; every other path fails to open. *)
Definition env (files : list (string * list byte))
  (probes : list (string * (Error * option ResourceInfo))) : Env :=
  mkEnv
    (fun p =>
       match list_find (fun e => String.eqb (fst e) p) files with
       | Some (_, (_, bytes)) => (OK, Some bytes)
       | None => (ERR_FILE_CANT_OPEN, None)
       end)
    (fun p =>
       match list_find (fun e => String.eqb (fst e) p) probes with
       | Some (_, (_, answer)) => answer
       | None => (ERR_FILE_CANT_OPEN, None)
       end).

(** Little-endian encodings used to write test files. *)
Definition byte_of_Z (z : Z) : byte :=
  match Byte.of_N (Z.to_N (z mod 256)) with Some b => b | None => x00 end.

Definition le32 (z : Z) : list byte :=
  [byte_of_Z z; byte_of_Z (z / 256); byte_of_Z (z / 65536);
   byte_of_Z (z / 16777216)].

End Sample.

(** ** Vocabulary of the statements *)

Definition magic (s : string) : list byte := list_byte_of_string s.

(** The recogniser on an opened file of at least four bytes, as a function
    of the four leading bytes. *)
Definition classify_header (env : Env) (p_path : string)
  (header : list byte) : option recognition :=
  let direct v := Some (mkRecognition v OK [EvGetBuffer 4] false) in
  if header_is header "G" "D" "S" "T"
  then direct FORMAT_V3_STREAM_TEXTURE2D
  else if header_is header "G" "D" "3" "T"
  then direct FORMAT_V3_STREAM_TEXTURE3D
  else if header_is header "G" "D" "A" "T"
  then direct FORMAT_V3_STREAM_TEXTUREARRAY
  else if header_is header "G" "S" "T" "L"
  then
    if is_layered_extension (get_extension p_path)
    then direct FORMAT_V4_COMPRESSED_TEXTURELAYERED
    else direct FORMAT_V4_COMPRESSED_TEXTURE3D
  else if header_is header "G" "S" "T" "2"
  then direct FORMAT_V4_COMPRESSED_TEXTURE2D
  else if header_is header "R" "S" "R" "C" || header_is header "R" "S" "C" "C"
  then
    let '(perr, i_info) := binary_get_resource_info env p_path in
    if negb (Error_eqb perr ERR_PRINTER_ON_FIRE) && negb (Error_eqb perr OK)
    then Some (mkRecognition FORMAT_NOT_TEXTURE perr [EvGetBuffer 4] true)
    else
      match i_info with
      | None => None
      | Some info =>
          match binary_variant info with
          | Some v => Some (mkRecognition v OK [EvGetBuffer 4] true)
          | None =>
              Some (mkRecognition FORMAT_NOT_TEXTURE ERR_FILE_UNRECOGNIZED
                      [EvGetBuffer 4] true)
          end
      end
  else Some (mkRecognition FORMAT_NOT_TEXTURE ERR_FILE_UNRECOGNIZED
               [EvGetBuffer 4] false).

(** A 32-bit header word as its four bytes in file order. *)
Definition word : Type := (byte * byte * byte * byte)%type.

Definition word_bytes (w : word) : list byte :=
  let '(a, b, c, d) := w in [a; b; c; d].

Definition word_value (w : word) : Z := le_value (word_bytes w).

Definition ascii_to_lower (c : ascii) : ascii :=
  let n := nat_of_ascii c in
  if (65 <=? n)%nat && (n <=? 90)%nat then ascii_of_nat (n + 32) else c.

Fixpoint to_lower (s : string) : string :=
  match s with
  | EmptyString => EmptyString
  | String c rest => String (ascii_to_lower c) (to_lower rest)
  end.

(** The extension test in the spec's words: a case-insensitive match
    against ctexarray, ccube and ccubearray. *)
Definition spec_layered_extension (ext : string) : bool :=
  is_layered_extension (to_lower ext).

(** The exact, case-sensitive membership the code tests. *)
Definition exact_layered_extension (ext : string) : Prop :=
  ext = "ctexarray" \/ ext = "ccube" \/ ext = "ccubearray".

(** The 32-bit version field of a v4 stream file: the word after the
    4-byte magic. *)
Definition version_field (bytes : list byte) : Z :=
  le_value (take 4 (drop 4 bytes)).

(** A v4 layered/3D stream file laid out field by field. *)
Definition gstl_file (version depth ty nothing1 nothing2 mipmaps
  ignored1 ignored2 : word) (body : list byte) : list byte :=
  magic "GSTL" ++ word_bytes version ++ word_bytes depth ++ word_bytes ty
  ++ word_bytes nothing1 ++ word_bytes nothing2 ++ word_bytes mipmaps
  ++ word_bytes ignored1 ++ word_bytes ignored2 ++ body.

(** The field precedence of the metadata merge, as the code has it:
    [merged] takes version, type and format from the placeholder's record,
    keeps the decode-produced record's original path unless it is empty,
    stores under "texture_flags" the placeholder's entry or else the
    caller's [flags], lets the placeholder's "data_format" entry (if any)
    replace the decode-produced one, and keeps every other entry of the
    decode-produced record, taking none from the placeholder. *)
Definition placeholder_precedence (decoded placeholder : ResourceInfo)
  (flags : Z) (merged : ResourceInfo) : Prop :=
  ver_major merged = ver_major placeholder
  /\ type merged = type placeholder
  /\ resource_format merged = resource_format placeholder
  /\ (original_path decoded <> "" ->
      original_path merged = original_path decoded)
  /\ (original_path decoded = "" ->
      original_path merged = original_path placeholder)
  /\ extra merged !! "texture_flags"
     = Some (default (VInt flags) (extra placeholder !! "texture_flags"))
  /\ extra merged !! "data_format"
     = match extra placeholder !! "data_format" with
       | Some v => Some v
       | None => extra decoded !! "data_format"
       end
  /\ (forall k : string,
         k <> "texture_flags" -> k <> "data_format" ->
         extra merged !! k = extra decoded !! k).

(** The variant [ImageTextureConverterCompat::convert] stamps on the
    record it creates. *)
Definition image_texture_stamp (ver_major : Z) : TextureVersionType :=
  if 4 <=? ver_major then FORMAT_V4_COMPRESSED_TEXTURE2D
  else if ver_major =? 3 then FORMAT_V3_IMAGE_TEXTURE
  else FORMAT_V2_IMAGE_TEXTURE.

(** What the size-limit loop of the raw mipmapped branch settles on for a
    [tw] x [th] image under limit [p_size_limit]: the kept width and
    height, the loop's final [mipmaps2] and the index of the first kept
    level. *)
Definition raw_plan {api : ImageApi} (tw th p_size_limit : Z)
  (format : Format) : Z * Z * Z * Z :=
  let mipmaps2 := get_image_required_mipmaps tw th format in
  skip_raw_levels (Z.to_nat (mipmaps2 - 1)) p_size_limit tw th mipmaps2 0.

(** Bytes left in the file from absolute position [p]. *)
Definition bytes_from (f : FileAccess) (p : Z) : list byte :=
  drop (Z.to_nat p) (f_data f).

(** A legacy stream 2D file laid out field by field. *)
Definition gdst_file (tw tw_custom th th_custom : byte * byte)
  (flags df : word) (body : list byte) : list byte :=
  magic "GDST" ++ [fst tw; snd tw] ++ [fst tw_custom; snd tw_custom]
  ++ [fst th; snd th] ++ [fst th_custom; snd th_custom]
  ++ word_bytes flags ++ word_bytes df ++ body.

(** An entry of the tile array that does not resolve to a valid 2D
    texture. *)
Definition unresolved_entry (e : real_t * real_t * tile_resource) : Prop :=
  image_texture_of (snd e) = None.

(** An entry that resolves to a valid texture whose image reference is
    null. *)
Definition imageless_entry (e : real_t * real_t * tile_resource) : Prop :=
  image_texture_of (snd e) = Some None.

(** An entry that resolves to the tile [p]: a valid texture holding [p]'s
    image, at [p]'s offset. *)
Definition resolves_to (e : real_t * real_t * tile_resource) (p : Piece)
  : Prop :=
  fst e = offset p /\ image_texture_of (snd e) = Some (Some (texture p)).

(** The tile array of already loaded tiles. *)
Definition data_of (pieces : list Piece)
  : list (real_t * real_t * tile_resource) :=
  map (fun p => (offset p, LoadedTexture (Some (texture p)))) pieces.

(** The tile grid of a [W] x [H] canvas cut into [T] x [T] tiles:
    [ceil_div W T] columns, [ceil_div H T] rows, cells numbered row by
    row. *)
Definition ceil_div (a b : Z) : Z := (a + b - 1) / b.

Definition cell_at (W T : Z) (k : nat) : Z * Z :=
  (Z.of_nat k mod ceil_div W T * T, Z.of_nat k / ceil_div W T * T).

Definition cell_count (W H T : Z) : nat :=
  Z.to_nat (ceil_div W T * ceil_div H T).

Definition grid (W H T : Z) : list (Z * Z) :=
  map (cell_at W T) (seq 0 (cell_count W H T)).

(** Edge length of the tile that starts at [at_] on an axis of length
    [extent]: [T], clipped at the far edge. *)
Definition clip (T extent at_ : Z) : Z := Z.min T (extent - at_).

(** A tile of the uniform tiling: it sits on a grid cell and has that
    cell's clipped size. *)
Definition grid_tile (W H T : Z) (p : Piece) : Prop :=
  exists k : nat,
    (k < cell_count W H T)%nat
    /\ offset p = Vector2_of (cell_at W T k)
    /\ width (texture p) = clip T W (fst (cell_at W T k))
    /\ height (texture p) = clip T H (snd (cell_at W T k)).

(** No supplied tile sits at [pos]. *)
Definition vacant (pieces : list Piece) (pos : Z * Z) : Prop :=
  forall p, p ∈ pieces -> offset p <> Vector2_of pos.

(** What the output holds for the cell at [pos]: the supplied tile's image
    if there is one, else a blank image of the cell's clipped size. *)
Definition filled {api : ImageApi} (W H T : Z) (pieces : list Piece)
  (pos : Z * Z) (img : Image) : Prop :=
  (forall p, p ∈ pieces -> offset p = Vector2_of pos -> img = texture p)
  /\ (vacant pieces pos ->
      exists mipmaps format,
        img = create_empty (clip T W (fst pos)) (clip T H (snd pos))
                mipmaps format).

(** Order of the comparator on integer offsets: rows first, then
    columns. *)
Definition key_le (a b : Z * Z) : Prop :=
  snd a < snd b \/ (snd a = snd b /\ fst a <= fst b).

(** The largest tile width and height seen by the first loop, starting
    from [m]. *)
Definition max_size (m : Z * Z) (pieces : list Piece) : Z * Z :=
  fold_left
    (fun m p =>
       (Z.max (fst m) (width (texture p)), Z.max (snd m) (height (texture p))))
    pieces m.

(** The cursor is at the left edge or left of the canvas's right edge:
    what every move of the cursor establishes. *)
Definition x_inside (whole_size : real_t * real_t) (c : cursor) : Prop :=
  expected_x c = 0
  \/ real_leb (fst whole_size) (real_of_int (expected_x c)) = false.

(** Where the walk stands after [k] cells: rows advance by the largest
    tile height, which is [T] or, on a canvas lower than [T], [H]. *)
Definition walk_at (W H T : Z) (k : nat) : Z * Z :=
  (Z.of_nat k mod ceil_div W T * T,
   Z.of_nat k / ceil_div W T * Z.min T H).

(** Invariant of the walk: the cursor stands on cell [k] and the output
    so far covers exactly the cells before it. *)
Definition covered_to {api : ImageApi} (W H T : Z) (pieces : list Piece)
  (k : nat) (c : cursor) : Prop :=
  (expected_x c, expected_y c) = walk_at W H T k
  /\ offsets c = map Vector2_of (map (cell_at W T) (seq 0 k))
  /\ Forall2 (filled W H T pieces) (map (cell_at W T) (seq 0 k)) (images c).

(** A mantissa shifted left by [k] bits, and the canonical binary32
    representation of a positive integer of at most 24 bits. *)
Definition pshift (n : positive) (k : Z) : positive :=
  Pos.shiftl n (Z.to_N k).

Definition canon (s : bool) (n : positive) : spec_float :=
  S754_finite s (pshift n (24 - Zpos (Pos.size n))) (Zpos (Pos.size n) - 24).

(** [isnan]. *)
Definition is_nan (x : real_t) : bool :=
  match x with S754_nan => true | _ => false end.

(** A key on which the IEEE comparison of non-NaN values is the
    lexicographic order: class, then exponent, then mantissa. *)
Definition real_key (x : real_t) : option (Z * Z * Z) :=
  match x with
  | S754_nan => None
  | S754_infinity true => Some (-2, 0, 0)
  | S754_finite true m e => Some (-1, - e, - Zpos m)
  | S754_zero _ => Some (0, 0, 0)
  | S754_finite false m e => Some (1, e, Zpos m)
  | S754_infinity false => Some (2, 0, 0)
  end.

Definition key_compare (a b : Z * Z * Z) : comparison :=
  match fst (fst a) ?= fst (fst b) with
  | Eq =>
      match snd (fst a) ?= snd (fst b) with
      | Eq => snd a ?= snd b
      | c => c
      end
  | c => c
  end.

(** ** An implementation with an embedded codec *)

(** [Sample]'s image services with a stand-in for the PNG unpacker: a
    payload is a width byte, a height byte, then the pixels. *)
Module Packed.

Definition unpack (pv : list byte) : option Image :=
  match pv with
  | w :: h :: pixels =>
      Some (mkImage (Z.of_N (Byte.to_N w)) (Z.of_N (Byte.to_N h)) false 0
              pixels)
  | _ => None
  end.

#[export] Instance api : ImageApi := {|
  FORMAT_MAX := 39;
  V3_FORMAT_MAX := 38;
  FORMAT_VERSION := 1;
  convert_image_format_enum_v3_to_v4 := fun v => if v =? 0 then 0 else 39;
  get_image_data_size := Sample.data_size;
  get_image_required_mipmaps := Sample.required_mipmaps;
  get_image_mipmap_offset := Sample.mipmap_offset;
  initialize_data := Sample.init;
  create_empty := Sample.blank;
  png_unpacker := unpack;
  webp_unpack_v2v3 := fun _ => None;
  image_convert := fun img _ => img;
  load_image_from_file := Sample.load_pixel;
  resized_vector := fun n => repeat x00 (Z.to_nat n);
  get_format_name := fun _ => "L8";
  get_v3_format_name := fun _ => "deprecated";
  itos := fun _ => "?";
  initialize_data_law := Sample.init_law
|}.

End Packed.

(** ** An implementation without pixels *)

(** [Sample]'s image services with blank images that carry no pixel
    data, for canvases too large to fill. *)
Module Thin.

Definition blank (w h : Z) (m : bool) (fmt : Format) : Image :=
  mkImage w h m fmt [].

#[export] Instance api : ImageApi := {|
  FORMAT_MAX := 39;
  V3_FORMAT_MAX := 38;
  FORMAT_VERSION := 1;
  convert_image_format_enum_v3_to_v4 := fun v => if v =? 0 then 0 else 39;
  get_image_data_size := Sample.data_size;
  get_image_required_mipmaps := Sample.required_mipmaps;
  get_image_mipmap_offset := Sample.mipmap_offset;
  initialize_data := Sample.init;
  create_empty := blank;
  png_unpacker := fun _ => None;
  webp_unpack_v2v3 := fun _ => None;
  image_convert := fun img _ => img;
  load_image_from_file := Sample.load_pixel;
  resized_vector := fun n => repeat x00 (Z.to_nat n);
  get_format_name := fun _ => "L8";
  get_v3_format_name := fun _ => "deprecated";
  itos := fun _ => "?";
  initialize_data_law := Sample.init_law
|}.

End Thin.

(** A v4 compressed 2D stream file laid out field by field: a 4-byte
    header, the version, the two size overrides, the texture flags, the
    mipmap limit, three reserved words, then the image body. *)
Definition gst2_file (header version tw_custom th_custom flags mipmap_limit
  reserved1 reserved2 reserved3 : word) (body : list byte) : list byte :=
  word_bytes header ++ word_bytes version ++ word_bytes tw_custom
  ++ word_bytes th_custom ++ word_bytes flags ++ word_bytes mipmap_limit
  ++ word_bytes reserved1 ++ word_bytes reserved2 ++ word_bytes reserved3
  ++ body.

(** The operations [_load_data_ctex2d_v4] has performed on its handle when
    it calls the engine's image loader. *)
Definition ctex2d_header_log : list io_event :=
  [EvGetBuffer 4; EvGet32; EvGet32; EvGet32; EvGet32; EvGet32; EvGet32;
   EvGet32; EvGet32; EvGet32; EvSeek 36].

(** A legacy 3D or array stream file laid out field by field. *)
Definition gd3t_file (header width height depth flags pixel_format
  compression : word) (body : list byte) : list byte :=
  word_bytes header ++ word_bytes width ++ word_bytes height
  ++ word_bytes depth ++ word_bytes flags ++ word_bytes pixel_format
  ++ word_bytes compression ++ body.

(** The operations [_load_layered_texture_v3] performs on the header. *)
Definition gd3t_header_log : list io_event :=
  [EvGetBuffer 4; EvGet32; EvGet32; EvGet32; EvGet32; EvGet32; EvGet32].

(** The chain of embedded levels as a file lays it out behind the first
    level's two header words: a level's payload of [size] bytes at [pos],
    then the next level's two words, its level count and its payload
    size.  [headers] are the header words of the levels after the
    first. *)
Fixpoint codec_chain (data : list byte) (pos size : Z)
  (headers : list (word * word)) : Prop :=
  match headers with
  | [] => True
  | (m, s) :: rest =>
      (exists tail,
         drop (Z.to_nat (u64 (pos + size))) data
         = word_bytes m ++ word_bytes s ++ tail)
      /\ codec_chain data (u64 (pos + size) + 8) (word_value s) rest
  end.

(** The level counter and the payload size in force behind [headers]: the
    counter is the last count read, less one. *)
Fixpoint chain_count (count : Z) (headers : list (word * word)) : Z :=
  match headers with
  | [] => count
  | (m, _) :: rest => chain_count (u32 (word_value m - 1)) rest
  end.

Fixpoint chain_size (size : Z) (headers : list (word * word)) : Z :=
  match headers with
  | [] => size
  | (_, s) :: rest => chain_size (word_value s) rest
  end.

(** Where the payload of the level behind [headers] starts, and the
    operations that lead there: per level a seek over the payload and the
    two reads of the next header. *)
Fixpoint chain_pos (pos size : Z) (headers : list (word * word)) : Z :=
  match headers with
  | [] => pos
  | (_, s) :: rest => chain_pos (u64 (pos + size) + 8) (word_value s) rest
  end.

Fixpoint chain_log (pos size : Z) (headers : list (word * word))
  : list io_event :=
  match headers with
  | [] => []
  | (_, s) :: rest =>
      [EvSeek (u64 (pos + size)); EvGet32; EvGet32]
      ++ chain_log (u64 (pos + size) + 8) (word_value s) rest
  end.

(** * Properties *)

(** ** Recogniser *)

Lemma Error_eqb_eq (a b : Error) : Error_eqb a b = true <-> a = b.
Proof.
  destruct a, b; simpl; split; intros H; try congruence; try reflexivity.
  - apply Nat.eqb_eq in H. congruence.
  - inversion H. apply Nat.eqb_refl.
Qed.

Lemma header_is_true b0 b1 b2 b3 tl c0 c1 c2 c3 :
  header_is (b0 :: b1 :: b2 :: b3 :: tl) c0 c1 c2 c3 = true
  <-> [b0; b1; b2; b3] = map byte_of_ascii [c0; c1; c2; c3].
Proof.
  simpl. rewrite !andb_true_iff. split.
  - intros [[[H0 H1] H2] H3].
    apply byte_dec_bl in H0, H1, H2, H3. congruence.
  - intros H. injection H as -> -> -> ->.
    repeat split; apply byte_dec_lb; reflexivity.
Qed.

Lemma header_is_false b0 b1 b2 b3 tl c0 c1 c2 c3 :
  [b0; b1; b2; b3] <> map byte_of_ascii [c0; c1; c2; c3] ->
  header_is (b0 :: b1 :: b2 :: b3 :: tl) c0 c1 c2 c3 = false.
Proof.
  intros H. apply not_true_is_false. rewrite header_is_true. exact H.
Qed.

(** The header array after reading a file of at least four bytes. *)
Lemma header_of_file uninit b0 b1 b2 b3 rest :
  fill_header uninit (peek (open_bytes (b0 :: b1 :: b2 :: b3 :: rest)) 4)
  = b0 :: b1 :: b2 :: b3 :: drop 4 uninit.
Proof. reflexivity. Qed.

Lemma is_layered_extension_true ext :
  is_layered_extension ext = true
  <-> ext = "ctexarray" \/ ext = "ccube" \/ ext = "ccubearray".
Proof.
  unfold is_layered_extension. rewrite !orb_true_iff, !String.eqb_eq.
  tauto.
Qed.

Lemma recognize_opened env uninit p_path b0 b1 b2 b3 rest :
  file_open env p_path = (OK, Some (b0 :: b1 :: b2 :: b3 :: rest)) ->
  recognize env uninit p_path
  = classify_header env p_path (b0 :: b1 :: b2 :: b3 :: drop 4 uninit).
Proof.
  intros Hopen. unfold recognize. rewrite Hopen.
  cbn [Error_eqb negb]. rewrite header_of_file. reflexivity.
Qed.

(** C6.  On a file that opens and holds at least four bytes, [recognize]
    maps the magics GDST, GD3T and GDAT to the three legacy stream
    variants, GSTL to the v4 3D or layered variant and GST2 to the v4 2D
    variant; in each case the only operation on the file is the 4-byte
    header read and the probe is not called.  Every other leading 4-byte
    sequence that is not RSRC or RSCC returns the "not a texture" sentinel
    with [ERR_FILE_UNRECOGNIZED]. *)
Theorem recognize_magics (env : Env) (uninit : list byte) (p_path : string)
  (b0 b1 b2 b3 : byte) (rest : list byte) :
  file_open env p_path = (OK, Some (b0 :: b1 :: b2 :: b3 :: rest)) ->
  let m := [b0; b1; b2; b3] in
  let direct v := Some (mkRecognition v OK [EvGetBuffer 4] false) in
  (m = magic "GDST" ->
   recognize env uninit p_path = direct FORMAT_V3_STREAM_TEXTURE2D)
  /\ (m = magic "GD3T" ->
      recognize env uninit p_path = direct FORMAT_V3_STREAM_TEXTURE3D)
  /\ (m = magic "GDAT" ->
      recognize env uninit p_path = direct FORMAT_V3_STREAM_TEXTUREARRAY)
  /\ (m = magic "GSTL" ->
      recognize env uninit p_path = direct FORMAT_V4_COMPRESSED_TEXTURE3D
      \/ recognize env uninit p_path
         = direct FORMAT_V4_COMPRESSED_TEXTURELAYERED)
  /\ (m = magic "GST2" ->
      recognize env uninit p_path = direct FORMAT_V4_COMPRESSED_TEXTURE2D)
  /\ (m <> magic "GDST" -> m <> magic "GD3T" -> m <> magic "GDAT" ->
      m <> magic "GSTL" -> m <> magic "GST2" ->
      m <> magic "RSRC" -> m <> magic "RSCC" ->
      recognize env uninit p_path
      = Some (mkRecognition FORMAT_NOT_TEXTURE ERR_FILE_UNRECOGNIZED
                [EvGetBuffer 4] false)).
Proof.
  intros Hopen m direct. subst m direct.
  rewrite (recognize_opened _ _ _ _ _ _ _ _ Hopen).
  unfold classify_header.
  repeat split.
  - intros H. injection H as -> -> -> ->. reflexivity.
  - intros H. injection H as -> -> -> ->. reflexivity.
  - intros H. injection H as -> -> -> ->. reflexivity.
  - intros H. injection H as -> -> -> ->.
    cbn [header_is byte_of_ascii Byte.eqb andb].
    destruct (is_layered_extension (get_extension p_path)); auto.
  - intros H. injection H as -> -> -> ->. reflexivity.
  - intros H1 H2 H3 H4 H5 H6 H7.
    rewrite !header_is_false by assumption. reflexivity.
Qed.

Lemma recognize_magics_witness :
  let env := Sample.env [("a.stex", magic "GDST" ++ [x01]);
                         ("b.bin", magic "ABCD")] [] in
  recognize env [] "a.stex"
  = Some (mkRecognition FORMAT_V3_STREAM_TEXTURE2D OK [EvGetBuffer 4] false)
  /\ recognize env [] "b.bin"
     = Some (mkRecognition FORMAT_NOT_TEXTURE ERR_FILE_UNRECOGNIZED
               [EvGetBuffer 4] false).
Proof.
  intros env. split.
  - apply (recognize_magics env [] "a.stex" "G" "D" "S" "T" [x01] eq_refl).
    reflexivity.
  - apply (recognize_magics env [] "b.bin" "A" "B" "C" "D" [] eq_refl);
      discriminate.
Defined.

(** The recogniser on a key-value container: everything is decided by the
    probe's answer. *)
Lemma recognize_binary env uninit p_path b0 b1 b2 b3 rest perr i_info :
  file_open env p_path = (OK, Some (b0 :: b1 :: b2 :: b3 :: rest)) ->
  [b0; b1; b2; b3] = magic "RSRC" \/ [b0; b1; b2; b3] = magic "RSCC" ->
  binary_get_resource_info env p_path = (perr, i_info) ->
  recognize env uninit p_path
  = if negb (Error_eqb perr ERR_PRINTER_ON_FIRE) && negb (Error_eqb perr OK)
    then Some (mkRecognition FORMAT_NOT_TEXTURE perr [EvGetBuffer 4] true)
    else
      match i_info with
      | None => None
      | Some info =>
          match binary_variant info with
          | Some v => Some (mkRecognition v OK [EvGetBuffer 4] true)
          | None =>
              Some (mkRecognition FORMAT_NOT_TEXTURE ERR_FILE_UNRECOGNIZED
                      [EvGetBuffer 4] true)
          end
      end.
Proof.
  intros Hopen Hmagic Hprobe.
  rewrite (recognize_opened _ _ _ _ _ _ _ _ Hopen).
  unfold classify_header. rewrite Hprobe.
  destruct Hmagic as [H | H]; injection H as -> -> -> ->; reflexivity.
Qed.

Lemma probe_accepted perr :
  perr = OK \/ perr = ERR_PRINTER_ON_FIRE ->
  negb (Error_eqb perr ERR_PRINTER_ON_FIRE) && negb (Error_eqb perr OK)
  = false.
Proof. intros [-> | ->]; reflexivity. Qed.

Lemma probe_rejected perr :
  perr <> OK -> perr <> ERR_PRINTER_ON_FIRE ->
  negb (Error_eqb perr ERR_PRINTER_ON_FIRE) && negb (Error_eqb perr OK)
  = true.
Proof.
  intros H1 H2. apply andb_true_iff. split; apply negb_true_iff;
    apply not_true_is_false; rewrite Error_eqb_eq; assumption.
Qed.

(** C8.  For a key-value container (magic RSRC or RSCC) whose probed type
    name is "AtlasTexture": when the probe reports success or the
    missing-metadata condition [ERR_PRINTER_ON_FIRE], recognition succeeds
    with [*r_err = OK] and the variant is the legacy-2 atlas for major
    version 1 or 2, the legacy-3 atlas for version 3 and the legacy-4 atlas
    for every other version; any other probe error makes [recognize] return
    the sentinel with that error left in [*r_err]. *)
Theorem recognize_atlas (env : Env) (uninit : list byte) (p_path : string)
  (b0 b1 b2 b3 : byte) (rest : list byte) (perr : Error)
  (i_info : option ResourceInfo) :
  file_open env p_path = (OK, Some (b0 :: b1 :: b2 :: b3 :: rest)) ->
  [b0; b1; b2; b3] = magic "RSRC" \/ [b0; b1; b2; b3] = magic "RSCC" ->
  binary_get_resource_info env p_path = (perr, i_info) ->
  (forall info,
      perr = OK \/ perr = ERR_PRINTER_ON_FIRE ->
      i_info = Some info -> type info = "AtlasTexture" ->
      let found v :=
        recognize env uninit p_path
        = Some (mkRecognition v OK [EvGetBuffer 4] true) in
      (ver_major info = 1 \/ ver_major info = 2 ->
       found FORMAT_V2_ATLAS_TEXTURE)
      /\ (ver_major info = 3 -> found FORMAT_V3_ATLAS_TEXTURE)
      /\ (ver_major info <> 1 -> ver_major info <> 2 ->
          ver_major info <> 3 -> found FORMAT_V4_ATLAS_TEXTURE))
  /\ (perr <> OK -> perr <> ERR_PRINTER_ON_FIRE ->
      recognize env uninit p_path
      = Some (mkRecognition FORMAT_NOT_TEXTURE perr [EvGetBuffer 4] true)).
Proof.
  intros Hopen Hmagic Hprobe.
  rewrite (recognize_binary _ _ _ _ _ _ _ _ _ _ Hopen Hmagic Hprobe).
  split.
  - intros info Hok -> Hty found. subst found.
    rewrite (probe_accepted _ Hok).
    unfold binary_variant, atlas_variant. rewrite Hty. cbn [String.eqb].
    change (("AtlasTexture" =? "Texture")%string) with false.
    change (("AtlasTexture" =? "ImageTexture")%string) with false.
    change (("AtlasTexture" =? "AtlasTexture")%string) with true.
    cbn iota.
    repeat split.
    + intros [-> | ->]; reflexivity.
    + intros ->; reflexivity.
    + intros H1 H2 H3.
      destruct (Z.eqb_spec (ver_major info) 1); [contradiction|].
      destruct (Z.eqb_spec (ver_major info) 2); [contradiction|].
      destruct (Z.eqb_spec (ver_major info) 3); [contradiction|].
      reflexivity.
  - intros H1 H2. rewrite (probe_rejected _ H1 H2). reflexivity.
Qed.

Lemma recognize_atlas_witness :
  let atlas v := mkInfo v "AtlasTexture" "" "" "" ∅ in
  let env :=
    Sample.env [("a.atex", magic "RSRC"); ("b.atex", magic "RSCC");
                ("c.atex", magic "RSRC")]
      [("a.atex", (ERR_PRINTER_ON_FIRE, Some (atlas 5)));
       ("b.atex", (OK, Some (atlas 2)));
       ("c.atex", (ERR_FILE_CORRUPT, None))] in
  recognize env [] "a.atex"
  = Some (mkRecognition FORMAT_V4_ATLAS_TEXTURE OK [EvGetBuffer 4] true)
  /\ recognize env [] "b.atex"
     = Some (mkRecognition FORMAT_V2_ATLAS_TEXTURE OK [EvGetBuffer 4] true)
  /\ recognize env [] "c.atex"
     = Some (mkRecognition FORMAT_NOT_TEXTURE ERR_FILE_CORRUPT
               [EvGetBuffer 4] true).
Proof.
  intros atlas env. split; [|split].
  - refine (proj2 (proj2 (proj1
      (recognize_atlas env [] "a.atex" "R" "S" "R" "C" []
         ERR_PRINTER_ON_FIRE (Some (atlas 5)) eq_refl (or_introl eq_refl)
         eq_refl)
      (atlas 5) (or_intror eq_refl) eq_refl eq_refl)) _ _ _);
      discriminate.
  - refine (proj1 (proj1
      (recognize_atlas env [] "b.atex" "R" "S" "C" "C" []
         OK (Some (atlas 2)) eq_refl (or_intror eq_refl) eq_refl)
      (atlas 2) (or_introl eq_refl) eq_refl eq_refl) (or_intror eq_refl)).
  - refine (proj2
      (recognize_atlas env [] "c.atex" "R" "S" "R" "C" []
         ERR_FILE_CORRUPT None eq_refl (or_introl eq_refl) eq_refl) _ _);
      discriminate.
Defined.

(** C10.  A key-value container whose probed type name is "Texture" is
    classified as the legacy-2 plain texture whatever major version the
    probe reports, and that variant's major version is 2. *)
Theorem recognize_texture_is_v2 (env : Env) (uninit : list byte)
  (p_path : string) (b0 b1 b2 b3 : byte) (rest : list byte) (perr : Error)
  (info : ResourceInfo) :
  file_open env p_path = (OK, Some (b0 :: b1 :: b2 :: b3 :: rest)) ->
  [b0; b1; b2; b3] = magic "RSRC" \/ [b0; b1; b2; b3] = magic "RSCC" ->
  binary_get_resource_info env p_path = (perr, Some info) ->
  perr = OK \/ perr = ERR_PRINTER_ON_FIRE ->
  type info = "Texture" ->
  recognize env uninit p_path
  = Some (mkRecognition FORMAT_V2_TEXTURE OK [EvGetBuffer 4] true)
  /\ get_ver_major_from_textype FORMAT_V2_TEXTURE = 2.
Proof.
  intros Hopen Hmagic Hprobe Hok Hty.
  rewrite (recognize_binary _ _ _ _ _ _ _ _ _ _ Hopen Hmagic Hprobe).
  rewrite (probe_accepted _ Hok).
  unfold binary_variant. rewrite Hty. split; reflexivity.
Qed.

Lemma recognize_texture_is_v2_witness :
  let info := mkInfo 4 "Texture" "" "" "" ∅ in
  let env := Sample.env [("a.tex", magic "RSRC")] [("a.tex", (OK, Some info))] in
  recognize env [] "a.tex"
  = Some (mkRecognition FORMAT_V2_TEXTURE OK [EvGetBuffer 4] true)
  /\ get_ver_major_from_textype FORMAT_V2_TEXTURE = 2.
Proof.
  intros info env.
  exact (recognize_texture_is_v2 env [] "a.tex" "R" "S" "R" "C" [] OK info
           eq_refl (or_introl eq_refl) eq_refl (or_introl eq_refl) eq_refl).
Defined.


(** ** Stepping through reads *)

(** Case analysis on the first step of a bind in hypothesis [H]. *)
Ltac io_step H :=
  unfold io_bind at 1 in H;
  match type of H with
  | (let (_, _) := ?m in _) = _ =>
      let E := fresh "E" in
      destruct m as [[?|? ?|] ?] eqn:E; try discriminate H
  end.

Lemma bind_get_position {B} (k : Z -> io B) f :
  io_bind get_position k f = k (f_pos f) f.
Proof. reflexivity. Qed.

Lemma bind_seek {B} p (k : unit -> io B) f :
  io_bind (seek p) k f
  = k tt (mkFile (f_data f) (u64 p) (f_log f ++ [EvSeek (u64 p)])).
Proof. reflexivity. Qed.

Lemma bind_get_16 {B} data pos log a b rest (k : Z -> io B) :
  drop (Z.to_nat pos) data = a :: b :: rest ->
  io_bind get_16 k (mkFile data pos log)
  = k (le_value [a; b]) (mkFile data (pos + 2) (log ++ [EvGet16])).
Proof.
  intros H. unfold io_bind, get_16, peek, advance. simpl. rewrite H.
  reflexivity.
Qed.

Lemma bind_get_32 {B} data pos log a b c d rest (k : Z -> io B) :
  drop (Z.to_nat pos) data = a :: b :: c :: d :: rest ->
  io_bind get_32 k (mkFile data pos log)
  = k (le_value [a; b; c; d]) (mkFile data (pos + 4) (log ++ [EvGet32])).
Proof.
  intros H. unfold io_bind, get_32, peek, advance. simpl. rewrite H.
  reflexivity.
Qed.

Lemma bind_get_buffer_4 {B} data pos log a b c d rest
  (k : list byte -> io B) :
  drop (Z.to_nat pos) data = a :: b :: c :: d :: rest ->
  io_bind (get_buffer 4) k (mkFile data pos log)
  = k [a; b; c; d] (mkFile data (pos + 4) (log ++ [EvGetBuffer 4])).
Proof.
  intros H. unfold io_bind, get_buffer, peek, advance. simpl. rewrite H.
  reflexivity.
Qed.

Section DecoderProperties.
Context {api : ImageApi}.

Lemma load_layers_length n : forall i st f out f',
  load_layers n i st f = (Ret out, f') ->
  length (r_data out) = (length (r_data st) + n)%nat
  /\ r_depth out = r_depth st.
Proof.
  induction n as [|n IH]; intros i st f out f' H; simpl in H.
  - injection H as <- _. split; [lia | reflexivity].
  - io_step H. io_step H.
    match type of H with
    | match ?o with _ => _ end _ = _ => destruct o as [img|]
    end; try discriminate.
    destruct (is_empty img); try discriminate.
    apply IH in H. destruct H as [H1 H2].
    destruct (i =? 0); simpl in H1, H2; rewrite H1, H2, ?length_app;
      simpl; split; try lia; reflexivity.
Qed.

(** The layered decoder's header on a well-formed file that is not too
    new: eight words are read and the image loop starts at offset 36. *)
Lemma layered_header_run uninit p_path init
  version depth ty n1 n2 mipmaps i1 i2 body :
  let data := gstl_file version depth ty n1 n2 mipmaps i1 i2 body in
  (1 <? word_value version) = false ->
  ctexlayered_v4_body uninit p_path init (open_bytes data)
  = load_layers
      (Z.to_nat (layer_limit (is_layered_extension (get_extension p_path))
                   (to_int (word_value depth))
                   (to_int (word_value mipmaps))))
      0
      (mkCtexLayered [] (r_format init) (r_width init) (r_height init)
         (to_int (word_value depth)) (to_int (word_value ty))
         (negb (to_int (word_value mipmaps) =? 0)) (r_data_format init))
      (mkFile data 36
         [EvGetBuffer 4; EvGet32; EvGet32; EvGet32; EvGet32; EvGet32;
          EvGet32; EvGet32; EvGet32]).
Proof.
  destruct version as [[[v0 v1] v2] v3], depth as [[[d0 d1] d2] d3],
    ty as [[[t0 t1] t2] t3], n1 as [[[a0 a1] a2] a3],
    n2 as [[[c0 c1] c2] c3], mipmaps as [[[m0 m1] m2] m3],
    i1 as [[[k0 k1] k2] k3], i2 as [[[j0 j1] j2] j3].
  intros data Hv.
  unfold ctexlayered_v4_body, open_bytes.
  erewrite bind_get_buffer_4 by reflexivity.
  change (negb (header_is _ _ _ _ _)) with false. cbv iota.
  erewrite bind_get_32 by reflexivity.
  fold (word_bytes (v0, v1, v2, v3)). fold (word_value (v0, v1, v2, v3)).
  rewrite Hv.
  do 7 (erewrite bind_get_32 by reflexivity).
  reflexivity.
Qed.

End DecoderProperties.

(** The first two reads of every v4 decoder, on any file. *)
Lemma read_magic bytes :
  get_buffer 4 (open_bytes bytes)
  = (Ret (take 4 bytes),
     mkFile bytes (Z.of_nat (length (take 4 bytes))) [EvGetBuffer 4]).
Proof.
  unfold get_buffer, peek, advance, open_bytes. cbn [f_pos f_data f_log].
  rewrite drop_0. reflexivity.
Qed.

Lemma read_version bytes :
  get_32 (mkFile bytes (Z.of_nat (length (take 4 bytes))) [EvGetBuffer 4])
  = (Ret (version_field bytes),
     mkFile bytes
       (Z.of_nat (length (take 4 bytes))
        + Z.of_nat (length (take 4 (drop 4 bytes))))
       [EvGetBuffer 4; EvGet32]).
Proof.
  unfold get_32, peek, advance, version_field. cbn [f_pos f_data f_log].
  rewrite Nat2Z.id.
  assert (Hdrop : drop (length (take 4 bytes)) bytes = drop 4 bytes).
  { destruct (Nat.le_gt_cases 4 (length bytes)) as [Hle | Hgt].
    - rewrite length_take, Nat.min_l by exact Hle. reflexivity.
    - rewrite length_take, Nat.min_r by lia.
      rewrite !drop_ge by lia. reflexivity. }
  rewrite Hdrop. reflexivity.
Qed.

Section V4Properties.
Context {api : ImageApi}.

Lemma ctex2d_too_new tw th L bytes :
  FORMAT_VERSION < version_field bytes ->
  on_handle (ctex2d_v4_body tw th L) bytes
  = (Failed ERR_FILE_CORRUPT "Compressed texture file is too new.",
     [EvGetBuffer 4; EvGet32]).
Proof.
  intros Hv. unfold on_handle, ctex2d_v4_body.
  unfold io_bind at 1. rewrite read_magic. cbv iota beta.
  unfold io_bind at 1. rewrite read_version. cbv iota beta.
  apply Z.ltb_lt in Hv. rewrite Hv. reflexivity.
Qed.

Lemma ctexlayered_too_new uninit p_path init bytes :
  take 4 bytes = magic "GSTL" ->
  1 < version_field bytes ->
  on_handle (ctexlayered_v4_body uninit p_path init) bytes
  = (Failed ERR_FILE_CORRUPT "Stream texture file is too new.",
     [EvGetBuffer 4; EvGet32]).
Proof.
  intros Hm Hv. unfold on_handle, ctexlayered_v4_body.
  unfold io_bind at 1. rewrite read_magic. cbv iota beta.
  replace (fill_header uninit (take 4 bytes))
    with (magic "GSTL" ++ drop 4 uninit) by (rewrite Hm; reflexivity).
  change (negb (header_is _ _ _ _ _)) with false. cbv iota.
  unfold io_bind at 1. rewrite read_version. cbv iota beta.
  apply Z.ltb_lt in Hv. rewrite Hv. reflexivity.
Qed.

(** C5.  A v4 stream file whose version word exceeds the supported maximum
    ([CompressedTexture2D::FORMAT_VERSION] for the 2D decoder, 1 for the
    3D/layered decoder) makes the decoder fail with its "too new" error
    (code [ERR_FILE_CORRUPT]) right after the version word: the only
    operations on the file are the 4-byte magic read and the version
    read. *)
Theorem v4_too_new_fails_at_version (env : Env) (uninit : list byte)
  (p_path : string) (e : Error) (bytes : list byte) :
  file_open env p_path = (e, Some bytes) ->
  (forall tw th p_size_limit,
      FORMAT_VERSION < version_field bytes ->
      _load_data_ctex2d_v4 env p_path tw th p_size_limit
      = (Failed ERR_FILE_CORRUPT "Compressed texture file is too new.",
         [EvGetBuffer 4; EvGet32]))
  /\ (forall init,
         take 4 bytes = magic "GSTL" ->
         1 < version_field bytes ->
         _load_data_ctexlayered_v4 env uninit p_path init
         = (Failed ERR_FILE_CORRUPT "Stream texture file is too new.",
            [EvGetBuffer 4; EvGet32])).
Proof.
  intros Hopen. split.
  - intros tw th L Hv. unfold _load_data_ctex2d_v4. rewrite Hopen.
    apply ctex2d_too_new, Hv.
  - intros init Hm Hv. unfold _load_data_ctexlayered_v4. rewrite Hopen.
    apply ctexlayered_too_new; assumption.
Qed.

(** The recogniser's choice within the GSTL family. *)
Lemma recognize_gstl env uninit p_path rest :
  file_open env p_path = (OK, Some (magic "GSTL" ++ rest)) ->
  recognize env uninit p_path
  = Some (mkRecognition
            (if is_layered_extension (get_extension p_path)
             then FORMAT_V4_COMPRESSED_TEXTURELAYERED
             else FORMAT_V4_COMPRESSED_TEXTURE3D)
            OK [EvGetBuffer 4] false).
Proof.
  intros Hopen.
  rewrite (recognize_opened _ _ _ "G" "S" "T" "L" rest Hopen).
  unfold classify_header. cbn [header_is byte_of_ascii Byte.eqb andb].
  destruct (is_layered_extension (get_extension p_path)); reflexivity.
Qed.

(** The number of images the layered decoder returns on success. *)
Lemma ctexlayered_image_count env uninit p_path init e
  version depth ty n1 n2 mipmaps i1 i2 body out log :
  file_open env p_path
  = (e, Some (gstl_file version depth ty n1 n2 mipmaps i1 i2 body)) ->
  _load_data_ctexlayered_v4 env uninit p_path init = (Ret out, log) ->
  length (r_data out)
  = Z.to_nat (layer_limit (is_layered_extension (get_extension p_path))
                (to_int (word_value depth)) (to_int (word_value mipmaps))).
Proof.
  intros Hopen H. unfold _load_data_ctexlayered_v4 in H.
  rewrite Hopen in H. unfold on_handle in H.
  destruct (1 <? word_value version) eqn:Hv.
  - apply Z.ltb_lt in Hv.
    pose proof (ctexlayered_too_new uninit p_path init
                  (gstl_file version depth ty n1 n2 mipmaps i1 i2 body)
                  eq_refl) as Hnew.
    unfold on_handle in Hnew.
    destruct version as [[[v0 v1] v2] v3].
    specialize (Hnew Hv).
    destruct (ctexlayered_v4_body _ _ _ _) as [r f]. congruence.
  - rewrite (layered_header_run _ _ _ _ _ _ _ _ _ _ _ _ Hv) in H.
    destruct (load_layers _ _ _ _) as [r f] eqn:Hrun.
    injection H as -> _.
    apply load_layers_length in Hrun. destruct Hrun as [Hlen _].
    rewrite Hlen. reflexivity.
Qed.

(** C7, as the code has it.  Within the GSTL family the recogniser and the
    v4 layered decoder both select the layered shape exactly when the text
    after the last dot of the path is, character for character, one of
    ctexarray, ccube, ccubearray: the recogniser then answers the layered
    variant and the decoder returns [depth] images; for every other
    extension the recogniser answers the 3D variant and the decoder returns
    [depth + mipmaps] images. *)
Theorem gstl_shape_by_exact_extension (env : Env) (uninit : list byte)
  (p_path : string) (init : ctexlayered_out)
  (version depth ty n1 n2 mipmaps i1 i2 : word) (body : list byte) :
  file_open env p_path
  = (OK, Some (gstl_file version depth ty n1 n2 mipmaps i1 i2 body)) ->
  let recognized v :=
    recognize env uninit p_path
    = Some (mkRecognition v OK [EvGetBuffer 4] false) in
  let decoded_images n :=
    forall out log,
      _load_data_ctexlayered_v4 env uninit p_path init = (Ret out, log) ->
      length (r_data out) = Z.to_nat n in
  (exact_layered_extension (get_extension p_path) ->
   recognized FORMAT_V4_COMPRESSED_TEXTURELAYERED
   /\ decoded_images (to_int (word_value depth)))
  /\ (~ exact_layered_extension (get_extension p_path) ->
      recognized FORMAT_V4_COMPRESSED_TEXTURE3D
      /\ decoded_images
           (to_int (to_int (word_value depth) + to_int (word_value mipmaps)))).
Proof.
  intros Hopen recognized decoded_images. subst recognized decoded_images.
  pose proof (recognize_gstl env uninit p_path _ Hopen) as Hrec.
  split; intros Hext.
  - apply is_layered_extension_true in Hext.
    rewrite Hext in Hrec. split; [exact Hrec|].
    intros out log H.
    rewrite (ctexlayered_image_count _ _ _ _ _ _ _ _ _ _ _ _ _ _ _ _
               Hopen H), Hext.
    reflexivity.
  - assert (Hf : is_layered_extension (get_extension p_path) = false).
    { apply not_true_is_false. rewrite is_layered_extension_true.
      exact Hext. }
    rewrite Hf in Hrec. split; [exact Hrec|].
    intros out log H.
    rewrite (ctexlayered_image_count _ _ _ _ _ _ _ _ _ _ _ _ _ _ _ _
               Hopen H), Hf.
    reflexivity.
Qed.

End V4Properties.

Lemma v4_too_new_fails_at_version_witness :
  let env :=
    Sample.env [("a.ctex", magic "GST2" ++ Sample.le32 2 ++ [x00]);
                ("b.ctex3d", magic "GSTL" ++ Sample.le32 2)] [] in
  let init := mkCtexLayered [] 0 0 0 0 0 false 0 in
  _load_data_ctex2d_v4 (api := Sample.api) env "a.ctex" 0 0 0
  = (Failed ERR_FILE_CORRUPT "Compressed texture file is too new.",
     [EvGetBuffer 4; EvGet32])
  /\ _load_data_ctexlayered_v4 (api := Sample.api) env [] "b.ctex3d" init
     = (Failed ERR_FILE_CORRUPT "Stream texture file is too new.",
        [EvGetBuffer 4; EvGet32]).
Proof.
  intros env init. split.
  - apply (proj1 (v4_too_new_fails_at_version (api := Sample.api) env [] "a.ctex" OK
                    (magic "GST2" ++ Sample.le32 2 ++ [x00]) eq_refl)).
    reflexivity.
  - apply (proj2 (v4_too_new_fails_at_version (api := Sample.api) env [] "b.ctex3d" OK
                    (magic "GSTL" ++ Sample.le32 2) eq_refl)).
    + reflexivity.
    + reflexivity.
Defined.

(** C7 as stated fails: a GSTL file named with the upper-case extension
    CTEXARRAY matches the set case-insensitively, yet the recogniser answers
    the plain 3D variant and the decoder reads [depth + mipmaps = 2] images
    rather than [depth = 1]. *)
Lemma uppercase_extension_selects_3d :
  let one : word := (x01, x00, x00, x00) in
  let zero : word := (x00, x00, x00, x00) in
  let file := gstl_file one one zero zero zero one zero zero [x07; x08] in
  let p_path := "res://tex.CTEXARRAY" in
  let env := Sample.env [(p_path, file)] [] in
  let init := mkCtexLayered [] 0 0 0 0 0 false 0 in
  spec_layered_extension (get_extension p_path) = true
  /\ recognize env [] p_path
     = Some (mkRecognition FORMAT_V4_COMPRESSED_TEXTURE3D OK
               [EvGetBuffer 4] false)
  /\ match fst (_load_data_ctexlayered_v4 (api := Sample.api) env [] p_path init) with
     | Ret out => length (r_data out) = 2%nat /\ r_depth out = 1
     | _ => False
     end.
Proof. vm_compute. auto. Qed.

Lemma gstl_shape_by_exact_extension_witness :
  let one : word := (x01, x00, x00, x00) in
  let zero : word := (x00, x00, x00, x00) in
  let file := gstl_file one one zero zero zero one zero zero [x07; x08] in
  let env := Sample.env [("a.ccube", file); ("a.CCUBE", file)] [] in
  recognize env [] "a.ccube"
  = Some (mkRecognition FORMAT_V4_COMPRESSED_TEXTURELAYERED OK
            [EvGetBuffer 4] false)
  /\ recognize env [] "a.CCUBE"
     = Some (mkRecognition FORMAT_V4_COMPRESSED_TEXTURE3D OK
               [EvGetBuffer 4] false).
Proof.
  intros one zero file env.
  pose (init := mkCtexLayered [] 0 0 0 0 0 false 0).
  split.
  - refine (proj1 (proj1
      (gstl_shape_by_exact_extension (api := Sample.api) env [] "a.ccube" init
         one one zero zero zero one zero zero [x07; x08] eq_refl) _)).
    right. left. reflexivity.
  - refine (proj1 (proj2
      (gstl_shape_by_exact_extension (api := Sample.api) env [] "a.CCUBE" init
         one one zero zero zero one zero zero [x07; x08] eq_refl) _)).
    intros [H | [H | H]]; discriminate H.
Defined.

(** ** Metadata merge *)

Lemma merge_resource_info_precedence new_dict texture_dict int_flags :
  placeholder_precedence new_dict texture_dict int_flags
    (merge_resource_info new_dict texture_dict int_flags).
Proof.
  unfold placeholder_precedence, merge_resource_info.
  cbn [ver_major type resource_format original_path extra].
  repeat apply conj; try reflexivity.
  - intros Hne. destruct (original_path new_dict); [contradiction|reflexivity].
  - intros ->. reflexivity.
  - destruct (extra texture_dict !! "texture_flags") as [fl|];
      destruct (extra texture_dict !! "data_format") as [df|]; cbn [default];
      rewrite ?(lookup_insert_ne _ "data_format" "texture_flags") by done;
      apply lookup_insert_eq.
  - destruct (extra texture_dict !! "texture_flags") as [fl|];
      destruct (extra texture_dict !! "data_format") as [df|];
      rewrite ?lookup_insert_eq; try reflexivity;
      apply lookup_insert_ne; done.
  - intros k Hk1 Hk2.
    destruct (extra texture_dict !! "texture_flags") as [fl|];
      destruct (extra texture_dict !! "data_format") as [df|];
      rewrite ?(lookup_insert_ne _ "data_format" k) by done;
      apply lookup_insert_ne; done.
Qed.

(** C9, as the code has it.  In both converter invocations the merge is
    called with the decode-produced record first and the placeholder's
    record second, and the merged record obeys [placeholder_precedence]:
    major version, type and resource format are the placeholder's; the
    decode-produced original path is kept unless empty; "texture_flags" is
    the placeholder's entry, or the caller's flags when it has none;
    "data_format" is the placeholder's entry when it has one; all other
    entries are those of the decode-produced record. *)
Theorem converters_merge_precedence (decoded placeholder : ResourceInfo)
  (flags : Z) (res_path : string) (ver_major : Z) :
  placeholder_precedence decoded placeholder flags
    (texture2d_converted_info (Some decoded) placeholder flags)
  /\ placeholder_precedence
       (_get_resource_info res_path (image_texture_stamp ver_major))
       placeholder flags
       (image_texture_converted_info res_path ver_major placeholder flags).
Proof.
  split; apply merge_resource_info_precedence.
Qed.

(** C9 as stated fails: the decode attached a version-4
    "CompressedTexture2D" record, the placeholder carries version 3 and
    type "Texture"; the merged record reports the placeholder's version and
    type, not the decode-provided ones, and the placeholder's auxiliary
    entry "importer" is not carried over. *)
Lemma merge_prefers_placeholder_version :
  let decoded :=
    mkInfo 4 "CompressedTexture2D" "Texture" "res://a.stex" ""
      (<["data_format" := VInt 5]> (<["texture_flags" := VInt 7]> ∅)) in
  let placeholder :=
    mkInfo 3 "Texture" "binary" "res://icon.png" ""
      (<["importer" := VString "texture"]> ∅) in
  let merged := texture2d_converted_info (Some decoded) placeholder 0 in
  ver_major merged = 3
  /\ ver_major merged <> ver_major decoded
  /\ type merged = "Texture"
  /\ type merged <> type decoded
  /\ extra placeholder !! "importer" = Some (VString "texture")
  /\ extra merged !! "importer" = None.
Proof.
  cbv zeta. repeat apply conj; try reflexivity; try discriminate.
Qed.

(** ** The raw mipmapped read *)

Section RawProperties.
Context {api : ImageApi}.

(** On exit of the size-limit loop its condition is false. *)
Lemma skip_raw_levels_exit n : forall L sw sh m idx sw' sh' m' idx',
  (Z.to_nat (m - 1) <= n)%nat ->
  skip_raw_levels n L sw sh m idx = (sw', sh', m', idx') ->
  m' <= 1 \/ L <= 0 \/ (sw' <= L /\ sh' <= L).
Proof.
  induction n as [|n IH]; intros L sw sh m idx sw' sh' m' idx' Hn H;
    simpl in H.
  - injection H as <- <- <- <-. left. lia.
  - destruct ((1 <? m) && (0 <? L) && ((L <? sw) || (L <? sh))) eqn:Hc.
    + apply IH in H; [exact H | lia].
    + injection H as <- <- <- <-.
      apply andb_false_iff in Hc. destruct Hc as [Hc | Hc].
      * apply andb_false_iff in Hc. destruct Hc as [Hc | Hc].
        -- left. apply Z.ltb_ge in Hc. exact Hc.
        -- right. left. apply Z.ltb_ge in Hc. exact Hc.
      * apply orb_false_iff in Hc. destruct Hc as [H1 H2].
        apply Z.ltb_ge in H1, H2. right. right. lia.
Qed.

(** Each skipped level halves both edges and moves the first kept level
    one further. *)
Lemma skip_raw_levels_shape n : forall L sw sh m idx sw' sh' m' idx',
  skip_raw_levels n L sw sh m idx = (sw', sh', m', idx') ->
  exists k : nat,
    idx' = idx + Z.of_nat k /\ m' = m - Z.of_nat k
    /\ sw' = Nat.iter k half sw /\ sh' = Nat.iter k half sh.
Proof.
  induction n as [|n IH]; intros L sw sh m idx sw' sh' m' idx' H;
    simpl in H.
  - injection H as <- <- <- <-. exists 0%nat. simpl.
    repeat split; lia.
  - destruct ((1 <? m) && (0 <? L) && ((L <? sw) || (L <? sh))).
    + apply IH in H. destruct H as (k & -> & -> & -> & ->).
      exists (S k). rewrite !Nat.iter_succ_r.
      repeat split; lia.
    + injection H as <- <- <- <-. exists 0%nat. simpl.
      repeat split; lia.
Qed.

(** The raw mipmapped branch is reached when the data-format word has
    neither codec bit, names a convertible format and has the mipmap
    bit. *)
Lemma load_raw_mipmapped tw th tw_custom th_custom flags L df image format f :
  has_bit df FORMAT_BIT_PNG = false ->
  has_bit df FORMAT_BIT_WEBP = false ->
  has_bit df FORMAT_BIT_HAS_MIPMAPS = true ->
  convert_image_format_enum_v3_to_v4 (Z.land df FORMAT_MASK_IMAGE_FORMAT)
  = format ->
  format <> FORMAT_MAX ->
  load_image_from_fileV3 tw th tw_custom th_custom flags L df image f
  = io_bind (read_raw_mipmaps tw th L format image) (finish format) f.
Proof.
  intros Hpng Hwebp Hmip Hfmt Hmax. unfold load_image_from_fileV3.
  rewrite Hpng, Hwebp, Hmip, Hfmt. cbn [orb negb].
  apply Z.eqb_neq in Hmax. rewrite Hmax. reflexivity.
Qed.

(** The read itself, once the plan is known. *)
Lemma read_raw_mipmaps_run tw th L format image f sw sh m idx :
  raw_plan tw th L format = (sw, sh, m, idx) ->
  let ofs := get_image_mipmap_offset tw th format idx in
  let expected := get_image_data_size tw th format true - ofs in
  let target := u64 (f_pos f + ofs) in
  let rd := take (Z.to_nat expected) (bytes_from f target) in
  let f' :=
    mkFile (f_data f) (target + Z.of_nat (length rd))
      (f_log f ++ [EvSeek target; EvGetBuffer expected]) in
  0 < expected ->
  read_raw_mipmaps tw th L format image f
  = if negb (Z.of_nat (length rd) =? expected)
    then (Failed ERR_FILE_CORRUPT "", f')
    else initialize_ref image sw sh true format rd f'.
Proof.
  intros Hplan ofs expected target rd f' Hpos.
  unfold read_raw_mipmaps. unfold raw_plan in Hplan. rewrite Hplan.
  fold ofs. fold expected.
  destruct (expected <=? 0) eqn:He; [apply Z.leb_le in He; lia|].
  rewrite bind_get_position, bind_seek. fold target.
  unfold io_bind, get_buffer, peek, advance. cbn [f_pos f_data f_log].
  fold (bytes_from f target). fold rd.
  rewrite <- app_assoc. cbn [app]. fold f'.
  destruct (Z.of_nat (length rd) =? expected) eqn:Hlen.
  - cbn [negb].
    destruct (Z.of_nat (length rd) <? expected) eqn:Hlt;
      [apply Z.ltb_lt in Hlt; apply Z.eqb_eq in Hlen; lia|].
    reflexivity.
  - reflexivity.
Qed.

(** A short read in the raw mipmapped branch: the zero-filled buffer is
    dropped and [ERR_FILE_CORRUPT] is returned. *)
Lemma read_raw_mipmaps_short tw th L format image f sw sh m idx :
  raw_plan tw th L format = (sw, sh, m, idx) ->
  let ofs := get_image_mipmap_offset tw th format idx in
  let expected := get_image_data_size tw th format true - ofs in
  0 < expected ->
  Z.of_nat (length (bytes_from f (u64 (f_pos f + ofs)))) < expected ->
  fst (read_raw_mipmaps tw th L format image f) = Failed ERR_FILE_CORRUPT "".
Proof.
  intros Hplan ofs expected Hpos Hshort.
  rewrite (read_raw_mipmaps_run _ _ _ _ _ _ _ _ _ _ Hplan Hpos).
  fold ofs. fold expected.
  set (rd := take (Z.to_nat expected) _).
  assert (Hrd : Z.of_nat (length rd) <> expected).
  { subst rd. rewrite length_take. lia. }
  apply Z.eqb_neq in Hrd. rewrite Hrd. reflexivity.
Qed.

(** C1 fails on the code.  In the raw mipmapped branch of
    [load_image_from_fileV3], when the file holds fewer bytes at the first
    kept level than the computed size [total_size - ofs], the decode
    returns [ERR_FILE_CORRUPT]: the buffer is zero-filled, and then the
    short read is reported as corruption all the same. *)
Theorem raw_shortfall_is_corrupt (tw th tw_custom th_custom flags : Z)
  (p_size_limit df : Z) (image : option Image) (format : Format)
  (f : FileAccess) (sw sh m idx : Z) :
  has_bit df FORMAT_BIT_PNG = false ->
  has_bit df FORMAT_BIT_WEBP = false ->
  has_bit df FORMAT_BIT_HAS_MIPMAPS = true ->
  convert_image_format_enum_v3_to_v4 (Z.land df FORMAT_MASK_IMAGE_FORMAT)
  = format ->
  format <> FORMAT_MAX ->
  raw_plan tw th p_size_limit format = (sw, sh, m, idx) ->
  let ofs := get_image_mipmap_offset tw th format idx in
  let expected := get_image_data_size tw th format true - ofs in
  0 < expected ->
  Z.of_nat (length (bytes_from f (u64 (f_pos f + ofs)))) < expected ->
  fst (load_image_from_fileV3 tw th tw_custom th_custom flags p_size_limit
         df image f)
  = Failed ERR_FILE_CORRUPT "".
Proof.
  intros Hpng Hwebp Hmip Hfmt Hmax Hplan ofs expected Hpos Hshort.
  rewrite (load_raw_mipmapped _ _ _ _ _ _ _ _ _ _ Hpng Hwebp Hmip Hfmt Hmax).
  pose proof (read_raw_mipmaps_short _ _ _ _ image f _ _ _ _ Hplan Hpos Hshort)
    as Hfail.
  unfold io_bind at 1.
  destruct (read_raw_mipmaps _ _ _ _ _ _) as [r f'].
  cbn [fst] in Hfail. subst r. reflexivity.
Qed.

End RawProperties.

Lemma raw_shortfall_is_corrupt_witness :
  let f := mkFile (repeat x01 20) 0 [] in
  Z.of_nat (length (bytes_from f 0)) < 21
  /\ fst (load_image_from_fileV3 (api := Sample.api) 4 4 0 0 7 0
            FORMAT_BIT_HAS_MIPMAPS (Some instantiate) f)
     = Failed ERR_FILE_CORRUPT "".
Proof.
  intros f. split; [reflexivity|].
  apply (raw_shortfall_is_corrupt (api := Sample.api) 4 4 0 0 7 0
           FORMAT_BIT_HAS_MIPMAPS (Some instantiate) 0 f 4 4 2 0);
    try reflexivity.
  discriminate.
Defined.

(** The same defect seen from the legacy 2D decoder: a 4x4 one-byte-per-
    pixel file with mipmaps needs 21 body bytes; with 20 the decoder
    reports corruption instead of zero-filling the last byte. *)
Lemma stex2d_short_file_is_corrupt :
  let body := repeat x01 20 in
  let file :=
    gdst_file (x04, x00) (x00, x00) (x04, x00) (x00, x00)
      (x07, x00, x00, x00) (x00, x00, x80, x00) body in
  let env := Sample.env [("b.stex", file)] [] in
  _load_data_stex2d_v3 (api := Sample.api) env "b.stex" None 0
  = (Failed ERR_FILE_CORRUPT "Failed to load image from texture file b.stex",
     [EvGetBuffer 4; EvGet16; EvGet16; EvGet16; EvGet16; EvGet32; EvGet32;
      EvSeek 20; EvGetBuffer 21]).
Proof. vm_compute. reflexivity. Qed.

(** ** The size limit *)

Section LimitProperties.
Context {api : ImageApi}.

(** With no limit the loop skips nothing. *)
Lemma raw_plan_no_limit tw th format :
  raw_plan tw th 0 format
  = (tw, th, get_image_required_mipmaps tw th format, 0).
Proof.
  unfold raw_plan. destruct (Z.to_nat _); simpl.
  - reflexivity.
  - rewrite andb_false_r. reflexivity.
Qed.

(** The legacy 2D decoder overwrites its size limit before decoding. *)
Lemma stex2d_limit_ignored env p_path image L :
  _load_data_stex2d_v3 env p_path image L
  = _load_data_stex2d_v3 env p_path image 0.
Proof. reflexivity. Qed.

(** The condition both size-limit loops test. *)
Lemma skipping_true (L sw sh count : Z) :
  1 < count /\ 0 < L /\ (L < sw \/ L < sh) ->
  (1 <? count) && (0 <? L) && ((L <? sw) || (L <? sh)) = true.
Proof.
  intros (Hc & HL & Hs).
  rewrite !andb_true_iff, orb_true_iff, !Z.ltb_lt. auto.
Qed.

Lemma skipping_false (L sw sh count : Z) :
  count <= 1 \/ L <= 0 \/ (sw <= L /\ sh <= L) ->
  (1 <? count) && (0 <? L) && ((L <? sw) || (L <? sh)) = false.
Proof.
  intros H. apply not_true_is_false. intros Ht.
  rewrite !andb_true_iff, orb_true_iff, !Z.ltb_lt in Ht. lia.
Qed.

(** The raw loop stops at the first level at which its condition fails:
    at every level it skipped, more than one level was left and an edge
    exceeded the limit. *)
Lemma skip_raw_levels_first n : forall L sw sh m idx sw' sh' m' idx',
  skip_raw_levels n L sw sh m idx = (sw', sh', m', idx') ->
  exists k : nat,
    idx' = idx + Z.of_nat k /\ m' = m - Z.of_nat k
    /\ sw' = Nat.iter k half sw /\ sh' = Nat.iter k half sh
    /\ forall j, (j < k)%nat ->
         1 < m - Z.of_nat j
         /\ (L < Nat.iter j half sw \/ L < Nat.iter j half sh).
Proof.
  induction n as [|n IH]; intros L sw sh m idx sw' sh' m' idx' H;
    simpl in H.
  - injection H as <- <- <- <-. exists 0%nat. simpl.
    split; [lia|]. split; [lia|]. split; [reflexivity|].
    split; [reflexivity|]. intros j Hj. lia.
  - destruct ((1 <? m) && (0 <? L) && ((L <? sw) || (L <? sh))) eqn:Hc.
    + apply IH in H. destruct H as (k & -> & -> & -> & -> & Hbefore).
      exists (S k). rewrite !Nat.iter_succ_r.
      split; [lia|]. split; [lia|]. split; [reflexivity|].
      split; [reflexivity|]. intros [|j] Hj.
      * rewrite !andb_true_iff, orb_true_iff, !Z.ltb_lt in Hc.
        simpl. lia.
      * rewrite !Nat.iter_succ_r.
        destruct (Hbefore j ltac:(lia)) as [Hm Hs]. split; [lia | exact Hs].
    + injection H as <- <- <- <-. exists 0%nat. simpl.
      split; [lia|]. split; [lia|]. split; [reflexivity|].
      split; [reflexivity|]. intros j Hj. lia.
Qed.

(** An edge still above 1 after [j] halvings was at least
    [2 ^ (j + 1)]. *)
Lemma half_iter_large (j : nat) : forall x,
  1 < Nat.iter j half x -> 2 ^ (Z.of_nat j + 1) <= x.
Proof.
  induction j as [|j IH]; intros x Hx.
  - simpl in Hx. change (2 ^ (Z.of_nat 0 + 1)) with 2. lia.
  - rewrite Nat.iter_succ_r in Hx. apply IH in Hx.
    assert (Hpow : 2 ^ (Z.of_nat (S j) + 1) = 2 * 2 ^ (Z.of_nat j + 1)).
    { rewrite <- Z.pow_succ_r by lia. f_equal. lia. }
    assert (Hge : 2 <= 2 ^ (Z.of_nat j + 1)).
    { change 2 with (2 ^ 1) at 1. apply Z.pow_le_mono_r; lia. }
    unfold half in Hx. rewrite Z.shiftr_div_pow2 in Hx by lia.
    change (2 ^ 1) with 2 in Hx.
    assert (Hdiv : 2 ^ (Z.of_nat j + 1) <= x / 2) by lia.
    pose proof (Z.div_mod x 2 ltac:(lia)).
    pose proof (Z.mod_pos_bound x 2 ltac:(lia)).
    lia.
Qed.

(** The rounds the codec loop is given are enough: it can skip at most
    as many levels as the larger edge has halvings above 1. *)
Lemma skipped_levels_bounded (L tw th : Z) (k : nat) :
  0 < L ->
  (forall j, (j < k)%nat ->
     L < Nat.iter j half tw \/ L < Nat.iter j half th) ->
  (k <= Z.to_nat (Z.log2 (Z.max tw th)))%nat.
Proof.
  intros HL Hbefore. destruct k as [|k]; [lia|].
  assert (Hbig : 2 ^ (Z.of_nat k + 1) <= Z.max tw th).
  { destruct (Hbefore k ltac:(lia)) as [Hs | Hs];
      [pose proof (half_iter_large k tw ltac:(lia))
      | pose proof (half_iter_large k th ltac:(lia))]; lia. }
  assert (Hpos : 0 < Z.max tw th).
  { pose proof (Z.pow_pos_nonneg 2 (Z.of_nat k + 1) ltac:(lia) ltac:(lia)).
    lia. }
  apply Z.log2_le_pow2 in Hbig; [lia | exact Hpos].
Qed.

(** Two header words read one after the other. *)
Lemma bind_get_32_pair {B} data pos log (m s : word) tail
  (k : Z -> Z -> io B) :
  0 <= pos ->
  drop (Z.to_nat pos) data = word_bytes m ++ word_bytes s ++ tail ->
  io_bind get_32 (fun a => io_bind get_32 (k a)) (mkFile data pos log)
  = k (word_value m) (word_value s)
      (mkFile data (pos + 8) (log ++ [EvGet32; EvGet32])).
Proof.
  intros Hpos H.
  destruct m as [[[a b] c] d], s as [[[a' b'] c'] d'].
  cbn [word_bytes app] in H.
  rewrite (bind_get_32 _ _ _ a b c d _ _ H).
  rewrite (bind_get_32 _ _ _ a' b' c' d' tail).
  - replace (pos + 4 + 4) with (pos + 8) by lia.
    rewrite <- app_assoc. reflexivity.
  - replace (Z.to_nat (pos + 4)) with (Z.to_nat pos + 4)%nat by lia.
    rewrite <- drop_drop, H. reflexivity.
Qed.

Lemma u64_nonneg (z : Z) : 0 <= u64 z.
Proof. unfold u64. apply Z.mod_pos_bound. reflexivity. Qed.

(** The codec loop on a laid-out chain: it seeks over the payload of every
    level it skips, reads the next level's two header words, and stops at
    the first level at which its condition fails. *)
Lemma skip_codec_levels_chain L headers :
  forall n sw sh count size data pos log,
  (length headers <= n)%nat ->
  codec_chain data pos size headers ->
  (forall j, (j < length headers)%nat ->
     1 < chain_count count (take j headers) /\ 0 < L
     /\ (L < Nat.iter j half sw \/ L < Nat.iter j half sh)) ->
  (chain_count count headers <= 1 \/ L <= 0
   \/ (Nat.iter (length headers) half sw <= L
       /\ Nat.iter (length headers) half sh <= L)) ->
  skip_codec_levels n L sw sh count size (mkFile data pos log)
  = (Ret (Nat.iter (length headers) half sw,
          Nat.iter (length headers) half sh,
          chain_count count headers, chain_size size headers),
     mkFile data (chain_pos pos size headers)
       (log ++ chain_log pos size headers)).
Proof.
  induction headers as [|[m s] rest IH];
    intros n sw sh count size data pos log Hn Hchain Hbefore Hexit.
  - cbn [length Nat.iter nat_rect chain_count chain_size chain_pos
           chain_log] in *.
    rewrite app_nil_r.
    destruct n; [reflexivity|]. cbn [skip_codec_levels].
    rewrite (skipping_false _ _ _ _ Hexit). reflexivity.
  - destruct n as [|n]; [simpl in Hn; lia|].
    destruct Hchain as [[tail Hdrop] Hchain].
    cbn [skip_codec_levels].
    rewrite (skipping_true L sw sh count
               (Hbefore 0%nat ltac:(simpl; lia))).
    rewrite bind_get_position, bind_seek.
    cbn [f_pos f_data f_log].
    rewrite (bind_get_32_pair _ _ _ m s tail _ (u64_nonneg _) Hdrop).
    rewrite (IH n (half sw) (half sh) (u32 (word_value m - 1))
               (word_value s) data (u64 (pos + size) + 8)).
    + cbn [length chain_count chain_size chain_pos chain_log].
      rewrite !Nat.iter_succ_r, <- !app_assoc. reflexivity.
    + simpl in Hn. lia.
    + exact Hchain.
    + intros j Hj.
      specialize (Hbefore (S j) ltac:(simpl; lia)).
      cbn [take chain_count] in Hbefore.
      rewrite !Nat.iter_succ_r in Hbefore. exact Hbefore.
    + cbn [length chain_count] in Hexit.
      rewrite !Nat.iter_succ_r in Hexit. exact Hexit.
Qed.

(** C2, as the code has it.  (1) The legacy 2D decoder
    [_load_data_stex2d_v3] sets [p_size_limit = 0] before it decodes, so
    its result does not depend on the requested limit.  The truncation is
    what the shared [load_image_from_fileV3] does when it is called with a
    limit [L > 0].  (2) On a raw mipmapped format it skips [k] levels from
    the top, halving both edges each time, and stops at the first level at
    which both edges are at most [L] or the loop's level counter is down
    to 1: at every skipped level the counter was above 1 and an edge above
    [L].  It seeks over the skipped bytes (one seek to the first kept
    level, one read of the rest) and, when the file holds the bytes and
    the image accepts them, returns the image of the kept width and
    height.  (3) On an embedded-codec format it walks the chain of levels
    with the same test: for every level it skips it seeks over the payload
    and reads the next level's two header words, the level counter being
    the count read less one, and it stops at the first level at which the
    test fails; the rounds it is given always suffice.  The decode then
    continues at the kept level with the counter and payload size read
    last; the halved edges are not used again, and several kept levels
    are combined into an image of the header's full size. *)
Theorem size_limit_truncation (env : Env) (p_path : string)
  (image : option Image)
  (tw th tw_custom th_custom flags L df : Z) (img : Image)
  (format : Format) (f : FileAccess) (sw sh m idx : Z) :
  0 < L ->
  _load_data_stex2d_v3 env p_path image L
  = _load_data_stex2d_v3 env p_path image 0
  /\ (has_bit df FORMAT_BIT_PNG = false ->
      has_bit df FORMAT_BIT_WEBP = false ->
      has_bit df FORMAT_BIT_HAS_MIPMAPS = true ->
      convert_image_format_enum_v3_to_v4 (Z.land df FORMAT_MASK_IMAGE_FORMAT)
      = format ->
      format <> FORMAT_MAX ->
      raw_plan tw th L format = (sw, sh, m, idx) ->
      let ofs := get_image_mipmap_offset tw th format idx in
      let expected := get_image_data_size tw th format true - ofs in
      let target := u64 (f_pos f + ofs) in
      let rd := take (Z.to_nat expected) (bytes_from f target) in
      0 < expected ->
      Z.of_nat (length rd) = expected ->
      is_empty img = true ->
      is_empty (initialize_data img sw sh true format rd) = false ->
      load_image_from_fileV3 tw th tw_custom th_custom flags L df (Some img)
        f
      = (Ret (mkImage sw sh true format rd),
         mkFile (f_data f) (target + expected)
           (f_log f ++ [EvSeek target; EvGetBuffer expected]))
      /\ ((sw <= L /\ sh <= L) \/ m <= 1)
      /\ exists k : nat,
           idx = Z.of_nat k
           /\ m = get_image_required_mipmaps tw th format - Z.of_nat k
           /\ sw = Nat.iter k half tw /\ sh = Nat.iter k half th
           /\ forall j, (j < k)%nat ->
                1 < get_image_required_mipmaps tw th format - Z.of_nat j
                /\ (L < Nat.iter j half tw \/ L < Nat.iter j half th))
  /\ (forall (count size : word) (headers : list (word * word))
        (rest : list byte),
        has_bit df FORMAT_BIT_PNG || has_bit df FORMAT_BIT_WEBP = true ->
        0 <= f_pos f ->
        drop (Z.to_nat (f_pos f)) (f_data f)
        = word_bytes count ++ word_bytes size ++ rest ->
        codec_chain (f_data f) (f_pos f + 8) (word_value size) headers ->
        (forall j, (j < length headers)%nat ->
           1 < chain_count (word_value count) (take j headers)
           /\ (L < Nat.iter j half tw \/ L < Nat.iter j half th)) ->
        (chain_count (word_value count) headers <= 1
         \/ (Nat.iter (length headers) half tw <= L
             /\ Nat.iter (length headers) half th <= L)) ->
        let kept_count := chain_count (word_value count) headers in
        let kept_size := chain_size (word_value size) headers in
        let kept :=
          mkFile (f_data f)
            (chain_pos (f_pos f + 8) (word_value size) headers)
            (f_log f ++ [EvGet32; EvGet32]
             ++ chain_log (f_pos f + 8) (word_value size) headers) in
        skip_codec_levels (Z.to_nat (Z.log2 (Z.max tw th))) L tw th
          (word_value count) (word_value size)
          (mkFile (f_data f) (f_pos f + 8) (f_log f ++ [EvGet32; EvGet32]))
        = (Ret (Nat.iter (length headers) half tw,
                Nat.iter (length headers) half th, kept_count, kept_size),
           kept)
        /\ load_image_from_fileV3 tw th tw_custom th_custom flags L df image
             f
           = (let* (mipmap_images, total_size) :=
                read_codec_levels (Z.to_nat kept_count) 0 df kept_size [] 0 in
              match mipmap_images with
              | [] => fun f => (Crash, f)
              | [only] => finish (get_format only) (Some only)
              | first :: _ =>
                  let* image' :=
                    initialize_ref image tw th true (get_format first)
                      (concat (map get_data mipmap_images)) in
                  finish (get_format first) image'
              end) kept).
Proof.
  intros HL.
  split; [apply stex2d_limit_ignored|].
  split.
  - intros Hpng Hwebp Hmip Hfmt Hmax Hplan ofs expected target rd
      Hpos Hfull Hempty Hinit.
    split.
    + rewrite (load_raw_mipmapped _ _ _ _ _ _ _ _ _ _
                 Hpng Hwebp Hmip Hfmt Hmax).
      unfold io_bind at 1.
      rewrite (read_raw_mipmaps_run _ _ _ _ _ _ _ _ _ _ Hplan Hpos).
      fold ofs. fold expected. fold target. fold rd.
      rewrite Hfull, Z.eqb_refl. cbn [negb initialize_ref io_ret finish].
      destruct (initialize_data_law img sw sh true format rd)
        as [Hsame | Hnew].
      * rewrite Hsame in Hinit. congruence.
      * rewrite Hnew in Hinit |- *. rewrite Hinit. reflexivity.
    + split.
      * unfold raw_plan in Hplan.
        destruct (skip_raw_levels_exit _ _ _ _ _ _ _ _ _ _ (le_n _) Hplan)
          as [Hm | [HL' | Hfit]]; [right; exact Hm | lia | left; exact Hfit].
      * unfold raw_plan in Hplan.
        destruct (skip_raw_levels_first _ _ _ _ _ _ _ _ _ _ Hplan)
          as (k & Hidx & Hm & Hsw & Hsh & Hbefore).
        exists k. split; [lia|]. split; [exact Hm|].
        split; [exact Hsw|]. split; [exact Hsh | exact Hbefore].
  - intros count size headers rest Hbit Hpos Hdrop Hchain Hbefore Hexit
      kept_count kept_size kept.
    assert (Hskip :
      skip_codec_levels (Z.to_nat (Z.log2 (Z.max tw th))) L tw th
        (word_value count) (word_value size)
        (mkFile (f_data f) (f_pos f + 8) (f_log f ++ [EvGet32; EvGet32]))
      = (Ret (Nat.iter (length headers) half tw,
              Nat.iter (length headers) half th, kept_count, kept_size),
         kept)).
    { unfold kept. rewrite app_assoc.
      apply skip_codec_levels_chain.
      - apply (skipped_levels_bounded L tw th _ HL).
        intros j Hj. apply (Hbefore j Hj).
      - exact Hchain.
      - intros j Hj. destruct (Hbefore j Hj) as [Hc Hs]. auto.
      - destruct Hexit as [Hc | Hfit]; auto. }
    split; [exact Hskip|].
    unfold load_image_from_fileV3. rewrite Hbit.
    destruct f as [data pos log]. cbn [f_data f_pos f_log] in *.
    rewrite (bind_get_32_pair _ _ _ count size rest _ Hpos Hdrop).
    unfold io_bind at 1. rewrite Hskip. reflexivity.
Qed.

End LimitProperties.

Lemma size_limit_truncation_witness :
  let body := repeat x01 16 ++ repeat x02 5 in
  let f := mkFile body 0 [] in
  let top := [x04; x04] ++ repeat x01 16 in
  let small := [x02; x02] ++ repeat x02 4 in
  let chain :=
    word_bytes (x02, x00, x00, x00) ++ word_bytes (x12, x00, x00, x00)
    ++ top ++ word_bytes (x02, x00, x00, x00)
    ++ word_bytes (x06, x00, x00, x00) ++ small in
  (load_image_from_fileV3 (api := Sample.api) 4 4 0 0 7 2
     FORMAT_BIT_HAS_MIPMAPS (Some instantiate) f
   = (Ret (mkImage 2 2 true 0 (repeat x02 5)),
      mkFile body 21 [EvSeek 16; EvGetBuffer 5])
   /\ ((2 <= 2 /\ 2 <= 2) \/ 1 <= 1))
  /\ load_image_from_fileV3 (api := Packed.api) 4 4 0 0 7 2 FORMAT_BIT_PNG
       (Some instantiate) (mkFile chain 0 [])
     = (Ret (mkImage 2 2 false 0 (repeat x02 4)),
        mkFile chain 40
          [EvGet32; EvGet32; EvSeek 26; EvGet32; EvGet32; EvGetBuffer 6]).
Proof.
  intros body f top small chain. split.
  - pose proof (size_limit_truncation (api := Sample.api)
                  (Sample.env [] []) "a.stex" None 4 4 0 0 7 2
                  FORMAT_BIT_HAS_MIPMAPS instantiate 0 f 2 2 1 1
                  ltac:(lia)) as (_ & Hraw & _).
    destruct Hraw as (Hrun & Hfit & _); try reflexivity.
    + discriminate.
    + split; [exact Hrun | exact Hfit].
  - pose proof (size_limit_truncation (api := Packed.api)
                  (Sample.env [] []) "a.stex" (Some instantiate) 4 4 0 0 7 2
                  FORMAT_BIT_PNG instantiate 0 (mkFile chain 0 []) 2 2 1 1
                  ltac:(lia)) as (_ & _ & Hcodec).
    destruct (Hcodec (x02, x00, x00, x00) (x12, x00, x00, x00)
                [((x02, x00, x00, x00), (x06, x00, x00, x00))] (top ++
                 word_bytes (x02, x00, x00, x00)
                 ++ word_bytes (x06, x00, x00, x00) ++ small))
      as [_ Hrun].
    + reflexivity.
    + cbn. lia.
    + reflexivity.
    + split; [|exact I]. exists small. reflexivity.
    + intros j Hj. assert (j = 0%nat) by (simpl in Hj; lia). subst j.
      vm_compute. split; [reflexivity | left; reflexivity].
    + left. vm_compute. discriminate.
    + rewrite Hrun. vm_compute. reflexivity.
Defined.

(** C2 as stated fails: asked for a maximum edge of 2 on a 4x4 mipmapped
    file (three levels: 16 + 4 + 1 bytes), the legacy 2D decoder returns
    the full 4x4 image and reads all 21 bytes from the start of the pixel
    data, although the size-limit loop run with limit 2 would keep the 2x2
    level. *)
Lemma stex2d_does_not_truncate :
  let body := repeat x01 16 ++ repeat x02 5 in
  let file :=
    gdst_file (x04, x00) (x00, x00) (x04, x00) (x00, x00)
      (x07, x00, x00, x00) (x00, x00, x80, x00) body in
  let env := Sample.env [("a.stex", file)] [] in
  raw_plan (api := Sample.api) 4 4 2 0 = (2, 2, 1, 1)
  /\ get_image_required_mipmaps (ImageApi := Sample.api) 4 4 0 = 2
  /\ _load_data_stex2d_v3 (api := Sample.api) env "a.stex" None 2
     = (Ret (mkStex2d 4 4 0 0 7 (mkImage 4 4 true 0 body)),
        [EvGetBuffer 4; EvGet16; EvGet16; EvGet16; EvGet16; EvGet32;
         EvGet32; EvSeek 20; EvGetBuffer 21]).
Proof. vm_compute. auto. Qed.

(** ** Single-precision coordinates *)

(** Integers below [2 ^ 24] are held exactly by [real_t]: conversions,
    comparisons, sums and differences on them are those of the integers. *)

Lemma digits2_size p : digits2_pos p = Pos.size p.
Proof. induction p; simpl; congruence. Qed.

Lemma size_bounds p :
  2 ^ (Zpos (Pos.size p) - 1) <= Zpos p < 2 ^ Zpos (Pos.size p).
Proof.
  pose proof (Pos.size_gt p) as Hgt. pose proof (Pos.size_le p) as Hle.
  apply Pos2Z.pos_lt_pos in Hgt. apply Pos2Z.pos_le_pos in Hle.
  rewrite Pos2Z.inj_pow in Hgt, Hle.
  change (Zpos p~0) with (2 * Zpos p) in Hle.
  assert (Hs : 2 ^ Zpos (Pos.size p) = 2 * 2 ^ (Zpos (Pos.size p) - 1)).
  { rewrite <- Z.pow_succ_r by lia. f_equal. lia. }
  generalize dependent (2 ^ (Zpos (Pos.size p) - 1)).
  generalize dependent (2 ^ Zpos (Pos.size p)). intros. lia.
Qed.

Lemma size_log2 p : Zpos (Pos.size p) = Z.log2 (Zpos p) + 1.
Proof.
  pose proof (size_bounds p) as [Hlo Hhi].
  assert (Z.log2 (Zpos p) = Zpos (Pos.size p) - 1); [|lia].
  apply Z.log2_unique; [lia|].
  replace (Z.succ (Zpos (Pos.size p) - 1)) with (Zpos (Pos.size p)) by lia.
  lia.
Qed.

Lemma iter_xO m d : Zpos (Pos.iter xO m d) = Zpos m * 2 ^ Zpos d.
Proof.
  induction d as [|d IH] using Pos.peano_ind.
  - simpl. lia.
  - rewrite Pos.iter_succ, Pos2Z.inj_succ, Z.pow_succ_r by lia.
    change (Zpos (Pos.iter xO m d)~0) with (2 * Zpos (Pos.iter xO m d)).
    rewrite IH. lia.
Qed.

Lemma size_iter_xO m d :
  Zpos (Pos.size (Pos.iter xO m d)) = Zpos (Pos.size m) + Zpos d.
Proof.
  induction d as [|d IH] using Pos.peano_ind.
  - simpl. lia.
  - rewrite Pos.iter_succ. simpl Pos.size. lia.
Qed.

Lemma iter_pos_nat {A} (f : A -> A) p x :
  SpecFloat.iter_pos f p x = Nat.iter (Pos.to_nat p) f x.
Proof.
  revert x. induction p as [p IH|p IH|]; intros x;
    cbn [SpecFloat.iter_pos].
  - rewrite !IH, Pos2Nat.inj_xI, Nat.iter_succ_r.
    replace (2 * Pos.to_nat p)%nat with (Pos.to_nat p + Pos.to_nat p)%nat
      by lia.
    rewrite Nat.iter_add. reflexivity.
  - rewrite !IH, Pos2Nat.inj_xO.
    replace (2 * Pos.to_nat p)%nat with (Pos.to_nat p + Pos.to_nat p)%nat
      by lia.
    rewrite Nat.iter_add. reflexivity.
  - reflexivity.
Qed.

(** Shifting out zero bits is exact. *)
Lemma shr_exact (n : nat) : forall q : Z,
  0 <= q ->
  Nat.iter n shr_1 (Build_shr_record (q * 2 ^ Z.of_nat n) false false)
  = Build_shr_record q false false.
Proof.
  induction n as [|n IH]; intros q Hq.
  - simpl. rewrite Z.mul_1_r. reflexivity.
  - rewrite Nat.iter_succ_r, Nat2Z.inj_succ, Z.pow_succ_r by lia.
    replace (q * (2 * 2 ^ Z.of_nat n)) with (2 * (q * 2 ^ Z.of_nat n)) by lia.
    assert (Hk : 0 <= q * 2 ^ Z.of_nat n) by (apply Z.mul_nonneg_nonneg; lia).
    destruct (q * 2 ^ Z.of_nat n) as [|k|k] eqn:Hval; [| |lia].
    + assert (q = 0).
      { apply Z.mul_eq_0 in Hval. destruct Hval as [H0 | H0]; [exact H0|].
        pose proof (Z.pow_pos_nonneg 2 (Z.of_nat n)). lia. }
      subst q. simpl.
      clear. induction n; simpl; [reflexivity|].
      rewrite IHn. reflexivity.
    + change (shr_1 {| shr_m := 2 * Z.pos k; shr_r := false; shr_s := false |})
        with (Build_shr_record (Zpos k) false false).
      rewrite <- Hval. apply IH, Hq.
Qed.

Lemma shr_pos_exact (p : positive) (q : Z) (e : Z) :
  0 <= q ->
  shr (Build_shr_record (q * 2 ^ Zpos p) false false) e (Zpos p)
  = (Build_shr_record q false false, e + Zpos p).
Proof.
  intros Hq. unfold shr. rewrite iter_pos_nat.
  rewrite <- (positive_nat_Z p) at 1. rewrite shr_exact by exact Hq.
  reflexivity.
Qed.

Lemma fexp_normal x : -125 <= x -> fexp 24 128 x = x - 24.
Proof. intros Hx. unfold fexp, emin. lia. Qed.

Lemma pshift_val n k : 0 <= k -> Zpos (pshift n k) = Zpos n * 2 ^ k.
Proof.
  intros Hk. unfold pshift, Pos.shiftl.
  destruct k as [|k|k]; [simpl; lia | | lia].
  simpl Z.to_N. apply iter_xO.
Qed.

Lemma size_val (M n : positive) (k : Z) :
  0 <= k -> Zpos M = Zpos n * 2 ^ k ->
  Zpos (Pos.size M) = Zpos (Pos.size n) + k.
Proof.
  intros Hk HM. rewrite !size_log2, HM.
  rewrite Z.log2_mul_pow2 by lia. lia.
Qed.

Lemma round_canon (s : bool) (M n : positive) (k : Z) :
  0 <= k -> Zpos M = Zpos n * 2 ^ k -> Zpos (Pos.size n) <= 24 ->
  binary_round 24 128 s M (- k) = canon s n.
Proof.
  intros Hk HM Hd.
  pose proof (size_val M n k Hk HM) as HD.
  set (d := Zpos (Pos.size n)) in *.
  assert (Hd0 : 0 < d) by (subst d; lia).
  unfold binary_round. rewrite digits2_size, HD.
  rewrite fexp_normal by lia.
  replace (d + k + - k - 24) with (d - 24) by lia.
  (* the mantissa and exponent after the two alignments *)
  assert (Haux : forall mz : positive,
             Zpos mz = Zpos n * 2 ^ (24 - d) ->
             binary_round_aux 24 128 s (Zpos mz) (d - 24) loc_Exact
             = canon s n).
  { intros mz Hmz.
    assert (Hsz : Zpos (Pos.size mz) = 24).
    { rewrite (size_val mz n (24 - d)) by (try exact Hmz; lia).
      fold d. lia. }
    unfold binary_round_aux, shr_fexp.
    cbn [Zdigits2 shr_record_of_loc]. rewrite digits2_size, Hsz.
    rewrite fexp_normal by lia.
    replace (24 + (d - 24) - 24 - (d - 24)) with 0 by lia.
    cbn [shr loc_of_shr_record round_nearest_even shr_m].
    cbn [Zdigits2 shr_record_of_loc]. rewrite digits2_size, Hsz.
    rewrite fexp_normal by lia.
    replace (24 + (d - 24) - 24 - (d - 24)) with 0 by lia.
    cbn [shr shr_m].
    destruct (Z.leb_spec (d - 24) (128 - 24)); [|lia].
    unfold canon. fold d. f_equal.
    apply Pos2Z.inj. rewrite Hmz, pshift_val by lia. reflexivity. }
  unfold shl_align.
  destruct (d - 24 - - k) as [|p|p] eqn:Hsh.
  - replace (- k) with (d - 24) by lia.
    apply Haux. rewrite HM. f_equal. f_equal. lia.
  - (* the mantissa is too long: shift right, exactly *)
    unfold binary_round_aux, shr_fexp.
    cbn [Zdigits2 shr_record_of_loc]. rewrite digits2_size, HD.
    rewrite fexp_normal by lia.
    replace (d + k + - k - 24 - - k) with (Zpos p) by lia.
    rewrite HM.
    replace (Zpos n * 2 ^ k) with ((Zpos n * 2 ^ (24 - d)) * 2 ^ Zpos p).
    2:{ rewrite <- Z.mul_assoc, <- Z.pow_add_r by lia. f_equal. f_equal. lia. }
    rewrite shr_pos_exact by (apply Z.mul_nonneg_nonneg; lia).
    cbn [loc_of_shr_record round_nearest_even shr_m].
    replace (- k + Zpos p) with (d - 24) by lia.
    pose proof (pshift_val n (24 - d) ltac:(lia)) as Hps.
    rewrite <- Hps.
    specialize (Haux (pshift n (24 - d)) Hps).
    unfold binary_round_aux in Haux.
    unfold shr_fexp at 1 in Haux.
    cbn [Zdigits2 shr_record_of_loc] in Haux.
    assert (Hsz : Zpos (Pos.size (pshift n (24 - d))) = 24).
    { rewrite (size_val _ n (24 - d)) by (try exact Hps; lia). fold d. lia. }
    rewrite digits2_size, Hsz, fexp_normal in Haux by lia.
    replace (24 + (d - 24) - 24 - (d - 24)) with 0 in Haux by lia.
    cbn [shr loc_of_shr_record round_nearest_even shr_m] in Haux.
    exact Haux.
  - apply Haux. rewrite iter_xO, HM, <- Z.mul_assoc, <- Z.pow_add_r by lia.
    f_equal. f_equal. lia.
Qed.

Lemma real_of_int_pos (n : positive) :
  Zpos (Pos.size n) <= 24 -> real_of_int (Zpos n) = canon false n.
Proof.
  intros Hd. unfold real_of_int, binary_normalize.
  change 0 with (- 0). apply round_canon; [lia | lia | exact Hd].
Qed.

Lemma small_size (n : positive) : Zpos n < 2 ^ 24 -> Zpos (Pos.size n) <= 24.
Proof.
  intros Hn. pose proof (size_bounds n) as [Hlo _].
  destruct (Z.le_gt_cases (Zpos (Pos.size n)) 24) as [H | H]; [exact H|].
  assert (2 ^ 24 <= 2 ^ (Zpos (Pos.size n) - 1))
    by (apply Z.pow_le_mono_r; lia).
  lia.
Qed.

Lemma real_of_int_0 : real_of_int 0 = S754_zero false.
Proof. reflexivity. Qed.

Lemma canon_compare a b :
  Zpos (Pos.size a) <= 24 -> Zpos (Pos.size b) <= 24 ->
  SFcompare (canon false a) (canon false b) = Some (Zpos a ?= Zpos b).
Proof.
  intros Ha Hb. unfold canon, SFcompare. f_equal.
  pose proof (size_bounds a) as [Halo Hahi].
  pose proof (size_bounds b) as [Hblo Hbhi].
  set (da := Zpos (Pos.size a)) in *. set (db := Zpos (Pos.size b)) in *.
  destruct (Z.compare_spec (da - 24) (db - 24)) as [Heq | Hlt | Hgt].
  - assert (Hd : da = db) by lia.
    change (Pos.compare_cont Eq ?x ?y) with (Pos.compare x y).
    rewrite Pos2Z.inj_compare, !pshift_val by lia.
    rewrite Hd.
    assert (Hc : 0 < 2 ^ (24 - db)) by (apply Z.pow_pos_nonneg; lia).
    destruct (Z.compare_spec (Zpos a) (Zpos b));
      [apply Z.compare_eq_iff | apply Z.compare_lt_iff
      | apply Z.compare_gt_iff]; nia.
  - symmetry. apply Z.compare_lt_iff.
    assert (2 ^ da <= 2 ^ (db - 1)) by (apply Z.pow_le_mono_r; lia).
    lia.
  - symmetry. apply Z.compare_gt_iff.
    assert (2 ^ db <= 2 ^ (da - 1)) by (apply Z.pow_le_mono_r; lia).
    lia.
Qed.

(** Right shifts of a nonnegative mantissa. *)
Lemma shr_1_m x : 0 <= shr_m x -> shr_m (shr_1 x) = Z.div2 (shr_m x).
Proof.
  destruct x as [[|[p|p|]|p] r s]; simpl; intros H; try reflexivity; lia.
Qed.

Lemma shr_iter_m (k : nat) x :
  0 <= shr_m x -> shr_m (Nat.iter k shr_1 x) = shr_m x / 2 ^ Z.of_nat k.
Proof.
  intros Hx. induction k as [|k IH].
  - simpl. rewrite Z.div_1_r. reflexivity.
  - rewrite Nat.iter_succ, shr_1_m.
    + rewrite IH, Z.div2_div, Z.div_div, Nat2Z.inj_succ, Z.pow_succ_r by lia.
      f_equal. lia.
    + rewrite IH. apply Z.div_pos; lia.
Qed.

Lemma shr_m_val x e sh :
  0 <= shr_m x -> 0 <= sh ->
  shr_m (fst (shr x e sh)) = shr_m x / 2 ^ sh /\ snd (shr x e sh) = e + sh.
Proof.
  intros Hx Hsh. unfold shr. destruct sh as [|p|p]; [| |lia].
  - simpl. rewrite Z.div_1_r. split; [reflexivity | lia].
  - cbn [fst snd]. rewrite iter_pos_nat, shr_iter_m, positive_nat_Z by lia.
    split; reflexivity.
Qed.

Lemma round_nearest_even_range m l :
  m <= round_nearest_even m l <= m + 1.
Proof.
  unfold round_nearest_even. destruct l as [|[| |]]; try lia.
  destruct (Z.even m); lia.
Qed.

Lemma Zdigits2_log2 m : 0 < m -> Zdigits2 m = Z.log2 m + 1.
Proof.
  destruct m as [|p|p]; try lia. intros _. simpl.
  rewrite digits2_size. apply size_log2.
Qed.

(** The conversion of an integer that needs more than 24 bits: a finite
    float with a positive exponent. *)
Lemma real_of_int_big (n : Z) :
  2 ^ 24 <= n < 2 ^ 63 ->
  exists m e, real_of_int n = S754_finite false m e /\ 1 <= e.
Proof.
  intros [Hlo Hhi]. destruct n as [|n|n]; try lia.
  unfold real_of_int, binary_normalize, binary_round.
  rewrite digits2_size.
  assert (HD : 25 <= Zpos (Pos.size n) <= 63).
  { rewrite size_log2.
    assert (24 <= Z.log2 (Zpos n)) by (apply Z.log2_le_pow2; lia).
    assert (Z.log2 (Zpos n) < 63) by (apply Z.log2_lt_pow2; lia).
    lia. }
  set (D := Zpos (Pos.size n)) in *.
  rewrite Z.add_0_r, fexp_normal by lia.
  unfold shl_align.
  destruct (D - 24 - 0) as [|p|p] eqn:Hp; try lia.
  unfold binary_round_aux.
  (* first shift *)
  unfold shr_fexp at 1. cbn [Zdigits2 shr_record_of_loc].
  rewrite digits2_size. fold D. rewrite Z.add_0_r, fexp_normal by lia.
  replace (D - 24 - 0) with (D - 24) by lia.
  pose proof (shr_m_val (Build_shr_record (Zpos n) false false) 0 (D - 24)
                ltac:(simpl; lia) ltac:(lia)) as [Hm1 He1].
  destruct (shr _ 0 (D - 24)) as [mrs' e'] eqn:Hshr1.
  cbn [fst snd shr_m] in Hm1, He1.
  pose proof (size_bounds n) as [Hnlo Hnhi]. fold D in Hnlo, Hnhi.
  assert (Hm1r : 2 ^ 23 <= shr_m mrs' < 2 ^ 24).
  { rewrite Hm1. split.
    - apply Z.div_le_lower_bound; [apply Z.pow_pos_nonneg; lia|].
      rewrite <- Z.pow_add_r by lia.
      replace (D - 24 + 23) with (D - 1) by lia. exact Hnlo.
    - apply Z.div_lt_upper_bound; [apply Z.pow_pos_nonneg; lia|].
      rewrite <- Z.pow_add_r by lia.
      replace (D - 24 + 24) with D by lia. exact Hnhi. }
  pose proof (round_nearest_even_range (shr_m mrs') (loc_of_shr_record mrs'))
    as Hm2r.
  set (m2 := round_nearest_even (shr_m mrs') (loc_of_shr_record mrs')) in *.
  change (2 ^ 23) with 8388608 in *. change (2 ^ 24) with 16777216 in *.
  (* second shift *)
  unfold shr_fexp. cbn [shr_record_of_loc].
  assert (Hdig : Zdigits2 m2 = 24 \/ Zdigits2 m2 = 25).
  { rewrite Zdigits2_log2 by lia.
    destruct (Z.eq_dec m2 16777216) as [-> | Hne]; [right; reflexivity|].
    left. assert (Z.log2 m2 = 23); [|lia].
    apply Z.log2_unique; [lia|]. change (2 ^ 23) with 8388608.
    change (2 ^ Z.succ 23) with 16777216. lia. }
  assert (He' : e' = D - 24) by lia.
  pose proof (shr_m_val (Build_shr_record m2 false false) e'
                (fexp 24 128 (Zdigits2 m2 + e') - e')) as Hsh2.
  rewrite fexp_normal in Hsh2 |- * by lia.
  cbn [shr_m] in Hsh2.
  destruct Hsh2 as [Hm3 He3]; [lia | lia |].
  destruct (shr _ e' _) as [mrs'' e''] eqn:Hshr2.
  cbn [fst snd] in Hm3, He3.
  assert (Hm3pos : 0 < shr_m mrs'').
  { rewrite Hm3. apply Z.div_str_pos.
    destruct Hdig as [Hdg | Hdg]; rewrite Hdg.
    - replace (24 + e' - 24 - e') with 0 by lia. simpl. lia.
    - replace (25 + e' - 24 - e') with 1 by lia. simpl. lia. }
  destruct (shr_m mrs'') as [|m3|m3]; try lia.
  assert (He3r : 1 <= e'' <= 40) by (destruct Hdig as [Hdg | Hdg]; lia).
  destruct (Z.leb_spec e'' (128 - 24)); [|lia].
  exists m3, e''. split; [reflexivity | lia].
Qed.

Lemma compare_of_int (a n : Z) :
  0 <= a < 2 ^ 24 -> 0 <= n < 2 ^ 63 ->
  SFcompare (real_of_int a) (real_of_int n) = Some (a ?= n)
  /\ SFcompare (real_of_int n) (real_of_int a) = Some (n ?= a).
Proof.
  intros Ha Hn.
  destruct (Z.lt_ge_cases n (2 ^ 24)) as [Hsmall | Hbig].
  - destruct a as [|a|a], n as [|n|n]; try lia;
      rewrite ?real_of_int_0, ?real_of_int_pos by (apply small_size; lia);
      try (split; reflexivity).
    split; apply canon_compare; apply small_size; lia.
  - destruct (real_of_int_big n ltac:(lia)) as (m & e & -> & He).
    assert (Hlt : a < n) by lia.
    rewrite (proj2 (Z.compare_lt_iff a n) Hlt).
    rewrite (proj2 (Z.compare_gt_iff n a) Hlt).
    destruct a as [|a|a]; try lia.
    + rewrite real_of_int_0. split; reflexivity.
    + rewrite real_of_int_pos by (apply small_size; lia).
      unfold canon, SFcompare.
      pose proof (small_size a ltac:(lia)).
      destruct (Z.compare_spec (Zpos (Pos.size a) - 24) e); try lia.
      destruct (Z.compare_spec e (Zpos (Pos.size a) - 24)); try lia.
      split; reflexivity.
Qed.

Lemma real_ltb_of_int a n :
  0 <= a < 2 ^ 24 -> 0 <= n < 2 ^ 63 ->
  real_ltb (real_of_int a) (real_of_int n) = (a <? n)
  /\ real_ltb (real_of_int n) (real_of_int a) = (n <? a).
Proof.
  intros Ha Hn. destruct (compare_of_int a n Ha Hn) as [H1 H2].
  unfold real_ltb, SFltb, Z.ltb. rewrite H1, H2.
  split; [destruct (a ?= n) | destruct (n ?= a)]; reflexivity.
Qed.

Lemma real_leb_of_int a n :
  0 <= a < 2 ^ 24 -> 0 <= n < 2 ^ 63 ->
  real_leb (real_of_int a) (real_of_int n) = (a <=? n)
  /\ real_leb (real_of_int n) (real_of_int a) = (n <=? a).
Proof.
  intros Ha Hn. destruct (compare_of_int a n Ha Hn) as [H1 H2].
  unfold real_leb, SFleb, Z.leb. rewrite H1, H2.
  split; [destruct (a ?= n) | destruct (n ?= a)]; reflexivity.
Qed.

Lemma real_eqb_of_int a n :
  0 <= a < 2 ^ 24 -> 0 <= n < 2 ^ 63 ->
  real_eqb (real_of_int a) (real_of_int n) = (a =? n).
Proof.
  intros Ha Hn. destruct (compare_of_int a n Ha Hn) as [H1 _].
  unfold real_eqb, SFeqb. rewrite H1, Z.eqb_compare. reflexivity.
Qed.

(** Exact sums and differences. *)
Lemma canon_exponent s n :
  Zpos (Pos.size n) <= 24 ->
  exists m e,
    canon s n = S754_finite s m e /\ e <= 0 /\ 0 <= e + 23
    /\ Zpos m = Zpos n * 2 ^ (- e).
Proof.
  intros Hd. unfold canon.
  exists (pshift n (24 - Zpos (Pos.size n))), (Zpos (Pos.size n) - 24).
  split; [reflexivity|]. split; [lia|]. split; [lia|].
  rewrite pshift_val by lia. f_equal. f_equal. lia.
Qed.

Lemma shl_align_val m e ez :
  ez <= e -> Zpos (fst (shl_align m e ez)) = Zpos m * 2 ^ (e - ez).
Proof.
  intros Hle. unfold shl_align.
  destruct (ez - e) as [|p|p] eqn:Hsh; cbn [fst]; try lia.
  - replace (e - ez) with 0 by lia. lia.
  - rewrite iter_xO. f_equal. f_equal. lia.
Qed.

Lemma aligned_sum (sa sb : bool) (a b : positive) (op : Z -> Z -> Z) :
  Zpos (Pos.size a) <= 24 -> Zpos (Pos.size b) <= 24 ->
  (forall x y k, op (x * k) (y * k) = op x y * k) ->
  forall ma ea mb eb,
    canon false a = S754_finite sa ma ea ->
    canon false b = S754_finite sb mb eb ->
    exists k, 0 <= k
      /\ Z.min ea eb = - k
      /\ op (cond_Zopp sa (Zpos (fst (shl_align ma ea (Z.min ea eb)))))
            (cond_Zopp sb (Zpos (fst (shl_align mb eb (Z.min ea eb)))))
         = op (Zpos a) (Zpos b) * 2 ^ k.
Proof.
  intros Ha Hb Hop ma ea mb eb Hca Hcb.
  destruct (canon_exponent false a Ha) as (ma' & ea' & Ha' & Hea & _ & Hma).
  destruct (canon_exponent false b Hb) as (mb' & eb' & Hb' & Heb & _ & Hmb).
  rewrite Ha' in Hca. rewrite Hb' in Hcb.
  injection Hca as <- <- <-. injection Hcb as <- <- <-.
  exists (- Z.min ea' eb'). split; [lia|]. split; [lia|].
  cbn [cond_Zopp].
  rewrite !shl_align_val by lia. rewrite Hma, Hmb.
  rewrite <- !Z.mul_assoc, <- !Z.pow_add_r by lia.
  replace (- ea' + (ea' - Z.min ea' eb')) with (- Z.min ea' eb') by lia.
  replace (- eb' + (eb' - Z.min ea' eb')) with (- Z.min ea' eb') by lia.
  apply Hop.
Qed.

Lemma normalize_exact (v : Z) (n k : Z) :
  0 <= n < 2 ^ 24 -> 0 <= k -> v = n * 2 ^ k ->
  binary_normalize 24 128 v (- k) false = real_of_int n.
Proof.
  intros Hn Hk ->.
  assert (Hp : 0 < 2 ^ k) by (apply Z.pow_pos_nonneg; lia).
  destruct n as [|n|n]; try lia.
  - reflexivity.
  - rewrite real_of_int_pos by (apply small_size; lia).
    destruct (Zpos n * 2 ^ k) as [|M|M] eqn:HM; try nia.
    cbn [binary_normalize].
    apply round_canon; [exact Hk | symmetry; exact HM | apply small_size; lia].
Qed.

Lemma real_add_exact (a b : Z) :
  0 <= a -> 0 <= b -> a + b < 2 ^ 24 ->
  real_add (real_of_int a) (real_of_int b) = real_of_int (a + b).
Proof.
  intros Ha Hb Hsum.
  destruct a as [|a|a], b as [|b|b]; try lia;
    rewrite ?real_of_int_0; try reflexivity.
  - change (0 + Zpos b) with (Zpos b).
    rewrite !real_of_int_pos by (apply small_size; lia).
    reflexivity.
  - rewrite Z.add_0_r. rewrite !real_of_int_pos by (apply small_size; lia).
    reflexivity.
  - rewrite (real_of_int_pos a), (real_of_int_pos b)
      by (apply small_size; lia).
    destruct (canon_exponent false a ltac:(apply small_size; lia))
      as (ma & ea & Hca & _).
    destruct (canon_exponent false b ltac:(apply small_size; lia))
      as (mb & eb & Hcb & _).
    destruct (aligned_sum false false a b Z.add
                ltac:(apply small_size; lia) ltac:(apply small_size; lia)
                ltac:(intros; lia) ma ea mb eb Hca Hcb)
      as (k & Hk & Hmin & Hval).
    rewrite Hca, Hcb. unfold real_add, SFadd.
    cbv zeta. rewrite Hval, Hmin.
    apply normalize_exact; [lia | exact Hk | reflexivity].
Qed.

Lemma real_sub_exact (a b : Z) :
  0 <= b <= a -> a < 2 ^ 24 ->
  real_sub (real_of_int a) (real_of_int b) = real_of_int (a - b).
Proof.
  intros Hab Ha.
  destruct a as [|a|a], b as [|b|b]; try lia;
    rewrite ?real_of_int_0; try reflexivity.
  - rewrite Z.sub_0_r. rewrite !real_of_int_pos by (apply small_size; lia).
    reflexivity.
  - rewrite (real_of_int_pos a), (real_of_int_pos b)
      by (apply small_size; lia).
    destruct (canon_exponent false a ltac:(apply small_size; lia))
      as (ma & ea & Hca & _).
    destruct (canon_exponent false b ltac:(apply small_size; lia))
      as (mb & eb & Hcb & _).
    destruct (aligned_sum false false a b Z.sub
                ltac:(apply small_size; lia) ltac:(apply small_size; lia)
                ltac:(intros; lia) ma ea mb eb Hca Hcb)
      as (k & Hk & Hmin & Hval).
    rewrite Hca, Hcb. unfold real_sub, SFsub.
    cbv zeta. rewrite Hval, Hmin.
    apply normalize_exact; [lia | exact Hk | reflexivity].
Qed.

Lemma real_trunc_of_int (n : Z) :
  0 <= n < 2 ^ 24 -> real_trunc (real_of_int n) = Some n.
Proof.
  intros Hn. destruct n as [|n|n]; try lia; [reflexivity|].
  rewrite real_of_int_pos by (apply small_size; lia).
  destruct (canon_exponent false n ltac:(apply small_size; lia))
    as (m & e & -> & He & _ & Hm).
  cbn [real_trunc]. f_equal.
  replace e with (- - e) at 1 by lia.
  change (Z.shiftl (Zpos m) (- - e)) with (Z.shiftr (Zpos m) (- e)).
  rewrite Z.shiftr_div_pow2 by lia. rewrite Hm.
  apply Z.div_mul. apply Z.pow_nonzero; lia.
Qed.

Lemma int_of_real_of_int {conv : Conversions} bits (n : Z) :
  0 <= n < 2 ^ 24 -> 25 <= bits ->
  int_of_real bits (real_of_int n) = n.
Proof.
  intros Hn Hbits. unfold int_of_real. rewrite real_trunc_of_int by exact Hn.
  unfold in_int.
  assert (2 ^ 24 <= 2 ^ (bits - 1)) by (apply Z.pow_le_mono_r; lia).
  destruct (Z.leb_spec (- 2 ^ (bits - 1)) n); [|lia].
  destruct (Z.ltb_spec n (2 ^ (bits - 1))); [|lia].
  reflexivity.
Qed.

Lemma real_of_int_inj (a b : Z) :
  0 <= a < 2 ^ 24 -> 0 <= b < 2 ^ 24 -> real_of_int a = real_of_int b ->
  a = b.
Proof.
  intros Ha Hb Heq.
  pose proof (real_eqb_of_int a b Ha ltac:(lia)) as H1.
  pose proof (real_eqb_of_int a a Ha ltac:(lia)) as H2.
  rewrite <- Heq in H1. rewrite H1, Z.eqb_refl in H2.
  apply Z.eqb_eq. exact H2.
Qed.

Lemma to_int64_small (z : Z) : - 2 ^ 63 <= z < 2 ^ 63 -> to_int64 z = z.
Proof.
  intros Hz. unfold to_int64. rewrite Z.mod_small; lia.
Qed.

(** ** Tile reassembly: what holds for every tile array *)

Section WalkInvariants.
Context {api : ImageApi} {conv : Conversions}.

(** The output so far as (offset, image) pairs. *)
Local Abbreviation placed c := (zip (offsets c) (images c)).
Local Abbreviation entry p := (offset p, texture p).

Lemma zip_snoc {A B} (l : list A) (k : list B) a b :
  length l = length k -> zip (l ++ [a]) (k ++ [b]) = zip l k ++ [(a, b)].
Proof.
  revert k. induction l as [|x l IH]; intros [|y k] Hlen;
    try discriminate; simpl.
  - reflexivity.
  - rewrite IH by (simpl in Hlen; lia). reflexivity.
Qed.

Lemma emit_gap_images m whole mip fmt c :
  images (emit_gap m whole mip fmt c) <> [].
Proof.
  unfold emit_gap. destruct (advance_to _ _ _ _). cbn [images].
  intros Hnil. apply app_eq_nil in Hnil. destruct Hnil; discriminate.
Qed.

Lemma emit_gap_grows m whole mip fmt c done :
  length (offsets c) = length (images c) ->
  sublist done (placed c) ->
  let c' := emit_gap m whole mip fmt c in
  length (offsets c') = length (images c') /\ sublist done (placed c').
Proof.
  intros Hlen Hsub. unfold emit_gap.
  destruct (advance_to _ _ _ _). cbn [offsets images].
  rewrite !length_app, zip_snoc by exact Hlen.
  split; [simpl; lia | apply sublist_inserts_r; exact Hsub].
Qed.

Lemma fill_until_eq fuel m whole pos img c :
  fill_until fuel m whole pos img c
  = if at_pos pos c then Some c
    else
      match fuel with
      | O => None
      | S fuel' =>
          fill_until fuel' m whole pos img
            (emit_gap m whole (has_mipmaps img) (get_format img) c)
      end.
Proof. destruct fuel; reflexivity. Qed.

Lemma fill_rest_eq fuel m whole c :
  fill_rest fuel m whole c
  = match images c with
    | [] => Some Crashed
    | first :: _ =>
        if real_ltb (real_of_int (expected_y c)) (snd whole)
        then
          match fuel with
          | O => None
          | S fuel' =>
              fill_rest fuel' m whole
                (emit_gap m whole (has_mipmaps first) (get_format first) c)
          end
        else Some (Reassembled (images c) (offsets c))
    end.
Proof. destruct fuel; reflexivity. Qed.

(** The gap loop in front of a tile ends only with the cursor on the
    tile's offset. *)
Lemma fill_until_grows fuel : forall m whole pos image c c' done,
  length (offsets c) = length (images c) ->
  sublist done (placed c) ->
  fill_until fuel m whole pos image c = Some c' ->
  length (offsets c') = length (images c')
  /\ sublist done (placed c')
  /\ at_pos pos c' = true
  /\ (images c <> [] -> images c' <> []).
Proof.
  induction fuel as [|fuel IH]; intros m whole pos image c c' done
    Hlen Hsub H; rewrite fill_until_eq in H;
    destruct (at_pos pos c) eqn:Hat.
  1, 3: injection H as <-; auto.
  - discriminate.
  - destruct (emit_gap_grows m whole (has_mipmaps image) (get_format image)
                c done Hlen Hsub) as (H1 & H2).
    destruct (IH _ _ _ _ _ _ _ H1 H2 H) as (Hl & Hs & Hp & Hne).
    repeat split; auto. intros _. apply Hne, emit_gap_images.
Qed.

Lemma place_pieces_grows fuel m whole : forall pieces c c' done,
  length (offsets c) = length (images c) ->
  sublist done (placed c) ->
  place_pieces fuel m whole pieces c = Some c' ->
  length (offsets c') = length (images c')
  /\ sublist (done ++ map (fun p => entry p) pieces) (placed c')
  /\ Forall (fun p => exists c1, at_pos (offset p) c1 = true) pieces
  /\ (pieces <> [] \/ images c <> [] -> images c' <> []).
Proof.
  induction pieces as [|p rest IH]; intros c c' done Hlen Hsub H;
    simpl in H.
  - injection H as <-. rewrite app_nil_r. repeat split; auto.
    intros [Hne | Hne]; [congruence | exact Hne].
  - destruct (fill_until fuel m whole (offset p) (texture p) c)
      as [c1|] eqn:Hfill; [|discriminate].
    destruct (fill_until_grows _ _ _ _ _ _ _ _ Hlen Hsub Hfill)
      as (Hlen1 & Hsub1 & Hpos & _).
    destruct (advance_to m whole _ c1) as [x y] eqn:Hadv.
    apply (IH _ _ (done ++ [entry p])) in H; cbn [offsets images].
    + destruct H as (Hl & Hs & Hall & Hne). split; [exact Hl|]. split.
      * rewrite <- app_assoc in Hs. exact Hs.
      * split; [constructor; [exists c1; exact Hpos | exact Hall]|].
        intros _. apply Hne. right. intros Hnil.
        apply app_eq_nil in Hnil. destruct Hnil; discriminate.
    + rewrite !length_app. simpl. lia.
    + rewrite zip_snoc by exact Hlen1.
      apply sublist_app; [exact Hsub1 | reflexivity].
Qed.

Lemma fill_rest_grows fuel : forall m whole c done images' offsets',
  length (offsets c) = length (images c) ->
  sublist done (placed c) ->
  fill_rest fuel m whole c = Some (Reassembled images' offsets') ->
  length offsets' = length images'
  /\ sublist done (zip offsets' images').
Proof.
  induction fuel as [|fuel IH]; intros m whole c done images' offsets'
    Hlen Hsub; rewrite fill_rest_eq;
    destruct (images c) as [|first tl] eqn:Himg; try discriminate;
    destruct (real_ltb _ _); try discriminate.
  1, 3: intros H; injection H as <- <-; split; assumption.
  intros H. rewrite <- Himg in Hlen, Hsub.
  destruct (emit_gap_grows m whole (has_mipmaps first) (get_format first)
              c done Hlen Hsub) as (H1 & H2).
  exact (IH _ _ _ _ _ _ H1 H2 H).
Qed.

Lemma fill_rest_not_aborted fuel : forall m whole c msg,
  fill_rest fuel m whole c <> Some (Aborted msg).
Proof.
  induction fuel as [|fuel IH]; intros m whole c msg;
    rewrite fill_rest_eq;
    destruct (images c); try discriminate;
    destruct (real_ltb _ _); try discriminate.
  apply IH.
Qed.

Lemma fill_rest_not_crashed fuel : forall m whole c,
  images c <> [] -> fill_rest fuel m whole c <> Some Crashed.
Proof.
  induction fuel as [|fuel IH]; intros m whole c Hne;
    rewrite fill_rest_eq;
    destruct (images c) eqn:Himg; try congruence;
    destruct (real_ltb _ _); try discriminate.
  apply IH, emit_gap_images.
Qed.

(** Every move of the cursor leaves it at the left edge or left of the
    right edge of the canvas. *)
Lemma advance_to_inside m whole x c x' y' :
  advance_to m whole x c = (x', y') ->
  forall imgs offs, x_inside whole (mkCursor x' y' imgs offs).
Proof.
  unfold advance_to, x_inside. cbn [expected_x].
  destruct (real_leb (fst whole) (real_of_int x)) eqn:Hle;
    intros H; injection H as <- <-; auto.
Qed.

Lemma emit_gap_inside m whole mip fmt c :
  x_inside whole (emit_gap m whole mip fmt c).
Proof.
  unfold emit_gap.
  destruct (advance_to m whole _ c) as [x y] eqn:Hadv.
  apply (advance_to_inside _ _ _ _ _ _ Hadv).
Qed.

Lemma fill_until_inside fuel : forall m whole pos image c c',
  x_inside whole c ->
  fill_until fuel m whole pos image c = Some c' ->
  x_inside whole c' /\ at_pos pos c' = true.
Proof.
  induction fuel as [|fuel IH]; intros m whole pos image c c' Hin H;
    rewrite fill_until_eq in H; destruct (at_pos pos c) eqn:Hat.
  1, 3: injection H as <-; auto.
  - discriminate.
  - apply (IH _ _ _ _ _ _ (emit_gap_inside _ _ _ _ _) H).
Qed.

Lemma place_pieces_inside fuel m whole : forall pieces c c',
  x_inside whole c ->
  place_pieces fuel m whole pieces c = Some c' ->
  Forall (fun p => exists c1, x_inside whole c1
                              /\ at_pos (offset p) c1 = true) pieces.
Proof.
  induction pieces as [|p rest IH]; intros c c' Hin H; simpl in H.
  - constructor.
  - destruct (fill_until fuel m whole (offset p) (texture p) c)
      as [c1|] eqn:Hfill; [|discriminate].
    destruct (fill_until_inside _ _ _ _ _ _ _ Hin Hfill) as [Hin1 Hat].
    destruct (advance_to m whole _ c1) as [x y] eqn:Hadv.
    constructor; [exists c1; auto|].
    apply (IH _ _ (advance_to_inside _ _ _ _ _ _ Hadv _ _) H).
Qed.

(** The first loop on an array whose entries all resolve to tiles. *)
Lemma gather_resolved data : forall pieces m acc,
  Forall2 resolves_to data pieces ->
  gather data m acc = Gathered (max_size m pieces) (acc ++ pieces).
Proof.
  induction data as [|[off r] data IH]; intros pieces m acc Hres.
  - apply Forall2_nil_inv_l in Hres. subst. simpl.
    rewrite app_nil_r. reflexivity.
  - apply Forall2_cons_inv_l in Hres.
    destruct Hres as ([poff pimg] & ps & [Hoff Himg] & Hres & ->).
    cbn [fst snd offset texture] in Hoff, Himg. subst off.
    simpl. rewrite Himg, (IH ps) by exact Hres.
    rewrite <- app_assoc. reflexivity.
Qed.

Lemma resolves_data_of pieces : Forall2 resolves_to (data_of pieces) pieces.
Proof.
  induction pieces as [|p ps IH]; simpl; constructor; [|exact IH].
  split; reflexivity.
Qed.

Lemma gather_loaded ps m acc :
  gather (data_of ps) m acc = Gathered (max_size m ps) (acc ++ ps).
Proof. apply gather_resolved, resolves_data_of. Qed.

(** The first loop stops at the first entry that is not a texture with an
    image. *)
Lemma gather_stops ok : forall e rest m acc,
  Forall (fun e => exists img, image_texture_of (snd e) = Some (Some img))
    ok ->
  (unresolved_entry e -> gather (ok ++ e :: rest) m acc = Unresolved)
  /\ (imageless_entry e -> gather (ok ++ e :: rest) m acc = NullImage).
Proof.
  induction ok as [|[off r] ok IH]; intros [eoff er] rest m acc Hok.
  - unfold unresolved_entry, imageless_entry. cbn [snd app gather].
    split; intros ->; reflexivity.
  - apply Forall_cons in Hok. destruct Hok as [[img Himg] Hok].
    cbn [snd] in Himg. simpl. rewrite Himg. apply IH, Hok.
Qed.

Lemma gather_cases data : forall m acc,
  match gather data m acc with
  | Unresolved =>
      exists ok e rest,
        data = ok ++ e :: rest
        /\ Forall (fun e => exists img,
                     image_texture_of (snd e) = Some (Some img)) ok
        /\ unresolved_entry e
  | NullImage =>
      exists ok e rest,
        data = ok ++ e :: rest
        /\ Forall (fun e => exists img,
                     image_texture_of (snd e) = Some (Some img)) ok
        /\ imageless_entry e
  | Gathered _ _ => exists pieces, Forall2 resolves_to data pieces
  end.
Proof.
  induction data as [|[off r] data IH]; intros m acc.
  - simpl. exists []. constructor.
  - simpl. destruct (image_texture_of r) as [[img|]|] eqn:Hr.
    + specialize (IH (Z.max (fst m) (width img), Z.max (snd m) (height img))
                    (acc ++ [mkPiece off img])).
      destruct (gather data _ _) as [m' ps| |].
      * destruct IH as [pieces Hres].
        exists (mkPiece off img :: pieces). constructor; [|exact Hres].
        split; [reflexivity | exact Hr].
      * destruct IH as (ok & e & rest & -> & Hok & He).
        exists ((off, r) :: ok), e, rest. split; [reflexivity|].
        split; [|exact He]. constructor; [|exact Hok]. exists img. exact Hr.
      * destruct IH as (ok & e & rest & -> & Hok & He).
        exists ((off, r) :: ok), e, rest. split; [reflexivity|].
        split; [|exact He]. constructor; [|exact Hok]. exists img. exact Hr.
    + exists [], (off, r), data. repeat split; [constructor | exact Hr].
    + exists [], (off, r), data. repeat split; [constructor | exact Hr].
Qed.

End WalkInvariants.

(** ** Tile reassembly: comparing coordinates *)

Lemma real_compare_key (x y : real_t) :
  SFcompare x y
  = match real_key x, real_key y with
    | Some a, Some b => Some (key_compare a b)
    | _, _ => None
    end.
Proof.
  destruct x as [[|]|[|]| |[|] mx ex], y as [[|]|[|]| |[|] my ey];
    try reflexivity; unfold SFcompare, real_key, key_compare;
    cbn [fst snd]; f_equal.
  change (-1 ?= -1) with Eq. cbv iota.
  rewrite !Z.compare_opp.
  change (Z.pos my ?= Z.pos mx) with (Pos.compare my mx).
  rewrite (Pos.compare_antisym mx my).
  destruct (Z.compare_spec ex ey), (Z.compare_spec ey ex); try lia;
    reflexivity.
Qed.

(** The lexicographic order behind [key_compare]. *)
Lemma key_compare_spec (a b : Z * Z * Z) :
  match key_compare a b with
  | Eq => a = b
  | Lt =>
      fst (fst a) < fst (fst b)
      \/ (fst (fst a) = fst (fst b)
          /\ (snd (fst a) < snd (fst b)
              \/ (snd (fst a) = snd (fst b) /\ snd a < snd b)))
  | Gt =>
      fst (fst b) < fst (fst a)
      \/ (fst (fst b) = fst (fst a)
          /\ (snd (fst b) < snd (fst a)
              \/ (snd (fst b) = snd (fst a) /\ snd b < snd a)))
  end.
Proof.
  destruct a as [[a1 a2] a3], b as [[b1 b2] b3].
  unfold key_compare. cbn [fst snd].
  destruct (Z.compare_spec a1 b1); try lia.
  destruct (Z.compare_spec a2 b2); try lia.
  destruct (Z.compare_spec a3 b3); try lia.
  congruence.
Qed.

(** Comparing with either of two equal values gives the same answer. *)
Lemma real_leb_eqb_r (w p e : real_t) :
  real_eqb p e = true -> real_leb w p = real_leb w e.
Proof.
  unfold real_eqb, real_leb, SFeqb, SFleb. rewrite !real_compare_key.
  destruct (real_key p) as [kp|], (real_key e) as [ke|]; try discriminate.
  pose proof (key_compare_spec kp ke) as Hs.
  destruct (key_compare kp ke); try discriminate.
  subst ke. reflexivity.
Qed.

(** A cursor inside the canvas is never on an offset at or beyond the
    right edge, the left edge itself apart. *)
Lemma at_pos_outside whole pos c :
  x_inside whole c ->
  real_leb (fst whole) (fst pos) = true ->
  real_eqb (fst pos) (real_of_int 0) = false ->
  at_pos pos c = false.
Proof.
  intros Hin Hout Hnz. unfold at_pos.
  destruct (real_eqb (fst pos) (real_of_int (expected_x c))) eqn:Heq;
    [|reflexivity].
  exfalso. destruct Hin as [Hzero | Hleft].
  - rewrite Hzero in Heq. congruence.
  - rewrite (real_leb_eqb_r _ _ _ Heq) in Hout. congruence.
Qed.

Lemma sort_custom_perm pieces : sort_custom pieces ≡ₚ pieces.
Proof. apply merge_sort_Permutation. Qed.

(** ** Tile reassembly: when it aborts *)

Section AbortProperties.
Context {api : ImageApi} {conv : Conversions}.

(** C4, as the code has it.  (1) The reassembly aborts, returning a null
    resource and no output, exactly when the first entry of the tile array
    that is not a valid texture with an image is an entry that does not
    resolve to a valid 2D texture; the message is then the one of the
    failed conversion, whatever the fuel, offsets and sizes.  When that
    first entry is a valid texture with a null image, the reassembly
    crashes on it instead.  (2) No check
    on a tile's image size or offset exists: when every entry resolves to
    a tile, the reassembly never aborts, it crashes exactly when there is
    no tile at all, and whenever it returns a texture, that texture has as
    many images as offsets and holds every supplied tile's image under
    the tile's own offset.  (3) A tile whose horizontal offset is at or
    beyond the right edge of the canvas, and is not 0, is never reached:
    the reassembly then yields neither an error nor an output, however
    many rounds it is given. *)
Theorem convert_aborts_only_on_unresolved (fuel : nat) (res_path : string)
  (data : list (real_t * real_t * tile_resource))
  (whole_size : real_t * real_t) :
  (forall msg,
     convert fuel res_path data whole_size = Some (Aborted msg)
     <-> msg = convert_failure res_path
         /\ exists ok e rest,
              data = ok ++ e :: rest
              /\ Forall (fun e => exists img,
                           image_texture_of (snd e) = Some (Some img)) ok
              /\ unresolved_entry e)
  /\ (forall ok e rest,
        data = ok ++ e :: rest ->
        Forall (fun e => exists img,
                  image_texture_of (snd e) = Some (Some img)) ok ->
        imageless_entry e ->
        convert fuel res_path data whole_size = Some Crashed)
  /\ (forall pieces,
        Forall2 resolves_to data pieces ->
        (forall msg,
           convert fuel res_path data whole_size <> Some (Aborted msg))
        /\ (convert fuel res_path data whole_size = Some Crashed
            <-> pieces = [])
        /\ (forall images' offsets',
              convert fuel res_path data whole_size
              = Some (Reassembled images' offsets') ->
              length images' = length offsets'
              /\ forall p, p ∈ pieces ->
                           (offset p, texture p) ∈ zip offsets' images')
        /\ (forall p,
              p ∈ pieces ->
              real_leb (fst whole_size) (fst (offset p)) = true ->
              real_eqb (fst (offset p)) (real_of_int 0) = false ->
              convert fuel res_path data whole_size = None)).
Proof.
  split.
  - intros msg. split.
    + intros H. unfold convert in H.
      pose proof (gather_cases data (0, 0) []) as Hcases.
      destruct (gather data (0, 0) []) as [m ps| |].
      * exfalso.
        destruct (place_pieces _ _ _ _ _) as [c|]; [|discriminate].
        exact (fill_rest_not_aborted _ _ _ _ _ H).
      * injection H as <-. split; [reflexivity | exact Hcases].
      * discriminate.
    + intros (-> & ok & e & rest & -> & Hok & He). unfold convert.
      rewrite (proj1 (gather_stops ok e rest (0, 0) [] Hok) He).
      reflexivity.
  - split.
    { intros ok e rest -> Hok He. unfold convert.
      rewrite (proj2 (gather_stops ok e rest (0, 0) [] Hok) He).
      reflexivity. }
    intros pieces Hres. unfold convert.
    rewrite (gather_resolved data pieces (0, 0) [] Hres). cbn [app].
    pose proof (sort_custom_perm pieces) as Hperm.
    split; [|split; [|split]].
    + intros msg.
      destruct (place_pieces _ _ _ _ _) as [c|]; [|discriminate].
      apply fill_rest_not_aborted.
    + split.
      * intros H. destruct pieces as [|p ps]; [reflexivity|]. exfalso.
        destruct (place_pieces _ _ _ _ _) as [c|] eqn:Hplace;
          [|discriminate].
        apply (place_pieces_grows _ _ _ _ _ _ []) in Hplace;
          [| reflexivity | constructor].
        destruct Hplace as (_ & _ & _ & Hne).
        apply (fill_rest_not_crashed fuel _ whole_size c) in H; [exact H|].
        apply Hne. left. intros Hnil.
        rewrite Hnil in Hperm. apply Permutation_nil_l in Hperm.
        discriminate.
      * intros ->. destruct fuel; reflexivity.
    + intros images' offsets' H.
      destruct (place_pieces _ _ _ _ _) as [c|] eqn:Hplace; [|discriminate].
      apply (place_pieces_grows _ _ _ _ _ _ []) in Hplace;
        [| reflexivity | constructor].
      destruct Hplace as (Hlen & Hsub & _). cbn [app] in Hsub.
      destruct (fill_rest_grows _ _ _ _ _ _ _ Hlen Hsub H) as [Hl Hs].
      split; [symmetry; exact Hl|].
      intros p Hp.
      eapply elem_of_sublist; [|exact Hs].
      apply (list_elem_of_fmap_2 (fun p => (offset p, texture p))).
      rewrite Hperm. exact Hp.
    + intros p Hp Hout Hnz.
      destruct (place_pieces _ _ _ _ _) as [c|] eqn:Hplace; [|reflexivity].
      exfalso.
      apply place_pieces_inside in Hplace; [|left; reflexivity].
      rewrite Forall_forall in Hplace.
      destruct (Hplace p) as (c1 & Hin & Hat); [rewrite Hperm; exact Hp|].
      rewrite (at_pos_outside whole_size (offset p) c1 Hin Hout Hnz) in Hat.
      discriminate.
Qed.

End AbortProperties.

Lemma convert_aborts_only_on_unresolved_witness :
  let tile := mkImage 4 4 false 0 (repeat x01 16) in
  let low := mkPiece (Vector2_of (0, 8)) tile in
  convert (api := Sample.api) (conv := x86_64) 8 "res://big.ltex"
    [(Vector2_of (0, 0), LoadedTexture (Some tile));
     (Vector2_of (4, 0), OtherResource);
     (Vector2_of (8, 0), LoadedTexture None)]
    (Vector2_of (8, 4))
  = Some (Aborted (convert_failure "res://big.ltex"))
  /\ exists images' offsets',
       convert (api := Sample.api) (conv := x86_64) 8 "res://big.ltex"
         [(Vector2_of (0, 8), MissingImageTexture (Some (Some tile)))]
         (Vector2_of (10, 6))
       = Some (Reassembled images' offsets')
       /\ length images' = length offsets'
       /\ (Vector2_of (0, 8), tile) ∈ zip offsets' images'
       /\ convert (api := Sample.api) (conv := x86_64) 50 "res://big.ltex"
            [(Vector2_of (12, 0), LoadedTexture (Some tile))]
            (Vector2_of (10, 6))
          = None
       /\ convert (api := Sample.api) (conv := x86_64) 8 "res://big.ltex"
            [(Vector2_of (0, 0), LoadedTexture (Some tile));
             (Vector2_of (4, 0), LoadedTexture None);
             (Vector2_of (8, 0), OtherResource)]
            (Vector2_of (8, 4))
          = Some Crashed.
Proof.
  intros tile low. split.
  - apply (proj1 (convert_aborts_only_on_unresolved (api := Sample.api)
                    (conv := x86_64) 8 "res://big.ltex"
                    [(Vector2_of (0, 0), LoadedTexture (Some tile));
                     (Vector2_of (4, 0), OtherResource);
                     (Vector2_of (8, 0), LoadedTexture None)]
                    (Vector2_of (8, 4)))).
    split; [reflexivity|].
    exists [(Vector2_of (0, 0), LoadedTexture (Some tile))],
      (Vector2_of (4, 0), OtherResource),
      [(Vector2_of (8, 0), LoadedTexture None)].
    split; [reflexivity|]. split; [|reflexivity].
    constructor; [|constructor]. exists tile. reflexivity.
  - assert (Hrun : exists images' offsets',
              convert (api := Sample.api) (conv := x86_64) 8 "res://big.ltex"
                [(Vector2_of (0, 8), MissingImageTexture (Some (Some tile)))]
                (Vector2_of (10, 6))
              = Some (Reassembled images' offsets')).
    { vm_compute. do 2 eexists. reflexivity. }
    destruct Hrun as (images' & offsets' & Hrun).
    exists images', offsets'. split; [exact Hrun|].
    destruct (proj2 (proj2 (convert_aborts_only_on_unresolved
                              (api := Sample.api) (conv := x86_64) 8
                              "res://big.ltex"
                              [(Vector2_of (0, 8),
                                MissingImageTexture (Some (Some tile)))]
                              (Vector2_of (10, 6)))) [low])
      as (_ & _ & Hkeep & _).
    + constructor; [split; reflexivity | constructor].
    + destruct (Hkeep images' offsets' Hrun) as [Hlen Hin].
      split; [exact Hlen|]. split; [apply (Hin low); left|].
      destruct (proj2 (proj2 (convert_aborts_only_on_unresolved
                                (api := Sample.api) (conv := x86_64) 50
                                "res://big.ltex"
                                [(Vector2_of (12, 0),
                                  LoadedTexture (Some tile))]
                                (Vector2_of (10, 6))))
                  [mkPiece (Vector2_of (12, 0)) tile])
        as (_ & _ & _ & Hhang).
      * constructor; [split; reflexivity | constructor].
      * split.
        -- apply (Hhang (mkPiece (Vector2_of (12, 0)) tile)).
           ++ left.
           ++ vm_compute. reflexivity.
           ++ vm_compute. reflexivity.
        -- apply (proj1 (proj2 (convert_aborts_only_on_unresolved
                                  (api := Sample.api) (conv := x86_64) 8
                                  "res://big.ltex"
                                  [(Vector2_of (0, 0),
                                    LoadedTexture (Some tile));
                                   (Vector2_of (4, 0), LoadedTexture None);
                                   (Vector2_of (8, 0), OtherResource)]
                                  (Vector2_of (8, 4))))
                    [(Vector2_of (0, 0), LoadedTexture (Some tile))]
                    (Vector2_of (4, 0), LoadedTexture None)
                    [(Vector2_of (8, 0), OtherResource)]).
           ++ reflexivity.
           ++ constructor; [|constructor]. exists tile. reflexivity.
           ++ reflexivity.
Defined.

(** C4 as stated fails: a tile with a zero-size image, and a tile whose
    offset lies below the canvas, are both reassembled without any error;
    the malformed tile is part of the output. *)
Lemma malformed_tiles_are_reassembled :
  let tile := mkImage 4 4 false 0 (repeat x01 16) in
  let blank := Sample.blank 4 4 false 0 in
  let blank_low := Sample.blank 4 2 false 0 in
  let blank_edge := Sample.blank 2 4 false 0 in
  let blank_corner := Sample.blank 2 2 false 0 in
  convert (api := Sample.api) (conv := x86_64) 8 "res://big.ltex"
    [(Vector2_of (0, 0), LoadedTexture (Some instantiate));
     (Vector2_of (4, 0), LoadedTexture (Some tile))]
    (Vector2_of (8, 4))
  = Some (Reassembled [instantiate; blank; tile]
            (map Vector2_of [(0, 0); (0, 0); (4, 0)]))
  /\ convert (api := Sample.api) (conv := x86_64) 8 "res://big.ltex"
       [(Vector2_of (0, 0), LoadedTexture (Some tile));
        (Vector2_of (0, 8), LoadedTexture (Some tile))]
       (Vector2_of (10, 6))
     = Some (Reassembled
               [tile; blank; blank_edge; blank_low; blank_low; blank_corner;
                tile]
               (map Vector2_of
                  [(0, 0); (4, 0); (8, 0); (0, 4); (4, 4); (8, 4); (0, 8)])).
Proof. vm_compute. auto. Qed.

(** ** Tile reassembly: the grid *)

Section Grid.
Variables W H T : Z.
Hypothesis HT : 0 < T.
Hypothesis HW : 0 < W.
Hypothesis HH : 0 < H.

Lemma ceil_div_bounds (a : Z) :
  0 < a -> 0 < ceil_div a T /\ (ceil_div a T - 1) * T < a <= ceil_div a T * T.
Proof using HT.
  clear HW HH. intros Ha. unfold ceil_div.
  pose proof (Z.div_mod (a + T - 1) T ltac:(lia)) as Hdm.
  pose proof (Z.mod_pos_bound (a + T - 1) T HT) as Hm.
  nia.
Qed.

Lemma cols_pos : 0 < ceil_div W T.
Proof using HT HW. apply ceil_div_bounds, HW. Qed.

Lemma rows_pos : 0 < ceil_div H T.
Proof using HT HH. apply ceil_div_bounds, HH. Qed.

(** Column and row of the next cell. *)
Lemma next_index (k : nat) :
  let cols := ceil_div W T in
  let i := Z.of_nat k mod cols in
  let j := Z.of_nat k / cols in
  (i + 1 < cols /\ Z.of_nat (S k) mod cols = i + 1
   /\ Z.of_nat (S k) / cols = j)
  \/ (i + 1 = cols /\ Z.of_nat (S k) mod cols = 0
      /\ Z.of_nat (S k) / cols = j + 1).
Proof using HT HW.
  intros cols i j. pose proof cols_pos as Hc. fold cols in Hc.
  pose proof (Z.div_mod (Z.of_nat k) cols ltac:(lia)) as Hdm.
  pose proof (Z.mod_pos_bound (Z.of_nat k) cols Hc) as Hm.
  fold i in Hdm, Hm. fold j in Hdm.
  rewrite Nat2Z.inj_succ. unfold Z.succ.
  destruct (Z.lt_ge_cases (i + 1) cols) as [Hlt | Hge].
  - left. split; [exact Hlt|]. split.
    + symmetry. apply (Z.mod_unique _ _ j); lia.
    + symmetry. apply (Z.div_unique _ _ _ (i + 1)); lia.
  - right. assert (Hi : i + 1 = cols) by lia. split; [exact Hi|]. split.
    + symmetry. apply (Z.mod_unique _ _ (j + 1)); lia.
    + symmetry. apply (Z.div_unique _ _ _ 0); lia.
Qed.

(** Column and row of a cell of the grid. *)
Lemma index_bounds (k : nat) :
  (k < cell_count W H T)%nat ->
  0 <= Z.of_nat k mod ceil_div W T < ceil_div W T
  /\ 0 <= Z.of_nat k / ceil_div W T < ceil_div H T.
Proof using HT HW HH.
  unfold cell_count. intros Hk.
  pose proof cols_pos as Hc. pose proof rows_pos as Hr.
  split; [apply Z.mod_pos_bound, Hc|].
  split; [apply Z.div_pos; lia|].
  apply Z.div_lt_upper_bound; lia.
Qed.

(** The cells of the grid start inside the canvas. *)
Lemma cell_range (k : nat) :
  (k < cell_count W H T)%nat ->
  0 <= fst (cell_at W T k) < W /\ 0 <= snd (cell_at W T k) < H.
Proof using HT HW HH.
  intros Hk. destruct (index_bounds k Hk) as [Hi Hj].
  pose proof (ceil_div_bounds W HW) as (_ & Hwlo & _).
  pose proof (ceil_div_bounds H HH) as (_ & Hhlo & _).
  unfold cell_at. cbn [fst snd]. nia.
Qed.

(** A canvas lower than a tile has one row. *)
Lemma one_row : H < T -> ceil_div H T = 1.
Proof using HT HH.
  intros Hlt. pose proof (ceil_div_bounds H HH) as (Hr & Hlo & _). nia.
Qed.

(** On the grid the walk stands on the cells. *)
Lemma walk_at_cell (k : nat) :
  (k < cell_count W H T)%nat -> walk_at W H T k = cell_at W T k.
Proof using HT HW HH.
  intros Hk. destruct (index_bounds k Hk) as [_ Hj].
  unfold walk_at, cell_at. f_equal.
  destruct (Z.le_gt_cases T H) as [Hle | Hgt].
  - rewrite Z.min_l by exact Hle. reflexivity.
  - rewrite one_row in Hj by lia.
    replace (Z.of_nat k / ceil_div W T) with 0 by lia. reflexivity.
Qed.

(** The cursor is above the bottom of the canvas exactly on the cells of
    the grid. *)
Lemma walk_in_canvas (k : nat) :
  snd (walk_at W H T k) < H <-> (k < cell_count W H T)%nat.
Proof using HT HW HH.
  split.
  - unfold walk_at, cell_count. cbn [snd].
    pose proof cols_pos as Hc.
    pose proof (ceil_div_bounds H HH) as (Hr & Hlo & Hhi).
    set (cols := ceil_div W T) in *. set (rows := ceil_div H T) in *.
    pose proof (Z.div_mod (Z.of_nat k) cols ltac:(lia)) as Hdm.
    pose proof (Z.mod_pos_bound (Z.of_nat k) cols Hc) as Hm.
    assert (Hj : 0 <= Z.of_nat k / cols) by (apply Z.div_pos; lia).
    intros Hy.
    assert (Z.of_nat k / cols < rows).
    { destruct (Z.le_gt_cases T H) as [Hle | Hgt].
      - rewrite Z.min_l in Hy by exact Hle. nia.
      - rewrite Z.min_r in Hy by lia. nia. }
    nia.
  - intros Hk. rewrite (walk_at_cell k Hk). apply cell_range, Hk.
Qed.

(** Up to the end of the grid the cursor stays within twice the canvas
    height. *)
Lemma walk_bounds (k : nat) :
  (k <= cell_count W H T)%nat ->
  0 <= fst (walk_at W H T k) < W /\ 0 <= snd (walk_at W H T k) < 2 * H.
Proof using HT HW HH.
  intros Hk. apply Nat.lt_eq_cases in Hk. destruct Hk as [Hk | ->].
  - rewrite (walk_at_cell k Hk). pose proof (cell_range k Hk). lia.
  - unfold walk_at, cell_count. cbn [fst snd].
    pose proof cols_pos as Hc.
    pose proof (ceil_div_bounds H HH) as (Hr & Hlo & Hhi).
    rewrite Z2Nat.id by nia.
    replace (ceil_div W T * ceil_div H T)
      with (ceil_div H T * ceil_div W T) by lia.
    rewrite Z.mod_mul, Z.div_mul by lia.
    split; [lia|].
    destruct (Z.le_gt_cases T H) as [Hle | Hgt].
    + rewrite Z.min_l by exact Hle. nia.
    + rewrite Z.min_r by lia. rewrite one_row by lia. lia.
Qed.

Lemma cell_at_inj (k k' : nat) : cell_at W T k = cell_at W T k' -> k = k'.
Proof using HT HW.
  unfold cell_at. intros Heq. injection Heq as Hx Hy.
  pose proof cols_pos as Hc.
  pose proof (Z.div_mod (Z.of_nat k) (ceil_div W T) ltac:(lia)).
  pose proof (Z.div_mod (Z.of_nat k') (ceil_div W T) ltac:(lia)).
  assert (Z.of_nat k mod ceil_div W T = Z.of_nat k' mod ceil_div W T) by nia.
  assert (Z.of_nat k / ceil_div W T = Z.of_nat k' / ceil_div W T) by nia.
  apply Nat2Z.inj. congruence.
Qed.

(** Cells in comparator order are in index order. *)
Lemma cell_order (k k' : nat) :
  key_le (cell_at W T k) (cell_at W T k') -> (k <= k')%nat.
Proof using HT HW.
  unfold key_le, cell_at. cbn [fst snd]. intros Hle.
  pose proof cols_pos as Hc.
  set (cols := ceil_div W T) in *.
  pose proof (Z.div_mod (Z.of_nat k) cols ltac:(lia)).
  pose proof (Z.div_mod (Z.of_nat k') cols ltac:(lia)).
  pose proof (Z.mod_pos_bound (Z.of_nat k) cols Hc).
  pose proof (Z.mod_pos_bound (Z.of_nat k') cols Hc).
  apply Nat2Z.inj_le.
  destruct Hle as [Hlt | [Heq Hx]].
  - assert (Z.of_nat k / cols < Z.of_nat k' / cols) by nia. nia.
  - assert (Z.of_nat k / cols = Z.of_nat k' / cols) by nia.
    assert (Z.of_nat k mod cols <= Z.of_nat k' mod cols) by nia. nia.
Qed.

Lemma cell_order_rev (k k' : nat) :
  (k <= k')%nat -> key_le (cell_at W T k) (cell_at W T k').
Proof using HT HW.
  unfold key_le, cell_at. cbn [fst snd]. intros Hle.
  pose proof cols_pos as Hc.
  set (cols := ceil_div W T) in *.
  pose proof (Z.div_mod (Z.of_nat k) cols ltac:(lia)).
  pose proof (Z.div_mod (Z.of_nat k') cols ltac:(lia)).
  pose proof (Z.mod_pos_bound (Z.of_nat k) cols Hc).
  pose proof (Z.mod_pos_bound (Z.of_nat k') cols Hc).
  assert (Hdiv : Z.of_nat k / cols <= Z.of_nat k' / cols)
    by (apply Z.div_le_mono; lia).
  destruct (Z.eq_dec (Z.of_nat k / cols) (Z.of_nat k' / cols)) as [Heq | Hne].
  - right. split; [nia|]. apply Z.mul_le_mono_nonneg_r; [lia|]. nia.
  - left. nia.
Qed.

(** From here on the canvas is one whose size [real_t] holds exactly. *)
Hypothesis HW24 : W < 2 ^ 24.
Hypothesis HH24 : H < 2 ^ 24.

Context {conv : Conversions}.

(** The edge the code cuts at a cursor inside the canvas is the clipped
    edge: the comparison, the difference and its conversion to [int] are
    exact. *)
Lemma gap_edge_clip (X e : Z) :
  0 <= e < X -> X < 2 ^ 24 -> gap_edge (Z.min T X) (real_of_int X) e
  = clip T X e.
Proof using HT.
  intros He HX. unfold gap_edge, clip.
  rewrite to_int64_small by lia.
  rewrite (proj1 (real_ltb_of_int X (e + Z.min T X) ltac:(lia) ltac:(lia))).
  destruct (Z.ltb_spec X (e + Z.min T X)) as [Hlt | Hge].
  - rewrite real_sub_exact by lia.
    rewrite int_of_real_of_int by lia. lia.
  - lia.
Qed.

(** The gap the code cuts at a cursor on the grid is the cell's clipped
    size. *)
Lemma gap_size_clip (k : nat) (c : cursor) :
  (expected_x c, expected_y c) = walk_at W H T k ->
  (k < cell_count W H T)%nat ->
  gap_size (Z.min T W, Z.min T H) (Vector2_of (W, H)) c
  = (clip T W (expected_x c), clip T H (expected_y c)).
Proof using HT HW HH HW24 HH24.
  intros Hc Hk. rewrite (walk_at_cell k Hk) in Hc.
  pose proof (cell_range k Hk) as [Hx Hy]. rewrite <- Hc in Hx, Hy.
  cbn [fst snd] in Hx, Hy.
  unfold gap_size, Vector2_of. cbn [fst snd].
  rewrite !gap_edge_clip by lia. reflexivity.
Qed.

(** Moving past a cell by its clipped width lands on the next cell. *)
Lemma next_cell (k : nat) (c : cursor) :
  (expected_x c, expected_y c) = walk_at W H T k ->
  (k < cell_count W H T)%nat ->
  advance_to (Z.min T W, Z.min T H) (Vector2_of (W, H))
    (expected_x c + clip T W (expected_x c)) c
  = walk_at W H T (S k).
Proof using HT HW HH HW24 HH24.
  intros Hc Hk.
  pose proof (walk_at_cell k Hk) as Hcell. rewrite <- Hc in Hcell.
  pose proof (cell_range k Hk) as [Hxr Hyr]. rewrite <- Hcell in Hxr, Hyr.
  cbn [fst snd] in Hxr, Hyr.
  unfold walk_at in *. injection Hc as Hx Hy.
  pose proof (ceil_div_bounds W HW) as (Hcols & Hlo & Hhi).
  pose proof (Z.mod_pos_bound (Z.of_nat k) (ceil_div W T) Hcols) as Hm.
  unfold advance_to, clip, Vector2_of. cbn [fst snd].
  rewrite (proj1 (real_leb_of_int W
                    (expected_x c + Z.min T (W - expected_x c))
                    ltac:(lia) ltac:(lia))).
  destruct (next_index k) as [(Hlt & -> & ->) | (Heq & -> & ->)].
  - assert (Hfit : expected_x c + T < W) by nia.
    rewrite Z.min_l by lia.
    destruct (Z.leb_spec W (expected_x c + T)); [lia|].
    rewrite Hx, Hy. f_equal. lia.
  - assert (Hend : W <= expected_x c + T) by nia.
    rewrite Z.min_r by lia.
    destruct (Z.leb_spec W (expected_x c + (W - expected_x c))); [|lia].
    rewrite to_int64_small by lia.
    rewrite Hy. f_equal. lia.
Qed.

(** The loop test of the gap loop in front of a tile on cell [k'], with
    the cursor on cell [k]. *)
Lemma at_pos_cell (k k' : nat) (c : cursor) :
  (expected_x c, expected_y c) = walk_at W H T k ->
  (k < cell_count W H T)%nat -> (k' < cell_count W H T)%nat ->
  at_pos (Vector2_of (cell_at W T k')) c = true <-> k = k'.
Proof using HT HW HH HW24 HH24.
  intros Hc Hk Hk'. rewrite (walk_at_cell k Hk) in Hc.
  pose proof (cell_range k Hk) as [Hx Hy]. rewrite <- Hc in Hx, Hy.
  pose proof (cell_range k' Hk') as [Hx' Hy'].
  cbn [fst snd] in Hx, Hy.
  unfold at_pos, Vector2_of. cbn [fst snd].
  rewrite !real_eqb_of_int by lia.
  rewrite andb_true_iff, !Z.eqb_eq. split.
  - intros [Ex Ey]. apply cell_at_inj. rewrite <- Hc.
    destruct (cell_at W T k'). cbn [fst snd] in *. congruence.
  - intros <-. rewrite <- Hc. cbn [fst snd]. auto.
Qed.

(** Distinct cells of the grid have distinct offsets. *)
Lemma cell_offset_inj (k k' : nat) :
  (k < cell_count W H T)%nat -> (k' < cell_count W H T)%nat ->
  Vector2_of (cell_at W T k) = Vector2_of (cell_at W T k') -> k = k'.
Proof using HT HW HH HW24 HH24.
  intros Hk Hk' Heq.
  pose proof (cell_range k Hk) as [Hx Hy].
  pose proof (cell_range k' Hk') as [Hx' Hy'].
  unfold Vector2_of in Heq. injection Heq as Ex Ey.
  unfold cell_at in Hx, Hy, Hx', Hy'. cbn [fst snd] in Hx, Hy, Hx', Hy'.
  apply real_of_int_inj in Ex, Ey; try lia.
  apply cell_at_inj. unfold cell_at. congruence.
Qed.

End Grid.

(** ** Tile reassembly: the walk *)

Lemma NoDup_map_eq {A B} (f : A -> B) (l : list A) (x y : A) :
  NoDup (map f l) -> x ∈ l -> y ∈ l -> f x = f y -> x = y.
Proof.
  induction l as [|a l IH]; intros Hnd Hx Hy Hxy.
  - inversion Hx.
  - simpl in Hnd. apply NoDup_cons in Hnd. destruct Hnd as [Hnotin Hnd].
    assert (Hfresh : forall z, z ∈ l -> f z <> f a).
    { intros z Hz Heq. apply Hnotin. rewrite <- Heq.
      apply list_elem_of_In, in_map, list_elem_of_In, Hz. }
    apply elem_of_cons in Hx. apply elem_of_cons in Hy.
    destruct Hx as [-> | Hx], Hy as [-> | Hy].
    + reflexivity.
    + exfalso. apply (Hfresh y Hy). congruence.
    + exfalso. apply (Hfresh x Hx). congruence.
    + apply IH; assumption.
Qed.

Section Walk.
Context {api : ImageApi} {conv : Conversions}.
Variables W H T : Z.
Variable pieces : list Piece.
Hypothesis HT : 0 < T.
Hypothesis HW : 0 < W.
Hypothesis HH : 0 < H.
Hypothesis HW24 : W < 2 ^ 24.
Hypothesis HH24 : H < 2 ^ 24.
Hypothesis Hdistinct : NoDup (map offset pieces).

Local Abbreviation at_cell := (covered_to W H T pieces).
Local Abbreviation largest := (Z.min T W, Z.min T H).
Local Abbreviation canvas := (Vector2_of (W, H)).
Local Abbreviation cells := (cell_count W H T).

Lemma at_cell_start : at_cell 0 (mkCursor 0 0 [] []).
Proof.
  unfold covered_to, walk_at.
  cbn [expected_x expected_y offsets images seq map].
  rewrite Zmod_0_l, Zdiv_0_l. repeat split. constructor.
Qed.

Lemma filled_real p k :
  p ∈ pieces -> offset p = Vector2_of (cell_at W T k) ->
  filled W H T pieces (cell_at W T k) (texture p).
Proof.
  intros Hin Hp. split.
  - intros q Hq Heq. f_equal. symmetry.
    apply (NoDup_map_eq offset pieces q p Hdistinct Hq Hin). congruence.
  - intros Hv. exfalso. apply (Hv p Hin). exact Hp.
Qed.

Lemma filled_gap pos mipmaps format :
  vacant pieces pos ->
  filled W H T pieces pos
    (create_empty (clip T W (fst pos)) (clip T H (snd pos)) mipmaps format).
Proof.
  intros Hv. split.
  - intros p Hp Heq. exfalso. apply (Hv p Hp Heq).
  - intros _. eauto.
Qed.

(** One round of a gap loop on a vacant cell. *)
Lemma emit_gap_step k c mipmaps format :
  at_cell k c -> (k < cells)%nat -> vacant pieces (cell_at W T k) ->
  at_cell (S k) (emit_gap largest canvas mipmaps format c).
Proof.
  intros (Hpos & Hoff & Hout) Hk Hv. unfold emit_gap.
  rewrite (gap_size_clip W H T HT HW HH HW24 HH24 k c Hpos Hk).
  cbn [fst snd].
  pose proof (walk_at_cell W H T HT HW HH k Hk) as Hcell.
  rewrite <- Hpos in Hcell.
  pose proof (cell_range W H T HT HW HH k Hk) as [Hx Hy].
  rewrite <- Hcell in Hx, Hy. cbn [fst snd] in Hx, Hy.
  rewrite to_int64_small by (unfold clip; lia).
  rewrite (next_cell W H T HT HW HH HW24 HH24 k c Hpos Hk).
  destruct (walk_at W H T (S k)) as [x y] eqn:Hnext.
  unfold covered_to. cbn [expected_x expected_y offsets images].
  split; [symmetry; exact Hnext|].
  rewrite seq_S, !map_app, Hoff, Hcell. cbn [map Nat.add].
  split; [reflexivity|].
  apply Forall2_app; [exact Hout|].
  constructor; [|constructor].
  rewrite <- Hcell. apply (filled_gap (expected_x c, expected_y c)).
  rewrite Hcell. exact Hv.
Qed.

(** The inner gap loop reaches a cell [d] steps ahead when the cells in
    between are vacant. *)
Lemma fill_until_reach d : forall k c fuel img,
  at_cell k c ->
  (forall j, (k <= j < k + d)%nat -> vacant pieces (cell_at W T j)) ->
  (k + d < cells)%nat ->
  (d <= fuel)%nat ->
  exists c',
    fill_until fuel largest canvas (Vector2_of (cell_at W T (k + d))) img c
    = Some c'
    /\ at_cell (k + d) c' /\ (images c <> [] -> images c' <> []).
Proof.
  induction d as [|d IH]; intros k c fuel img Hc Hvac Hend Hfuel.
  - rewrite Nat.add_0_r in *. exists c. split; [|split; [exact Hc | auto]].
    destruct Hc as (Hpos & _). rewrite fill_until_eq.
    rewrite (proj2 (at_pos_cell W H T HT HW HH HW24 HH24 k k c Hpos Hend
                      Hend) eq_refl).
    reflexivity.
  - destruct fuel as [|fuel]; [lia|].
    assert (Hne : at_pos (Vector2_of (cell_at W T (k + S d))) c = false).
    { apply not_true_is_false. intros Htrue.
      destruct Hc as (Hpos & _).
      apply (at_pos_cell W H T HT HW HH HW24 HH24 k (k + S d) c Hpos)
        in Htrue; lia. }
    rewrite fill_until_eq, Hne.
    assert (Hstep : at_cell (S k)
              (emit_gap largest canvas (has_mipmaps img) (get_format img) c)).
    { apply emit_gap_step; [exact Hc | lia |]. apply Hvac. lia. }
    destruct (IH (S k) _ fuel img Hstep) as (c' & Hrun & Hc' & Hne');
      [intros j Hj; apply Hvac; lia | lia | lia |].
    replace (k + S d)%nat with (S k + d)%nat by lia.
    exists c'. split; [exact Hrun|]. split; [exact Hc'|].
    intros _. apply Hne', emit_gap_images.
Qed.

(** Placing a supplied tile that sits on the cursor's cell. *)
Lemma place_on_cell k c p :
  at_cell k c -> (k < cells)%nat -> p ∈ pieces ->
  offset p = Vector2_of (cell_at W T k) ->
  width (texture p) = clip T W (fst (cell_at W T k)) ->
  forall x y,
    advance_to largest canvas
      (int_of_real 64
         (real_add (fst (offset p)) (real_of_int (width (texture p))))) c
    = (x, y) ->
    at_cell (S k)
      (mkCursor x y (images c ++ [texture p]) (offsets c ++ [offset p])).
Proof.
  intros (Hpos & Hoff & Hout) Hk Hin Hp Hw x y Hadv.
  pose proof (walk_at_cell W H T HT HW HH k Hk) as Hcell.
  rewrite <- Hpos in Hcell.
  pose proof (cell_range W H T HT HW HH k Hk) as [Hx Hy].
  rewrite <- Hcell in Hx, Hy, Hw, Hp. cbn [fst snd] in Hx, Hy, Hw.
  rewrite Hp, Hw in Hadv.
  change (fst (Vector2_of (expected_x c, expected_y c)))
    with (real_of_int (expected_x c)) in Hadv.
  rewrite real_add_exact in Hadv by (unfold clip; lia).
  rewrite int_of_real_of_int in Hadv by (unfold clip; lia).
  rewrite (next_cell W H T HT HW HH HW24 HH24 k c Hpos Hk) in Hadv.
  unfold covered_to. cbn [expected_x expected_y offsets images].
  split; [symmetry; exact Hadv|].
  rewrite seq_S, !map_app, Hoff, Hp, Hcell. cbn [map Nat.add].
  split; [reflexivity|].
  apply Forall2_app; [exact Hout|].
  constructor; [|constructor]. apply filled_real; [exact Hin|].
  rewrite Hp, Hcell. reflexivity.
Qed.

(** The loop over the sorted tiles: [ks] are the cells of the tiles still
    to place, in increasing order; every supplied tile at or after the
    cursor is among them. *)
Lemma place_pieces_spec R : forall ks k c fuel,
  at_cell k c ->
  (k <= cells)%nat ->
  Forall2 (fun kk p =>
             offset p = Vector2_of (cell_at W T kk) /\ p ∈ pieces
             /\ width (texture p) = clip T W (fst (cell_at W T kk))) ks R ->
  StronglySorted lt ks ->
  Forall (fun kk => (k <= kk < cells)%nat) ks ->
  (forall p j, p ∈ pieces -> offset p = Vector2_of (cell_at W T j) ->
               (k <= j < cells)%nat -> j ∈ ks) ->
  (cells <= fuel)%nat ->
  exists c' k',
    place_pieces fuel largest canvas R c = Some c'
    /\ at_cell k' c' /\ (k' <= cells)%nat
    /\ (forall j, (k' <= j < cells)%nat -> vacant pieces (cell_at W T j))
    /\ (R <> [] \/ images c <> [] -> images c' <> []).
Proof.
  induction R as [|p R IH]; intros ks k c fuel Hc Hk Hks Hsorted Hrange
    Hall Hfuel.
  - apply Forall2_nil_inv_r in Hks. subst ks.
    exists c, k. split; [reflexivity|]. split; [exact Hc|].
    split; [exact Hk|]. split.
    + intros j Hj q Hq Heq.
      assert (Hin : j ∈ @nil nat) by (apply (Hall q j Hq Heq Hj)).
      inversion Hin.
    + intros [Hne | Hne]; [congruence | exact Hne].
  - apply Forall2_cons_inv_r in Hks.
    destruct Hks as (k1 & ks' & (Hp & Hin & Hw) & Hks' & ->).
    apply StronglySorted_inv in Hsorted. destruct Hsorted as [Hsorted Hlt].
    apply Forall_cons in Hrange. destruct Hrange as [Hk1 Hrange].
    assert (Hvac : forall j, (k <= j < k + (k1 - k))%nat ->
                             vacant pieces (cell_at W T j)).
    { intros j Hj q Hq Heq.
      assert (Hj' : j ∈ k1 :: ks') by (apply (Hall q j Hq Heq); lia).
      apply elem_of_cons in Hj'. destruct Hj' as [-> | Hj']; [lia|].
      rewrite Forall_forall in Hlt. specialize (Hlt j Hj'). lia. }
    destruct (fill_until_reach (k1 - k) k c fuel (texture p) Hc Hvac)
      as (c1 & Hrun & Hc1 & Hne1); [lia | lia |].
    replace (k + (k1 - k))%nat with k1 in Hrun, Hc1 by lia.
    rewrite <- Hp in Hrun. cbn [place_pieces]. rewrite Hrun.
    destruct (advance_to largest canvas _ c1) as [x y] eqn:Hadv.
    pose proof (place_on_cell k1 c1 p Hc1 ltac:(lia) Hin Hp Hw x y Hadv)
      as Hc2.
    destruct (IH ks' (S k1)
                (mkCursor x y (images c1 ++ [texture p])
                   (offsets c1 ++ [offset p])) fuel Hc2)
      as (c' & k' & Hrun' & Hc' & Hk' & Hvac' & Hne'); try assumption.
    + lia.
    + rewrite Forall_forall in Hlt, Hrange |- *.
      intros j Hj. specialize (Hlt j Hj). specialize (Hrange j Hj). lia.
    + intros q j Hq Heq Hj.
      assert (Hj' : j ∈ k1 :: ks') by (apply (Hall q j Hq Heq); lia).
      apply elem_of_cons in Hj'. destruct Hj' as [-> | Hj']; [lia|].
      exact Hj'.
    + exists c', k'. split; [exact Hrun'|]. split; [exact Hc'|].
      split; [exact Hk'|]. split; [exact Hvac'|].
      intros _. apply Hne'. right. cbn [images]. intros Hnil.
      apply app_eq_nil in Hnil. destruct Hnil; discriminate.
Qed.

(** The closing gap loop fills the [d] cells that are left. *)
Lemma fill_rest_spec d : forall k c fuel,
  at_cell k c ->
  (k + d = cells)%nat ->
  images c <> [] ->
  (forall j, (k <= j < cells)%nat -> vacant pieces (cell_at W T j)) ->
  (d <= fuel)%nat ->
  exists imgs,
    fill_rest fuel largest canvas c
    = Some (Reassembled imgs (map Vector2_of (grid W H T)))
    /\ Forall2 (filled W H T pieces) (grid W H T) imgs.
Proof.
  induction d as [|d IH]; intros k c fuel Hc Hk Hne Hvac Hfuel;
    rewrite fill_rest_eq;
    destruct (images c) as [|first rest] eqn:Himgs; try congruence;
    pose proof Hc as (Hpos & Hoff & Hout);
    assert (Hy : expected_y c = snd (walk_at W H T k))
      by (rewrite <- Hpos; reflexivity);
    pose proof (walk_bounds W H T HT HW HH k ltac:(lia)) as [_ Hyb];
    change (snd canvas) with (real_of_int H); rewrite Hy;
    rewrite (proj2 (real_ltb_of_int H (snd (walk_at W H T k))
                      ltac:(lia) ltac:(lia))).
  - assert (Hk' : k = cells) by lia.
    destruct (Z.ltb_spec (snd (walk_at W H T k)) H) as [Hlt | Hge].
    { apply (walk_in_canvas W H T HT HW HH) in Hlt. lia. }
    exists (first :: rest). unfold grid. rewrite <- Hk', <- Hoff.
    split; [reflexivity|]. rewrite <- Himgs. exact Hout.
  - destruct (Z.ltb_spec (snd (walk_at W H T k)) H) as [Hlt | Hge].
    2:{ assert (Hin : (k < cells)%nat) by lia.
        apply (walk_in_canvas W H T HT HW HH) in Hin. lia. }
    destruct fuel as [|fuel]; [lia|].
    apply (IH (S k)); try lia.
    + apply emit_gap_step; [exact Hc | lia |]. apply Hvac. lia.
    + apply emit_gap_images.
    + intros j Hj. apply Hvac. lia.
Qed.

End Walk.

(** ** Tile reassembly: the comparator *)

Lemma real_ltb_key (x y : real_t) :
  real_ltb x y = true
  <-> exists a b,
        real_key x = Some a /\ real_key y = Some b /\ key_compare a b = Lt.
Proof.
  unfold real_ltb, SFltb. rewrite real_compare_key.
  destruct (real_key x) as [a|], (real_key y) as [b|]; split;
    try discriminate; try (intros (? & ? & ? & ? & ?); congruence).
  - intros H. exists a, b. split; [reflexivity|]. split; [reflexivity|].
    destruct (key_compare a b);
      [discriminate H | reflexivity | discriminate H].
  - intros (a' & b' & Ha & Hb & Hc).
    injection Ha as <-. injection Hb as <-. rewrite Hc. reflexivity.
Qed.

Lemma real_eqb_key (x y : real_t) :
  real_eqb x y = true
  <-> exists a, real_key x = Some a /\ real_key y = Some a.
Proof.
  unfold real_eqb, SFeqb. rewrite real_compare_key.
  destruct (real_key x) as [a|], (real_key y) as [b|]; split;
    try discriminate; try (intros (? & ? & ?); congruence).
  - intros H. exists a. split; [reflexivity|].
    pose proof (key_compare_spec a b) as Hs.
    destruct (key_compare a b);
      [f_equal; symmetry; exact Hs | discriminate H | discriminate H].
  - intros (a' & Ha & Hb). assert (Hab : a = b) by congruence. subst b.
    pose proof (key_compare_spec a a) as Hs.
    destruct (key_compare a a); [reflexivity | lia | lia].
Qed.

(** Both tiles' coordinates of one axis, as keys. *)
Lemma real_ltb_keys (x y : real_t) a b :
  real_key x = Some a -> real_key y = Some b ->
  real_ltb x y = true <-> key_compare a b = Lt.
Proof.
  intros Ha Hb. rewrite real_ltb_key. split.
  - intros (a' & b' & Ha' & Hb' & Hc). congruence.
  - intros Hc. exists a, b. auto.
Qed.

Lemma real_eqb_keys (x y : real_t) a b :
  real_key x = Some a -> real_key y = Some b ->
  real_eqb x y = true <-> a = b.
Proof.
  intros Ha Hb. rewrite real_eqb_key. split.
  - intros (a' & Ha' & Hb'). congruence.
  - intros <-. exists a. auto.
Qed.

(** The comparator, read on its definition: rows first, then columns. *)
Lemma compare_rows_first (a b : Piece) :
  CustomPieceSort.compare a b = true
  <-> real_ltb (snd (offset a)) (snd (offset b)) = true
      \/ (real_eqb (snd (offset a)) (snd (offset b)) = true
          /\ real_ltb (fst (offset a)) (fst (offset b)) = true).
Proof.
  unfold CustomPieceSort.compare.
  destruct (real_eqb (snd (offset a)) (snd (offset b))) eqn:Heq;
    cbn [negb].
  - split; [auto|]. intros [Hlt | [_ Hlt]]; [|exact Hlt]. exfalso.
    apply real_eqb_key in Heq. destruct Heq as (k & Ha & Hb).
    apply (real_ltb_keys _ _ k k Ha Hb) in Hlt.
    pose proof (key_compare_spec k k) as Hs. rewrite Hlt in Hs. lia.
  - split; [auto|]. intros [Hlt | [Hf _]]; [exact Hlt | discriminate].
Qed.

Lemma compare_asym (a b : Piece) :
  CustomPieceSort.compare a b = true -> CustomPieceSort.compare b a = false.
Proof.
  intros Hab. apply not_true_is_false. intros Hba.
  apply compare_rows_first in Hab, Hba.
  repeat match goal with
  | H : _ \/ _ |- _ => destruct H
  | H : _ /\ _ |- _ => destruct H
  | H : real_ltb _ _ = true |- _ =>
      apply real_ltb_key in H; destruct H as (? & ? & ? & ? & ?)
  | H : real_eqb _ _ = true |- _ =>
      apply real_eqb_key in H; destruct H as (? & ? & ?)
  end;
  repeat match goal with
  | H1 : real_key ?x = Some ?a, H2 : real_key ?x = Some ?b |- _ =>
      assert (a = b) by congruence; subst; clear H2
  end;
  repeat match goal with
  | H : key_compare ?a ?b = Lt |- _ =>
      let Hs := fresh in
      pose proof (key_compare_spec a b) as Hs; rewrite H in Hs; clear H
  end; lia.
Qed.

#[global] Instance piece_le_total : Total piece_le.
Proof.
  intros a b. unfold piece_le.
  destruct (CustomPieceSort.compare b a) eqn:Hba; [|left; reflexivity].
  right. apply compare_asym, Hba.
Qed.

Lemma sort_custom_sorted pieces : Sorted piece_le (sort_custom pieces).
Proof. apply Sorted_merge_sort, _. Qed.

#[global] Instance key_le_trans : Transitive key_le.
Proof. intros a b c. unfold key_le. lia. Qed.

#[global] Instance key_le_antisym : AntiSymm (=) key_le.
Proof.
  intros [x y] [x' y']. unfold key_le. cbn [fst snd]. intros H1 H2.
  f_equal; lia.
Qed.

(** On tiles whose offsets are integers that [real_t] holds exactly, the
    comparator is the row-major order of the integers. *)
Lemma piece_le_key (a b : Piece) (ca cb : Z * Z) :
  offset a = Vector2_of ca -> offset b = Vector2_of cb ->
  0 <= fst ca < 2 ^ 24 -> 0 <= snd ca < 2 ^ 24 ->
  0 <= fst cb < 2 ^ 24 -> 0 <= snd cb < 2 ^ 24 ->
  piece_le a b <-> key_le ca cb.
Proof.
  intros Ha Hb Hax Hay Hbx Hby.
  unfold piece_le, CustomPieceSort.compare, key_le.
  rewrite Ha, Hb. unfold Vector2_of. cbn [fst snd].
  rewrite real_eqb_of_int by lia.
  rewrite (proj1 (real_ltb_of_int (snd cb) (snd ca) ltac:(lia) ltac:(lia))).
  rewrite (proj1 (real_ltb_of_int (fst cb) (fst ca) ltac:(lia) ltac:(lia))).
  destruct (Z.eqb_spec (snd cb) (snd ca)) as [Heq | Hne]; cbn [negb];
    rewrite Z.ltb_ge; lia.
Qed.

Lemma Sorted_StronglySorted_on {A} (R : relation A) (P : A -> Prop) l :
  (forall x y z, P x -> P y -> P z -> R x y -> R y z -> R x z) ->
  Forall P l -> Sorted R l -> StronglySorted R l.
Proof.
  intros Htrans Hall Hsorted.
  induction Hsorted as [|x l Hl IH Hhd]; [constructor|].
  apply Forall_cons in Hall. destruct Hall as [Hx Hall].
  specialize (IH Hall). constructor; [exact IH|].
  destruct Hhd as [|y l' Hxy]; [constructor|].
  apply Forall_cons in Hall. destruct Hall as [Hy Hall'].
  apply StronglySorted_inv in IH. destruct IH as [_ Hyl].
  constructor; [exact Hxy|].
  rewrite Forall_forall in Hyl, Hall' |- *.
  intros z Hz. apply (Htrans x y z); auto.
Qed.

(** A strictly increasing list of [n] numbers from [a, a + n) is that
    interval. *)
Lemma sorted_lt_seq (ks : list nat) : forall a,
  StronglySorted lt ks ->
  Forall (fun k => (a <= k < a + length ks)%nat) ks ->
  ks = seq a (length ks).
Proof.
  induction ks as [|k ks IH]; intros a Hsorted Hrange; [reflexivity|].
  apply StronglySorted_inv in Hsorted. destruct Hsorted as [Hsorted Hlt].
  apply Forall_cons in Hrange. destruct Hrange as [Hk Hrange].
  cbn [length] in *.
  assert (Hrest : ks = seq (S k) (length ks)).
  { apply IH; [exact Hsorted|].
    rewrite Forall_forall in Hlt, Hrange |- *.
    intros j Hj. specialize (Hlt j Hj). specialize (Hrange j Hj). lia. }
  assert (Hka : k = a).
  { destruct ks as [|k' ks']; [simpl in Hk; lia|].
    assert (Hlast : (S k + length ks')%nat
                    ∈ seq (S k) (length (k' :: ks'))).
    { apply list_elem_of_In, in_seq. cbn [length]. lia. }
    rewrite <- Hrest in Hlast.
    rewrite Forall_forall in Hrange. specialize (Hrange _ Hlast).
    cbn [length] in Hrange. lia. }
  subst k. cbn [seq]. f_equal. exact Hrest.
Qed.

(** ** Tile reassembly: coverage *)

Section Coverage.
Context {api : ImageApi} {conv : Conversions}.
Variables W H T : Z.
Hypothesis HT : 0 < T.
Hypothesis HW : 0 < W < 2 ^ 24.
Hypothesis HH : 0 < H < 2 ^ 24.

Let HW0 : 0 < W := proj1 HW.
Let HH0 : 0 < H := proj1 HH.
Let HW24 : W < 2 ^ 24 := proj2 HW.
Let HH24 : H < 2 ^ 24 := proj2 HH.

Local Abbreviation on_cell pieces :=
  (fun kk p =>
     offset p = Vector2_of (cell_at W T kk) /\ p ∈ pieces
     /\ width (texture p) = clip T W (fst (cell_at W T kk))).

Lemma max_size_le ps : forall m,
  fst m <= Z.min T W -> snd m <= Z.min T H ->
  Forall (grid_tile W H T) ps ->
  fst (max_size m ps) <= Z.min T W /\ snd (max_size m ps) <= Z.min T H.
Proof using HT HW HH.
  induction ps as [|p ps IH]; intros m Hx Hy Hall; simpl.
  - auto.
  - apply Forall_cons in Hall.
    destruct Hall as [(k & Hk & _ & Hw & Hh) Hall].
    pose proof (cell_range W H T HT HW0 HH0 k Hk) as [Hxr Hyr].
    apply IH; [| |exact Hall]; cbn [fst snd];
      unfold clip in *; lia.
Qed.

Lemma max_size_ge ps : forall m,
  fst m <= fst (max_size m ps) /\ snd m <= snd (max_size m ps)
  /\ Forall (fun p => width (texture p) <= fst (max_size m ps)
                      /\ height (texture p) <= snd (max_size m ps)) ps.
Proof using Type.
  induction ps as [|p ps IH]; intros m; simpl.
  - repeat split; try lia. constructor.
  - destruct (IH (Z.max (fst m) (width (texture p)),
                  Z.max (snd m) (height (texture p)))) as (Hx & Hy & Hall).
    cbn [fst snd] in Hx, Hy.
    repeat split; try lia. constructor; [lia | exact Hall].
Qed.

(** With a tile of full width and a tile of full height among them, grid
    tiles have largest size [min T W] x [min T H]. *)
Lemma max_size_grid ps :
  Forall (grid_tile W H T) ps ->
  Exists (fun p => width (texture p) = Z.min T W) ps ->
  Exists (fun p => height (texture p) = Z.min T H) ps ->
  max_size (0, 0) ps = (Z.min T W, Z.min T H).
Proof using HT HW HH.
  intros Hall Hw Hh.
  destruct (max_size_le ps (0, 0)) as [Hx Hy]; cbn [fst snd];
    [lia | lia | exact Hall |].
  destruct (max_size_ge ps (0, 0)) as (_ & _ & Hge).
  rewrite Forall_forall in Hge.
  apply Exists_exists in Hw, Hh.
  destruct Hw as (p & Hp & Hpw), Hh as (q & Hq & Hqh).
  destruct (Hge p Hp) as [Hpx _]. destruct (Hge q Hq) as [_ Hqy].
  destruct (max_size (0, 0) ps) as [mx my]. cbn [fst snd] in *.
  f_equal; lia.
Qed.

(** On grid tiles the comparator is the order of the cells. *)
Lemma piece_le_cells (a b : Piece) (ka kb : nat) :
  (ka < cell_count W H T)%nat -> (kb < cell_count W H T)%nat ->
  offset a = Vector2_of (cell_at W T ka) ->
  offset b = Vector2_of (cell_at W T kb) ->
  piece_le a b <-> (ka <= kb)%nat.
Proof using HT HW HH.
  intros Hka Hkb Ha Hb.
  pose proof (cell_range W H T HT HW0 HH0 ka Hka) as [Hax Hay].
  pose proof (cell_range W H T HT HW0 HH0 kb Hkb) as [Hbx Hby].
  rewrite (piece_le_key a b _ _ Ha Hb) by lia.
  split; [apply cell_order | apply cell_order_rev]; assumption.
Qed.

(** The cells of a sorted list of distinct grid tiles, in increasing
    order. *)
Lemma sorted_cells (pieces S : list Piece) :
  Sorted piece_le S ->
  NoDup (map offset S) ->
  Forall (fun p => grid_tile W H T p /\ p ∈ pieces) S ->
  exists ks,
    Forall2 (on_cell pieces) ks S
    /\ StronglySorted lt ks
    /\ Forall (fun kk => (kk < cell_count W H T)%nat) ks.
Proof using HT HW HH.
  intros Hsorted Hnd Hall.
  assert (Hstrong : StronglySorted piece_le S).
  { apply (Sorted_StronglySorted_on piece_le (grid_tile W H T));
      [| |exact Hsorted].
    - intros x y z (kx & Hkx & Hx & _) (ky & Hky & Hy & _)
        (kz & Hkz & Hz & _).
      rewrite (piece_le_cells x y kx ky), (piece_le_cells y z ky kz),
        (piece_le_cells x z kx kz) by assumption. lia.
    - rewrite Forall_forall in Hall |- *. intros p Hp. apply Hall, Hp. }
  clear Hsorted. revert Hnd Hall.
  induction Hstrong as [|p S HS IH Hle]; intros Hnd Hall.
  - exists []. repeat split; constructor.
  - simpl in Hnd. apply NoDup_cons in Hnd. destruct Hnd as [Hfresh Hnd].
    apply Forall_cons in Hall.
    destruct Hall as [[(k & Hk & Hcell & Hw & Hh) Hin] Hall].
    destruct (IH Hnd Hall) as (ks & Hks & Hlt & Hrange).
    exists (k :: ks). split; [|split].
    + constructor; [auto | exact Hks].
    + constructor; [exact Hlt|].
      clear IH Hlt Hall HS Hnd.
      induction Hks as [|kk q ks S (Hq & _ & _) Hks IHks]; constructor.
      * apply Forall_cons in Hle. destruct Hle as [Hpq _].
        apply Forall_cons in Hrange. destruct Hrange as [Hkk _].
        apply (piece_le_cells p q k kk Hk Hkk Hcell Hq) in Hpq.
        assert (k <> kk).
        { intros ->. apply Hfresh. rewrite Hcell, <- Hq. simpl. left. }
        lia.
      * apply IHks.
        -- apply Forall_cons in Hle. apply Hle.
        -- intros Hbad. apply Hfresh. simpl. right. exact Hbad.
        -- apply Forall_cons in Hrange. apply Hrange.
    + constructor; [exact Hk | exact Hrange].
Qed.

Lemma Forall2_elem_r {A B} (R : A -> B -> Prop) l1 l2 y :
  Forall2 R l1 l2 -> y ∈ l2 -> exists x, x ∈ l1 /\ R x y.
Proof using Type.
  induction 1 as [|a b l1 l2 Hab Hrest IH]; intros Hy.
  - inversion Hy.
  - apply elem_of_cons in Hy. destruct Hy as [-> | Hy].
    + exists a. split; [left | exact Hab].
    + destruct (IH Hy) as (x & Hx & HR). exists x. split; [right|]; auto.
Qed.

Lemma on_cell_offsets (pieces S : list Piece) ks :
  Forall2 (on_cell pieces) ks S ->
  map offset S = map Vector2_of (map (cell_at W T) ks).
Proof using Type.
  induction 1 as [|k p ks S (Hp & _) Hrest IH]; simpl; [reflexivity|].
  rewrite Hp, IH. reflexivity.
Qed.

Lemma filled_all_real (pieces S : list Piece) ks : forall imgs,
  Forall2 (on_cell pieces) ks S ->
  Forall2 (filled W H T pieces) (map (cell_at W T) ks) imgs ->
  imgs = map texture S.
Proof using Type.
  intros imgs Hks. revert imgs.
  induction Hks as [|k p ks S (Hp & Hin & _) Hrest IH]; intros imgs Hall;
    simpl in Hall.
  - apply Forall2_nil_inv_l in Hall. subst. reflexivity.
  - apply Forall2_cons_inv_l in Hall.
    destruct Hall as (img & imgs' & [Hreal _] & Hall & ->).
    simpl. f_equal; [apply Hreal; assumption | apply IH, Hall].
Qed.

(** The gap-filling walk over a subset of the tiling. *)
Lemma subset_coverage (pieces : list Piece) (res_path : string)
  (fuel : nat) :
  Forall (grid_tile W H T) pieces ->
  NoDup (map offset pieces) ->
  Exists (fun p => width (texture p) = Z.min T W) pieces ->
  Exists (fun p => height (texture p) = Z.min T H) pieces ->
  (cell_count W H T <= fuel)%nat ->
  exists imgs,
    convert fuel res_path (data_of pieces) (Vector2_of (W, H))
    = Some (Reassembled imgs (map Vector2_of (grid W H T)))
    /\ Forall2 (filled W H T pieces) (grid W H T) imgs.
Proof using HT HW HH.
  intros Hgrid Hnd Hw Hh Hfuel.
  unfold convert. rewrite gather_loaded, (max_size_grid _ Hgrid Hw Hh).
  cbn [app].
  pose proof (sort_custom_perm pieces) as Hperm.
  set (S := sort_custom pieces) in *.
  assert (HndS : NoDup (map offset S)).
  { assert (Hmap : map offset S ≡ₚ map offset pieces)
      by (apply Permutation_map; exact Hperm).
    rewrite Hmap. exact Hnd. }
  assert (HallS : Forall (fun p => grid_tile W H T p /\ p ∈ pieces) S).
  { rewrite Forall_forall in Hgrid |- *. intros p Hp.
    rewrite Hperm in Hp. auto. }
  destruct (sorted_cells pieces S (sort_custom_sorted pieces) HndS HallS)
    as (ks & Hks & Hlt & Hrange).
  destruct (place_pieces_spec W H T pieces HT HW0 HH0 HW24 HH24 Hnd S ks
              0%nat (mkCursor 0 0 [] []) fuel (at_cell_start W H T pieces))
    as (c' & k' & Hrun & Hc' & Hk' & Hvac & Hne); auto.
  - lia.
  - rewrite Forall_forall in Hrange |- *. intros j Hj.
    specialize (Hrange j Hj). lia.
  - intros p j Hp Hj Hjr.
    rewrite <- Hperm in Hp.
    destruct (Forall2_elem_r _ _ _ _ Hks Hp) as (kk & Hkk & Hq & _).
    rewrite Hj in Hq.
    rewrite Forall_forall in Hrange. pose proof (Hrange kk Hkk).
    apply (cell_offset_inj W H T HT HW0 HH0 HW24 HH24) in Hq; [|lia|lia].
    subst. exact Hkk.
  - rewrite Hrun.
    apply (fill_rest_spec W H T pieces HT HW0 HH0 HW24 HH24
             (cell_count W H T - k') k');
      auto; try lia.
    apply Hne. left. intros HS.
    apply Exists_exists in Hw. destruct Hw as (p & Hp & _).
    rewrite <- Hperm, HS in Hp. inversion Hp.
Qed.

(** C3, as the code has it.  Canvas [W] x [H] with both edges positive
    and below [2 ^ 24], uniform tile size [T] x [T] with [0 < T]; the
    supplied tiles sit on distinct grid cells and have their cells'
    clipped sizes.  (1) When all tiles are supplied, in any order, the
    reassembled sequence is the input sorted by the row-major comparator.
    (2) When the supplied subset contains a tile of full width, [T] or
    the canvas width if that is smaller, and a tile of full height, the
    output has one image per grid cell, in row-major order,
    [ceil (W / T) * ceil (H / T)] in all: the supplied tile where there is
    one, and otherwise a blank image clipped at the right and bottom
    edges. *)
Theorem tile_reassembly_coverage (pieces : list Piece) (res_path : string)
  (fuel : nat) :
  Forall (grid_tile W H T) pieces ->
  NoDup (map offset pieces) ->
  (cell_count W H T <= fuel)%nat ->
  (map offset pieces ≡ₚ map Vector2_of (grid W H T) ->
   forall sorted,
     sorted ≡ₚ pieces -> Sorted piece_le sorted ->
     convert fuel res_path (data_of pieces) (Vector2_of (W, H))
     = Some (Reassembled (map texture sorted) (map offset sorted)))
  /\ (Exists (fun p => width (texture p) = Z.min T W) pieces ->
      Exists (fun p => height (texture p) = Z.min T H) pieces ->
      exists imgs,
        convert fuel res_path (data_of pieces) (Vector2_of (W, H))
        = Some (Reassembled imgs (map Vector2_of (grid W H T)))
        /\ length imgs = Z.to_nat (ceil_div W T * ceil_div H T)
        /\ Forall2 (filled W H T pieces) (grid W H T) imgs).
Proof using HT HW HH.
  intros Hgrid Hnd Hfuel. split.
  - intros Hall sorted Hperm Hsorted.
    pose proof (cols_pos W T HT HW0) as Hcols.
    pose proof (rows_pos H T HT HH0) as Hrows.
    assert (Hcount : (0 < cell_count W H T)%nat)
      by (unfold cell_count; nia).
    assert (Hfirst : Vector2_of (cell_at W T 0) ∈ map offset pieces).
    { rewrite Hall. unfold grid.
      destruct (cell_count W H T) eqn:Hn; [lia|]. simpl. left. }
    apply list_elem_of_In, in_map_iff in Hfirst.
    destruct Hfirst as (p0 & Hp0 & Hin0). apply list_elem_of_In in Hin0.
    assert (Hsize : width (texture p0) = Z.min T W
                    /\ height (texture p0) = Z.min T H).
    { rewrite Forall_forall in Hgrid.
      destruct (Hgrid p0 Hin0) as (k & Hk & Hoff & Hw & Hh).
      rewrite Hp0 in Hoff.
      apply (cell_offset_inj W H T HT HW0 HH0 HW24 HH24) in Hoff;
        [|lia|lia].
      subst k. unfold cell_at, clip in Hw, Hh. cbn [fst snd] in Hw, Hh.
      rewrite Zmod_0_l, Zdiv_0_l in *. rewrite Hw, Hh.
      split; f_equal; lia. }
    destruct (subset_coverage pieces res_path fuel Hgrid Hnd)
      as (imgs & Hrun & Hfilled); auto.
    { apply Exists_exists. exists p0. tauto. }
    { apply Exists_exists. exists p0. tauto. }
    assert (HndS : NoDup (map offset sorted)).
    { assert (Hmap : map offset sorted ≡ₚ map offset pieces)
        by (apply Permutation_map; exact Hperm).
      rewrite Hmap. exact Hnd. }
    assert (HallS : Forall (fun p => grid_tile W H T p /\ p ∈ pieces)
                      sorted).
    { rewrite Forall_forall in Hgrid |- *. intros p Hp.
      rewrite Hperm in Hp. auto. }
    destruct (sorted_cells pieces sorted Hsorted HndS HallS)
      as (ks & Hks & Hlt & Hrange).
    assert (Hlen : length ks = cell_count W H T).
    { rewrite (Forall2_length _ _ _ Hks), Hperm.
      rewrite <- (length_map offset), Hall. unfold grid.
      rewrite !length_map, length_seq. reflexivity. }
    assert (Hseq : ks = seq 0 (cell_count W H T)).
    { rewrite <- Hlen. apply sorted_lt_seq; [exact Hlt|].
      rewrite Forall_forall in Hrange |- *. intros j Hj.
      specialize (Hrange j Hj). lia. }
    subst ks. rewrite Hrun.
    rewrite (on_cell_offsets pieces sorted _ Hks).
    f_equal. f_equal.
    apply (filled_all_real pieces sorted _ imgs Hks Hfilled).
  - intros Hw Hh.
    destruct (subset_coverage pieces res_path fuel Hgrid Hnd Hw Hh Hfuel)
      as (imgs & Hrun & Hfilled).
    exists imgs. split; [exact Hrun|]. split; [|exact Hfilled].
    apply Forall2_length in Hfilled. rewrite <- Hfilled.
    unfold grid, cell_count. rewrite length_map, length_seq. reflexivity.
Qed.

End Coverage.

(** The clipped edge by remainders: [T] everywhere except on the
    last column (row) when [T] does not divide the extent, where it is the
    remainder. *)
Lemma clip_edge (T extent : Z) (i : Z) :
  0 < T -> 0 < extent -> 0 <= i < ceil_div extent T ->
  clip T extent (i * T)
  = if (i =? ceil_div extent T - 1) && negb (extent mod T =? 0)
    then extent mod T else T.
Proof.
  intros HT He Hi.
  pose proof (ceil_div_bounds T HT extent He) as (Hc & Hlo & Hhi).
  pose proof (Z.div_mod extent T ltac:(lia)) as Hdm.
  pose proof (Z.mod_pos_bound extent T HT) as Hm.
  unfold clip.
  destruct (Z.eqb_spec i (ceil_div extent T - 1)) as [-> | Hne];
    destruct (Z.eqb_spec (extent mod T) 0) as [Hz | Hnz]; cbn [andb negb].
  - assert (Hq : extent / T = ceil_div extent T) by nia.
    assert (Hrest : extent - (ceil_div extent T - 1) * T = T) by nia.
    rewrite Hrest. apply Z.min_id.
  - assert (Hq : extent / T = ceil_div extent T - 1) by nia.
    assert (Hrest : extent - (ceil_div extent T - 1) * T = extent mod T)
      by nia.
    rewrite Hrest. apply Z.min_r. lia.
  - apply Z.min_l. nia.
  - apply Z.min_l. nia.
Qed.

(** With pairwise distinct offsets on a grid the sorted order is unique:
    any sorted arrangement of the tiles is the one [sort_custom]
    returns. *)
Lemma sort_custom_unique (W H T : Z) (pieces S : list Piece) :
  0 < T -> 0 < W < 2 ^ 24 -> 0 < H < 2 ^ 24 ->
  Forall (grid_tile W H T) pieces ->
  NoDup (map offset pieces) -> S ≡ₚ pieces -> Sorted piece_le S ->
  S = sort_custom pieces.
Proof.
  intros HT HW HH Hgrid Hnd Hperm Hsorted.
  assert (Htrans : forall x y z,
            grid_tile W H T x -> grid_tile W H T y -> grid_tile W H T z ->
            piece_le x y -> piece_le y z -> piece_le x z).
  { intros x y z (kx & Hkx & Hx & _) (ky & Hky & Hy & _)
      (kz & Hkz & Hz & _).
    rewrite (piece_le_cells W H T HT HW HH x y kx ky),
      (piece_le_cells W H T HT HW HH y z ky kz),
      (piece_le_cells W H T HT HW HH x z kx kz) by assumption. lia. }
  pose proof (sort_custom_perm pieces) as Hperm'.
  apply (StronglySorted_unique_strong piece_le).
  - intros x y Hx Hy Hxy Hyx.
    rewrite Hperm in Hx. rewrite Hperm' in Hy.
    apply (NoDup_map_eq offset pieces x y Hnd Hx Hy).
    rewrite Forall_forall in Hgrid.
    destruct (Hgrid x Hx) as (kx & Hkx & Hox & _).
    destruct (Hgrid y Hy) as (ky & Hky & Hoy & _).
    apply (piece_le_cells W H T HT HW HH x y kx ky Hkx Hky Hox Hoy) in Hxy.
    apply (piece_le_cells W H T HT HW HH y x ky kx Hky Hkx Hoy Hox) in Hyx.
    assert (kx = ky) by lia. congruence.
  - apply (Sorted_StronglySorted_on piece_le (grid_tile W H T));
      [exact Htrans | | exact Hsorted].
    rewrite Forall_forall in Hgrid |- *. intros p Hp. apply Hgrid.
    rewrite <- Hperm. exact Hp.
  - apply (Sorted_StronglySorted_on piece_le (grid_tile W H T));
      [exact Htrans | | apply sort_custom_sorted].
    rewrite Forall_forall in Hgrid |- *. intros p Hp. apply Hgrid.
    rewrite <- Hperm'. exact Hp.
  - rewrite Hperm. symmetry. exact Hperm'.
Qed.

(** The spec's worked example: canvas 10x6, tiles of 4x4, real tiles at
    (0,0) and (8,0). *)
Example reassembly_10x6 :
  let a := mkImage 4 4 false 0 (repeat x01 16) in
  let b := mkImage 2 4 false 0 (repeat x02 8) in
  convert (api := Sample.api) (conv := x86_64) 6 "res://big.ltex"
    (data_of [mkPiece (Vector2_of (8, 0)) b; mkPiece (Vector2_of (0, 0)) a])
    (Vector2_of (10, 6))
  = Some (Reassembled
            [a; Sample.blank 4 4 false 0; b; Sample.blank 4 2 false 0;
             Sample.blank 4 2 false 0; Sample.blank 2 2 false 0]
            (map Vector2_of
               [(0, 0); (4, 0); (8, 0); (0, 4); (4, 4); (8, 4)])).
Proof. vm_compute. reflexivity. Qed.

Lemma tile_reassembly_coverage_witness :
  let a := mkImage 4 4 false 0 (repeat x01 16) in
  let b := mkImage 2 4 false 0 (repeat x02 8) in
  let low := mkImage 4 3 false 0 (repeat x03 12) in
  let subset :=
    [mkPiece (Vector2_of (8, 0)) b; mkPiece (Vector2_of (0, 0)) a] in
  let left_ := mkPiece (Vector2_of (0, 0)) a in
  let right_ := mkPiece (Vector2_of (4, 0)) a in
  let flat := [mkPiece (Vector2_of (4, 0)) low] in
  (exists imgs,
      convert (api := Sample.api) (conv := x86_64) 6 "res://big.ltex"
        (data_of subset) (Vector2_of (10, 6))
      = Some (Reassembled imgs (map Vector2_of (grid 10 6 4)))
      /\ length imgs = Z.to_nat (ceil_div 10 4 * ceil_div 6 4)
      /\ Forall2 (filled (api := Sample.api) 10 6 4 subset) (grid 10 6 4)
           imgs)
  /\ convert (api := Sample.api) (conv := x86_64) 2 "res://big.ltex"
       (data_of [right_; left_]) (Vector2_of (8, 4))
     = Some (Reassembled [a; a] (map offset [left_; right_]))
  /\ (exists imgs,
        convert (api := Sample.api) (conv := x86_64) 3 "res://big.ltex"
          (data_of flat) (Vector2_of (10, 3))
        = Some (Reassembled imgs (map Vector2_of (grid 10 3 4)))
        /\ length imgs = Z.to_nat (ceil_div 10 4 * ceil_div 3 4)
        /\ Forall2 (filled (api := Sample.api) 10 3 4 flat) (grid 10 3 4)
             imgs).
Proof.
  intros a b low subset left_ right_ flat.
  assert (Hdiff : forall x y : real_t * real_t,
            x <> y -> NoDup ([x] ++ [y])).
  { intros x y Hxy. repeat constructor; rewrite ?elem_of_cons, ?elem_of_nil;
      tauto. }
  split; [|split].
  - refine (proj2 (tile_reassembly_coverage (api := Sample.api)
                     (conv := x86_64) 10 6 4 ltac:(lia)
                     ltac:(split; [lia | reflexivity])
                     ltac:(split; [lia | reflexivity]) subset
                     "res://big.ltex" 6 _ _ _) _ _).
    + repeat constructor.
      * exists 2%nat. split; [vm_compute; lia | repeat split].
      * exists 0%nat. split; [vm_compute; lia | repeat split].
    + apply Hdiff. vm_compute. discriminate.
    + vm_compute. lia.
    + right. left. reflexivity.
    + left. reflexivity.
  - refine (proj1 (tile_reassembly_coverage (api := Sample.api)
                     (conv := x86_64) 8 4 4 ltac:(lia)
                     ltac:(split; [lia | reflexivity])
                     ltac:(split; [lia | reflexivity]) [right_; left_]
                     "res://big.ltex" 2 _ _ _) _ [left_; right_] _ _).
    + repeat constructor.
      * exists 1%nat. split; [vm_compute; lia | repeat split].
      * exists 0%nat. split; [vm_compute; lia | repeat split].
    + apply Hdiff. vm_compute. discriminate.
    + vm_compute. lia.
    + apply perm_swap.
    + apply perm_swap.
    + repeat constructor.
  - refine (proj2 (tile_reassembly_coverage (api := Sample.api)
                     (conv := x86_64) 10 3 4 ltac:(lia)
                     ltac:(split; [lia | reflexivity])
                     ltac:(split; [lia | reflexivity]) flat
                     "res://big.ltex" 3 _ _ _) _ _).
    + repeat constructor.
      exists 1%nat. split; [vm_compute; lia | repeat split].
    + repeat constructor. rewrite elem_of_nil. tauto.
    + vm_compute. lia.
    + left. reflexivity.
    + left. reflexivity.
Defined.

(** C3 as stated fails in three ways.  On the 10x6 canvas with 4x4 tiles
    (six cells), given only the clipped corner tile at (8,4), the gaps are
    cut to the largest size seen, 2x2, and the output has fifteen images.
    Given no tile at all, the converter indexes an empty image list.  On a
    canvas wider than [2 ^ 24], here 16777218x1 with tiles of 16777217,
    given the first tile, the cursor behind it is the rounded sum
    16777216 and the blank for the second cell, which is 1 wide at
    16777217, comes out 2 wide at 16777216.  On a canvas of exactly
    [2 ^ 24], here 16777216x1 with tiles of 172961 (97 cells), given the
    first tile, the blank of the last cell, which is 172960 wide, comes
    out 172961 wide: the sum 16777217 of cursor and tile width rounds to
    the canvas width and the clipping test fails. *)
Lemma subset_without_full_tile_miscounts :
  let corner :=
    mkPiece (Vector2_of (8, 4)) (mkImage 2 2 false 0 (repeat x03 4)) in
  let wide := mkPiece (Vector2_of (0, 0)) (mkImage 16777217 1 false 0 []) in
  let first := mkPiece (Vector2_of (0, 0)) (mkImage 172961 1 false 0 []) in
  grid_tile 10 6 4 corner
  /\ Z.to_nat (ceil_div 10 4 * ceil_div 6 4) = 6%nat
  /\ match convert (api := Sample.api) (conv := x86_64) 20 "res://big.ltex"
             (data_of [corner]) (Vector2_of (10, 6)) with
     | Some (Reassembled imgs _) => length imgs = 15%nat
     | _ => False
     end
  /\ convert (api := Sample.api) (conv := x86_64) 20 "res://big.ltex"
       (data_of []) (Vector2_of (10, 6))
     = Some Crashed
  /\ grid_tile 16777218 1 16777217 wide
  /\ width (texture wide) = Z.min 16777217 16777218
  /\ height (texture wide) = Z.min 16777217 1
  /\ grid 16777218 1 16777217 = [(0, 0); (16777217, 0)]
  /\ clip 16777217 16777218 16777217 = 1
  /\ convert (api := Sample.api) (conv := x86_64) 4 "res://big.ltex"
       (data_of [wide]) (Vector2_of (16777218, 1))
     = Some (Reassembled [texture wide; Sample.blank 2 1 false 0]
               (map Vector2_of [(0, 0); (16777216, 0)]))
  /\ grid_tile 16777216 1 172961 first
  /\ width (texture first) = Z.min 172961 16777216
  /\ height (texture first) = Z.min 172961 1
  /\ last (grid 16777216 1 172961) = Some (16604256, 0)
  /\ clip 172961 16777216 16604256 = 172960
  /\ match convert (api := Thin.api) (conv := x86_64) 100 "res://big.ltex"
             (data_of [first]) (Vector2_of (16777216, 1)) with
     | Some (Reassembled imgs offs) =>
         length imgs = 97%nat
         /\ last offs = Some (Vector2_of (16604256, 0))
         /\ last imgs = Some (Thin.blank 172961 1 false 0)
     | _ => False
     end.
Proof.
  intros corner wide first.
  split. { exists 5%nat. split; [vm_compute; lia | repeat split]. }
  split; [reflexivity|].
  split; [vm_compute; reflexivity|].
  split; [vm_compute; reflexivity|].
  split. { exists 0%nat. split; [vm_compute; lia | repeat split]. }
  split; [vm_compute; reflexivity|].
  split; [vm_compute; reflexivity|].
  split; [vm_compute; reflexivity|].
  split; [vm_compute; reflexivity|].
  split; [vm_compute; reflexivity|].
  split. { exists 0%nat. split; [vm_compute; lia | repeat split]. }
  split; [vm_compute; reflexivity|].
  split; [vm_compute; reflexivity|].
  split; [vm_compute; reflexivity|].
  split; [vm_compute; reflexivity|].
  vm_compute. repeat split.
Qed.

(** ** The legacy 2D decoder on a laid-out file *)

Section Stex2dProperties.
Context {api : ImageApi}.

(** The header of a GDST file is read field by field; the shared reader
    then runs at offset 20 with size limit 0, whatever limit was asked. *)
Lemma stex2d_header_run p_path image L tw twc th thc flags df body :
  let data := gdst_file tw twc th thc flags df body in
  stex2d_v3_body p_path image L (open_bytes data)
  = io_bind
      (relabel ("Failed to load image from texture file " ++ p_path)
         (load_image_from_fileV3
            (le_value [fst tw; snd tw]) (le_value [fst th; snd th])
            (le_value [fst twc; snd twc]) (le_value [fst thc; snd thc])
            (to_int (word_value flags)) 0 (word_value df)
            (match image with None => Some instantiate | Some _ => image end)))
      (fun img =>
         io_ret (mkStex2d (le_value [fst tw; snd tw])
                   (le_value [fst th; snd th])
                   (le_value [fst twc; snd twc])
                   (le_value [fst thc; snd thc])
                   (to_int (word_value flags)) img))
      (mkFile data 20
         [EvGetBuffer 4; EvGet16; EvGet16; EvGet16; EvGet16; EvGet32;
          EvGet32]).
Proof.
  destruct tw as [w0 w1], twc as [wc0 wc1], th as [h0 h1],
    thc as [hc0 hc1], flags as [[[f0 f1] f2] f3], df as [[[d0 d1] d2] d3].
  intros data. unfold stex2d_v3_body, open_bytes.
  erewrite bind_get_buffer_4 by reflexivity.
  do 4 (erewrite bind_get_16 by reflexivity).
  do 2 (erewrite bind_get_32 by reflexivity).
  reflexivity.
Qed.

(** The short read seen from the legacy 2D decoder: on every GDST file in a raw
    mipmapped format whose pixel body is shorter than the size formula
    demands, the decoder returns [ERR_FILE_CORRUPT]. *)
Lemma stex2d_shortfall_is_corrupt env p_path e image L
  tw twc th thc flags df body format :
  let data := gdst_file tw twc th thc flags df body in
  let w := le_value [fst tw; snd tw] in
  let h := le_value [fst th; snd th] in
  file_open env p_path = (e, Some data) ->
  has_bit (word_value df) FORMAT_BIT_PNG = false ->
  has_bit (word_value df) FORMAT_BIT_WEBP = false ->
  has_bit (word_value df) FORMAT_BIT_HAS_MIPMAPS = true ->
  convert_image_format_enum_v3_to_v4
    (Z.land (word_value df) FORMAT_MASK_IMAGE_FORMAT) = format ->
  format <> FORMAT_MAX ->
  let ofs := get_image_mipmap_offset w h format 0 in
  let expected := get_image_data_size w h format true - ofs in
  0 < expected ->
  Z.of_nat (length (drop (Z.to_nat (u64 (20 + ofs))) data)) < expected ->
  fst (_load_data_stex2d_v3 env p_path image L)
  = Failed ERR_FILE_CORRUPT
      ("Failed to load image from texture file " ++ p_path).
Proof.
  intros data w h Hopen Hpng Hwebp Hmip Hfmt Hmax ofs expected Hpos Hshort.
  unfold _load_data_stex2d_v3. rewrite Hopen. unfold on_handle.
  subst data.
  rewrite (stex2d_header_run p_path image L tw twc th thc flags df body).
  fold w. fold h.
  set (f := mkFile _ 20 _).
  pose proof (read_raw_mipmaps_short w h 0 format
                (match image with None => Some instantiate | Some _ => image end)
                f w h (get_image_required_mipmaps w h format) 0
                (raw_plan_no_limit w h format) Hpos Hshort) as Hfail.
  unfold io_bind at 1, relabel.
  rewrite (load_raw_mipmapped _ _ _ _ _ _ _ _ _ _
             Hpng Hwebp Hmip Hfmt Hmax).
  unfold io_bind at 1.
  destruct (read_raw_mipmaps _ _ _ _ _ f) as [r f'].
  cbn [fst] in Hfail. subst r. reflexivity.
Qed.

(** With the limit overwritten, a raw mipmapped file decodes to an image
    of the full header width and height, whatever limit was asked. *)
Lemma stex2d_returns_full_size env p_path e L
  tw twc th thc flags df body format out log :
  let data := gdst_file tw twc th thc flags df body in
  file_open env p_path = (e, Some data) ->
  has_bit (word_value df) FORMAT_BIT_PNG = false ->
  has_bit (word_value df) FORMAT_BIT_WEBP = false ->
  has_bit (word_value df) FORMAT_BIT_HAS_MIPMAPS = true ->
  convert_image_format_enum_v3_to_v4
    (Z.land (word_value df) FORMAT_MASK_IMAGE_FORMAT) = format ->
  format <> FORMAT_MAX ->
  _load_data_stex2d_v3 env p_path None L = (Ret out, log) ->
  width (s_image out) = s_tw out /\ height (s_image out) = s_th out
  /\ s_tw out = le_value [fst tw; snd tw]
  /\ s_th out = le_value [fst th; snd th].
Proof.
  intros data Hopen Hpng Hwebp Hmip Hfmt Hmax Hrun.
  unfold _load_data_stex2d_v3 in Hrun. rewrite Hopen in Hrun.
  unfold on_handle in Hrun. subst data.
  rewrite (stex2d_header_run p_path None L tw twc th thc flags df body)
    in Hrun.
  set (w := le_value [fst tw; snd tw]) in *.
  set (h := le_value [fst th; snd th]) in *.
  set (f := mkFile _ 20 _) in Hrun.
  unfold io_bind at 1, relabel in Hrun.
  rewrite (load_raw_mipmapped _ _ _ _ _ _ _ _ _ _
             Hpng Hwebp Hmip Hfmt Hmax) in Hrun.
  unfold io_bind at 1 in Hrun.
  unfold read_raw_mipmaps in Hrun.
  pose proof (raw_plan_no_limit w h format) as Hplan.
  unfold raw_plan in Hplan. rewrite Hplan in Hrun.
  destruct (_ <=? 0) in Hrun; [discriminate|].
  rewrite bind_get_position, bind_seek in Hrun.
  unfold io_bind at 1 in Hrun.
  destruct (get_buffer _ _) as [[rd| |] f1]; try discriminate.
  destruct (negb _) in Hrun; [discriminate|].
  cbn [initialize_ref io_ret finish] in Hrun.
  match type of Hrun with
  | context [initialize_data instantiate w h true format ?d] =>
      destruct (initialize_data_law instantiate w h true format d)
        as [Hsame | Hnew];
      [rewrite Hsame in Hrun; discriminate | rewrite Hnew in Hrun]
  end.
  destruct (is_empty _) in Hrun; [discriminate|].
  injection Hrun as <- _. cbn. auto.
Qed.

End Stex2dProperties.

(** * Further properties of the loader *)

(** ** The tile comparator *)

Lemma key_compare_Lt (a b : Z * Z * Z) :
  key_compare a b = Lt
  <-> fst (fst a) < fst (fst b)
      \/ (fst (fst a) = fst (fst b)
          /\ (snd (fst a) < snd (fst b)
              \/ (snd (fst a) = snd (fst b) /\ snd a < snd b))).
Proof.
  pose proof (key_compare_spec a b) as Hs.
  destruct (key_compare a b); split; intros H; try discriminate;
    try reflexivity; try lia.
  subst b. lia.
Qed.

Lemma key_eq (a b : Z * Z * Z) :
  a = b
  <-> fst (fst a) = fst (fst b) /\ snd (fst a) = snd (fst b)
      /\ snd a = snd b.
Proof.
  destruct a as [[a1 a2] a3], b as [[b1 b2] b3]. cbn [fst snd].
  split; [intros H; injection H; auto | intros (-> & -> & ->); reflexivity].
Qed.

Lemma real_key_defined (x : real_t) :
  is_nan x = false -> exists a, real_key x = Some a.
Proof.
  destruct x as [[|]|[|]| |[|] m e]; intros H; try discriminate;
    eexists; reflexivity.
Qed.

(** Turn every comparison in the context into arithmetic on keys. *)
Ltac to_keys :=
  repeat match goal with
  | H : _ \/ _ |- _ => destruct H
  | H : _ /\ _ |- _ => destruct H
  | H : real_ltb _ _ = true |- _ =>
      apply real_ltb_key in H; destruct H as (? & ? & ? & ? & ?)
  | H : real_eqb _ _ = true |- _ =>
      apply real_eqb_key in H; destruct H as (? & ? & ?)
  end;
  repeat match goal with
  | H1 : real_key ?x = Some ?a, H2 : real_key ?x = Some ?b |- _ =>
      assert (a = b) by congruence; subst; clear H2
  end;
  repeat match goal with
  | H : key_compare _ _ = Lt |- _ => apply key_compare_Lt in H
  end.

(** X1.  [CustomPieceSort::compare] orders tiles by row, then by column:
    [a] is before [b] exactly when its vertical offset is smaller, or the
    vertical offsets are equal and its horizontal offset is smaller.  On
    all offsets, a NaN coordinate included, it is irreflexive, asymmetric
    and transitive.  Two tiles without a NaN coordinate neither of which
    is before the other have equal offsets; a tile whose vertical offset
    is a NaN is neither before nor after any tile, so there the comparator
    is not a total order. *)
Theorem compare_strict_order (a b c : Piece) :
  (CustomPieceSort.compare a b = true
   <-> real_ltb (snd (offset a)) (snd (offset b)) = true
       \/ (real_eqb (snd (offset a)) (snd (offset b)) = true
           /\ real_ltb (fst (offset a)) (fst (offset b)) = true))
  /\ CustomPieceSort.compare a a = false
  /\ (CustomPieceSort.compare a b = true ->
      CustomPieceSort.compare b a = false)
  /\ (CustomPieceSort.compare a b = true ->
      CustomPieceSort.compare b c = true ->
      CustomPieceSort.compare a c = true)
  /\ (is_nan (fst (offset a)) = false -> is_nan (snd (offset a)) = false ->
      is_nan (fst (offset b)) = false -> is_nan (snd (offset b)) = false ->
      CustomPieceSort.compare a b = false ->
      CustomPieceSort.compare b a = false ->
      real_eqb (fst (offset a)) (fst (offset b)) = true
      /\ real_eqb (snd (offset a)) (snd (offset b)) = true)
  /\ (is_nan (snd (offset a)) = true ->
      CustomPieceSort.compare a b = false
      /\ CustomPieceSort.compare b a = false).
Proof.
  split; [apply compare_rows_first|].
  split.
  { destruct (CustomPieceSort.compare a a) eqn:Haa; [|reflexivity].
    pose proof (compare_asym a a Haa). congruence. }
  split; [apply compare_asym|].
  split.
  { intros Hab Hbc. apply compare_rows_first in Hab, Hbc.
    apply compare_rows_first.
    to_keys.
    - left. apply real_ltb_key. do 2 eexists.
      split; [eassumption|]. split; [eassumption|].
      apply key_compare_Lt. lia.
    - left. apply real_ltb_key. do 2 eexists.
      split; [eassumption|]. split; [eassumption|].
      apply key_compare_Lt. lia.
    - left. apply real_ltb_key. do 2 eexists.
      split; [eassumption|]. split; [eassumption|].
      apply key_compare_Lt. lia.
    - right. split.
      + apply real_eqb_key. eexists. split; eassumption.
      + apply real_ltb_key. do 2 eexists.
        split; [eassumption|]. split; [eassumption|].
        apply key_compare_Lt. lia. }
  split.
  { intros Nax Nay Nbx Nby Hab Hba.
    destruct (real_key_defined _ Nax) as [kax Kax].
    destruct (real_key_defined _ Nay) as [kay Kay].
    destruct (real_key_defined _ Nbx) as [kbx Kbx].
    destruct (real_key_defined _ Nby) as [kby Kby].
    assert (Hnab : ~ CustomPieceSort.compare a b = true) by congruence.
    assert (Hnba : ~ CustomPieceSort.compare b a = true) by congruence.
    rewrite compare_rows_first in Hnab, Hnba.
    rewrite (real_ltb_keys _ _ _ _ Kay Kby), (real_eqb_keys _ _ _ _ Kay Kby),
      (real_ltb_keys _ _ _ _ Kax Kbx), !key_compare_Lt, key_eq in Hnab.
    rewrite (real_ltb_keys _ _ _ _ Kby Kay), (real_eqb_keys _ _ _ _ Kby Kay),
      (real_ltb_keys _ _ _ _ Kbx Kax), !key_compare_Lt, key_eq in Hnba.
    rewrite (real_eqb_keys _ _ _ _ Kax Kbx), (real_eqb_keys _ _ _ _ Kay Kby),
      !key_eq.
    lia. }
  intros Hnan.
  unfold CustomPieceSort.compare.
  destruct (snd (offset a)) as [| | |]; try discriminate.
  unfold real_eqb, real_ltb, SFeqb, SFltb, SFcompare.
  destruct (snd (offset b)) as [| | |]; split; reflexivity.
Qed.

Lemma compare_strict_order_witness :
  let img := mkImage 1 1 false 0 [x00] in
  let a := mkPiece (Vector2_of (4, 0)) img in
  let b := mkPiece (Vector2_of (0, 4)) img in
  let c := mkPiece (Vector2_of (4, 4)) img in
  let lost := mkPiece (real_of_int 0, S754_nan) img in
  CustomPieceSort.compare a c = true
  /\ CustomPieceSort.compare b a = false
  /\ (real_eqb (fst (offset a)) (fst (offset a)) = true
      /\ real_eqb (snd (offset a)) (snd (offset a)) = true)
  /\ (CustomPieceSort.compare lost a = false
      /\ CustomPieceSort.compare a lost = false).
Proof.
  intros img a b c lost.
  pose proof (compare_strict_order a b c) as (_ & _ & Hasym & Htrans & _).
  pose proof (compare_strict_order a a a) as (_ & _ & _ & _ & Htotal & _).
  pose proof (compare_strict_order lost a a) as (_ & _ & _ & _ & _ & Hnan).
  assert (Hab : CustomPieceSort.compare a b = true)
    by (vm_compute; reflexivity).
  assert (Hbc : CustomPieceSort.compare b c = true)
    by (vm_compute; reflexivity).
  assert (Haa : CustomPieceSort.compare a a = false)
    by (vm_compute; reflexivity).
  split; [exact (Htrans Hab Hbc)|].
  split; [exact (Hasym Hab)|].
  split; [|exact (Hnan eq_refl)].
  apply Htotal; try exact Haa; vm_compute; reflexivity.
Defined.

(** ** The recogniser: errors, probe and lookup tables *)

Ltac split_ifs H :=
  repeat match type of H with
         | context [if ?c then _ else _] => destruct c eqn:?
         | context [match ?o with Some _ => _ | None => _ end] =>
             destruct o eqn:?
         | context [let '(_, _) := ?p in _] => destruct p eqn:?
         end.

(** X2.  [recognize] leaves [OK] in [*r_err] whenever it returns a
    variant, and an error whenever it returns the sentinel, provided
    [FileAccess::open] does not hand back a null handle together with
    [OK]. *)
Theorem recognize_error_iff_sentinel (env : Env) (uninit : list byte)
  (p_path : string) (r : recognition) :
  recognize env uninit p_path = Some r ->
  (variant r <> FORMAT_NOT_TEXTURE -> r_err r = OK)
  /\ (variant r = FORMAT_NOT_TEXTURE ->
      file_open env p_path <> (OK, None) -> r_err r <> OK).
Proof.
  intros H. unfold recognize in H.
  destruct (file_open env p_path) as [err [bytes|]] eqn:Hopen.
  - destruct (Error_eqb err OK) eqn:Herr; cbn [negb] in H.
    + apply Error_eqb_eq in Herr. subst err.
      unfold binary_variant, atlas_variant, image_texture_variant in H.
      split_ifs H; try discriminate; injection H as <-;
        cbn [variant r_err]; split; intros; try congruence;
        try discriminate.
      match goal with
      | Hp : negb (Error_eqb ?e ERR_PRINTER_ON_FIRE) && negb (Error_eqb ?e OK)
             = true |- ?e <> OK =>
          intros ->; discriminate Hp
      end.
    + injection H as <-. cbn [variant r_err]. split; [congruence|].
      intros _ _ ->. discriminate.
  - injection H as <-. cbn [variant r_err]. split; [congruence|].
    intros _ Hne ->. apply Hne. reflexivity.
Qed.

Lemma recognize_error_iff_sentinel_witness :
  let env := Sample.env [("a.stex", magic "GDST"); ("b.bin", magic "ABCD")] [] in
  r_err (mkRecognition FORMAT_V3_STREAM_TEXTURE2D OK [EvGetBuffer 4] false)
  = OK
  /\ r_err (mkRecognition FORMAT_NOT_TEXTURE ERR_FILE_UNRECOGNIZED
              [EvGetBuffer 4] false) <> OK.
Proof.
  intros env. split.
  - apply (proj1 (recognize_error_iff_sentinel env [] "a.stex" _ eq_refl)).
    discriminate.
  - apply (proj2 (recognize_error_iff_sentinel env [] "b.bin" _ eq_refl)).
    + reflexivity.
    + discriminate.
Defined.

(** X3.  Whenever [recognize] returns a variant, it has called the binary
    resource probe exactly when that variant is one [is_binary_resource]
    accepts: the stream variants are decided from the magic alone, the
    key-value variants always through the probe. *)
Theorem recognize_probes_binary_only (env : Env) (uninit : list byte)
  (p_path : string) (r : recognition) :
  recognize env uninit p_path = Some r ->
  variant r <> FORMAT_NOT_TEXTURE ->
  probed r = is_binary_resource (variant r).
Proof.
  intros H. unfold recognize in H.
  destruct (file_open env p_path) as [err [bytes|]] eqn:Hopen.
  - unfold binary_variant, atlas_variant, image_texture_variant in H.
    split_ifs H; try discriminate; injection H as <-;
      cbn [variant probed]; intros Hv; try reflexivity; congruence.
  - injection H as <-. cbn [variant]. congruence.
Qed.

Lemma recognize_probes_binary_only_witness :
  let info := mkInfo 3 "ImageTexture" "" "" "" ∅ in
  let env := Sample.env [("a.tex", magic "RSRC")] [("a.tex", (OK, Some info))] in
  probed (mkRecognition FORMAT_V3_IMAGE_TEXTURE OK [EvGetBuffer 4] true)
  = is_binary_resource FORMAT_V3_IMAGE_TEXTURE.
Proof.
  intros info env.
  apply (recognize_probes_binary_only env [] "a.tex" _ eq_refl).
  discriminate.
Defined.

(** X4.  For a key-value container whose probe is accepted, [recognize]
    returns a variant exactly when the probed type is one of "Texture",
    "ImageTexture", "AtlasTexture", "LargeTexture", "CubeMap" (any other
    type gives the sentinel with [ERR_FILE_UNRECOGNIZED]); the variant's
    type name is then the probed type, and for "ImageTexture" and
    "AtlasTexture" with a probed major version from 2 to 4 the variant's
    major version is the probed one. *)
Theorem recognize_binary_round_trip (env : Env) (uninit : list byte)
  (p_path : string) (b0 b1 b2 b3 : byte) (rest : list byte) (perr : Error)
  (info : ResourceInfo) :
  file_open env p_path = (OK, Some (b0 :: b1 :: b2 :: b3 :: rest)) ->
  [b0; b1; b2; b3] = magic "RSRC" \/ [b0; b1; b2; b3] = magic "RSCC" ->
  binary_get_resource_info env p_path = (perr, Some info) ->
  perr = OK \/ perr = ERR_PRINTER_ON_FIRE ->
  exists r,
    recognize env uninit p_path = Some r
    /\ (variant r <> FORMAT_NOT_TEXTURE <->
        type info ∈ ["Texture"; "ImageTexture"; "AtlasTexture";
                     "LargeTexture"; "CubeMap"])
    /\ (variant r = FORMAT_NOT_TEXTURE -> r_err r = ERR_FILE_UNRECOGNIZED)
    /\ (variant r <> FORMAT_NOT_TEXTURE ->
        get_type_name_from_textype (variant r) = type info)
    /\ (variant r <> FORMAT_NOT_TEXTURE ->
        type info = "ImageTexture" \/ type info = "AtlasTexture" ->
        2 <= ver_major info <= 4 ->
        get_ver_major_from_textype (variant r) = ver_major info).
Proof.
  intros Hopen Hmagic Hprobe Hok.
  rewrite (recognize_binary _ _ _ _ _ _ _ _ _ _ Hopen Hmagic Hprobe).
  rewrite (probe_accepted _ Hok).
  unfold binary_variant, image_texture_variant, atlas_variant.
  repeat match goal with
         | |- context [String.eqb ?a ?b] =>
             destruct (String.eqb_spec a b)
         end;
    eexists; (split; [reflexivity|]); cbn [variant r_err];
    repeat match goal with
           | |- context [?x =? ?y] => destruct (Z.eqb_spec x y)
           | |- context [?x <=? ?y] => destruct (Z.leb_spec x y)
           end; cbn [orb variant get_type_name_from_textype
                       get_ver_major_from_textype];
    repeat apply conj; try split; intros;
    repeat match goal with
           | H : _ ∈ _ :: _ |- _ => apply elem_of_cons in H; destruct H
           | H : _ ∈ [] |- _ => inversion H
           | H : _ \/ _ |- _ => destruct H
           end;
    try congruence; try lia; try discriminate;
    rewrite ?elem_of_cons; auto 10.
Qed.

Lemma recognize_binary_round_trip_witness :
  let info := mkInfo 3 "AtlasTexture" "" "" "" ∅ in
  let env := Sample.env [("a.atex", magic "RSRC")]
               [("a.atex", (OK, Some info))] in
  exists r,
    recognize env [] "a.atex" = Some r
    /\ get_type_name_from_textype (variant r) = "AtlasTexture"
    /\ get_ver_major_from_textype (variant r) = 3.
Proof.
  intros info env.
  destruct (recognize_binary_round_trip env [] "a.atex" "R" "S" "R" "C" []
              OK info eq_refl (or_introl eq_refl) eq_refl (or_introl eq_refl))
    as (r & Hrec & Hiff & _ & Hname & Hver).
  assert (Hv : variant r <> FORMAT_NOT_TEXTURE).
  { apply Hiff. right. right. left. }
  exists r. split; [exact Hrec|]. split.
  - exact (Hname Hv).
  - apply (Hver Hv); [right; reflexivity | cbn; lia].
Defined.

(** ** Metadata merge: composition *)

(** X5.  Merging the same placeholder record into a record twice is the
    same as merging it once, and when the placeholder stores
    "texture_flags" the caller's flags do not matter. *)
Theorem merge_resource_info_idempotent (new_dict texture_dict : ResourceInfo)
  (int_flags other_flags : Z) :
  merge_resource_info
    (merge_resource_info new_dict texture_dict int_flags) texture_dict
    int_flags
  = merge_resource_info new_dict texture_dict int_flags
  /\ (is_Some (extra texture_dict !! "texture_flags") ->
      merge_resource_info new_dict texture_dict other_flags
      = merge_resource_info new_dict texture_dict int_flags).
Proof.
  unfold merge_resource_info.
  cbn [ver_major type resource_format original_path cached_id extra].
  split.
  - f_equal.
    + destruct (original_path new_dict) eqn:Hp; cbn [string_is_empty].
      * destruct (original_path texture_dict); reflexivity.
      * reflexivity.
    + destruct (extra texture_dict !! "texture_flags") as [fl|];
        destruct (extra texture_dict !! "data_format") as [df|];
        apply map_eq; intros ?; rewrite ?lookup_insert;
        repeat case_decide; try reflexivity; congruence.
  - intros [fl Hfl]. rewrite Hfl. reflexivity.
Qed.

Lemma merge_resource_info_idempotent_witness :
  let decoded := mkInfo 4 "CompressedTexture2D" "Texture" "" "" ∅ in
  let placeholder :=
    mkInfo 3 "Texture" "binary" "res://icon.png" ""
      (<["texture_flags" := VInt 7]> ∅) in
  merge_resource_info decoded placeholder 1
  = merge_resource_info decoded placeholder 0.
Proof.
  intros decoded placeholder.
  apply (proj2 (merge_resource_info_idempotent decoded placeholder 0 1)).
  exists (VInt 7). reflexivity.
Defined.

(** ** The legacy 2D decoder: raw formats *)

Section Stex2dRaw.
Context {api : ImageApi}.

Lemma gdst_body tw twc th thc flags df body :
  drop 20 (gdst_file tw twc th thc flags df body) = body.
Proof.
  destruct tw, twc, th, thc, flags as [[[? ?] ?] ?], df as [[[? ?] ?] ?].
  reflexivity.
Qed.

(** The plain raw branch: one read of the formula's size into a fresh
    vector, with no check of the number of bytes read. *)
Lemma load_raw_plain tw th tw_custom th_custom flags L df image format f :
  has_bit df FORMAT_BIT_PNG = false ->
  has_bit df FORMAT_BIT_WEBP = false ->
  has_bit df FORMAT_BIT_HAS_MIPMAPS = false ->
  convert_image_format_enum_v3_to_v4 (Z.land df FORMAT_MASK_IMAGE_FORMAT)
  = format ->
  format <> FORMAT_MAX ->
  let size := get_image_data_size tw th format false in
  let rd := take (Z.to_nat size) (bytes_from f (f_pos f)) in
  let f' := mkFile (f_data f) (f_pos f + Z.of_nat (length rd))
              (f_log f ++ [EvGetBuffer size]) in
  load_image_from_fileV3 tw th tw_custom th_custom flags L df image f
  = io_bind
      (initialize_ref image tw th false format
         (rd ++ drop (length rd) (resized_vector size)))
      (finish format) f'.
Proof.
  intros Hpng Hwebp Hmip Hfmt Hmax size rd f'.
  unfold load_image_from_fileV3.
  rewrite Hpng, Hwebp, Hmip, Hfmt. cbn [orb negb].
  apply Z.eqb_neq in Hmax. rewrite Hmax. reflexivity.
Qed.

(** An accepted buffer on a fresh image gives exactly the requested
    image. *)
Lemma initialize_fresh w h m format d :
  is_empty (initialize_data instantiate w h m format d) = false ->
  initialize_data instantiate w h m format d = mkImage w h m format d.
Proof.
  intros Hne.
  destruct (initialize_data_law instantiate w h m format d) as [Hsame | Hnew];
    [rewrite Hsame in Hne; discriminate | exact Hnew].
Qed.

Lemma finish_fresh w h m format d f :
  is_empty (initialize_data instantiate w h m format d) = false ->
  io_bind (initialize_ref (Some instantiate) w h m format d)
    (finish format) f
  = (Ret (mkImage w h m format d), f).
Proof.
  intros Hne. unfold io_bind, initialize_ref, io_ret, finish.
  rewrite Hne. rewrite (initialize_fresh _ _ _ _ _ Hne). reflexivity.
Qed.

(** X7.  Round trip of the legacy 2D decoder on raw formats: for a GDST
    file whose data-format word names a convertible raw format and whose
    pixel body starts with exactly the bytes the size formula demands, the
    decoder returns the header's dimensions, overrides and flags and an
    image holding exactly those bytes, whatever size limit was asked.  (For
    a mipmapped format the first level is at offset 0 of the pixel data;
    for a plain format the vector the bytes are read into has the formula's
    size.) *)
Theorem stex2d_raw_round_trip (env : Env) (p_path : string) (e : Error)
  (L : Z) (tw twc th thc : byte * byte) (flags df : word)
  (pixels trailing : list byte) (format : Format) :
  let w := le_value [fst tw; snd tw] in
  let h := le_value [fst th; snd th] in
  let mipmaps := has_bit (word_value df) FORMAT_BIT_HAS_MIPMAPS in
  file_open env p_path
  = (e, Some (gdst_file tw twc th thc flags df (pixels ++ trailing))) ->
  has_bit (word_value df) FORMAT_BIT_PNG = false ->
  has_bit (word_value df) FORMAT_BIT_WEBP = false ->
  convert_image_format_enum_v3_to_v4
    (Z.land (word_value df) FORMAT_MASK_IMAGE_FORMAT) = format ->
  format <> FORMAT_MAX ->
  Z.of_nat (length pixels) = get_image_data_size w h format mipmaps ->
  (mipmaps = true -> get_image_mipmap_offset w h format 0 = 0) ->
  (mipmaps = false ->
   (length (resized_vector (get_image_data_size w h format false))
    <= length pixels)%nat) ->
  is_empty (initialize_data instantiate w h mipmaps format pixels) = false ->
  fst (_load_data_stex2d_v3 env p_path None L)
  = Ret (mkStex2d w h (le_value [fst twc; snd twc])
           (le_value [fst thc; snd thc]) (to_int (word_value flags))
           (mkImage w h mipmaps format pixels)).
Proof.
  intros w h mipmaps Hopen Hpng Hwebp Hfmt Hmax Hlen Hofs Hvec Hacc.
  assert (Hsome : pixels <> []).
  { intros ->. rewrite (initialize_fresh _ _ _ _ _ Hacc) in Hacc.
    discriminate. }
  assert (Hpos : 0 < Z.of_nat (length pixels)).
  { destruct pixels; [congruence | simpl; lia]. }
  unfold _load_data_stex2d_v3. rewrite Hopen. unfold on_handle.
  rewrite (stex2d_header_run p_path None L tw twc th thc flags df
             (pixels ++ trailing)).
  fold w. fold h. set (f := mkFile _ 20 _).
  assert (Hbody : bytes_from f 20 = pixels ++ trailing)
    by (apply gdst_body).
  unfold io_bind at 1, relabel.
  destruct mipmaps eqn:Hmip; subst mipmaps.
  - rewrite (load_raw_mipmapped _ _ _ _ _ _ _ _ _ _
               Hpng Hwebp Hmip Hfmt Hmax).
    unfold io_bind at 1.
    rewrite (read_raw_mipmaps_run _ _ _ _ _ _ _ _ _ _
               (raw_plan_no_limit w h format));
      rewrite (Hofs eq_refl), Z.sub_0_r, <- Hlen; [|exact Hpos].
    cbn [f_pos f]. change (u64 (20 + 0)) with 20.
    rewrite Hbody, Nat2Z.id, take_app_length, Z.eqb_refl.
    cbn [negb].
    pose proof (finish_fresh w h true format pixels) as Hfin.
    unfold io_bind in Hfin. rewrite Hfin by exact Hacc. reflexivity.
  - rewrite (load_raw_plain _ _ _ _ _ _ _ _ _ _
               Hpng Hwebp Hmip Hfmt Hmax).
    cbn [f_pos f]. rewrite Hbody, <- Hlen, Nat2Z.id, take_app_length.
    rewrite drop_ge by (rewrite Hlen; apply Hvec; reflexivity).
    rewrite app_nil_r.
    rewrite (finish_fresh w h false format pixels) by exact Hacc.
    reflexivity.
Qed.

End Stex2dRaw.

Lemma stex2d_raw_round_trip_witness :
  let pixels := repeat x01 16 ++ repeat x02 5 in
  let file :=
    gdst_file (x04, x00) (x00, x00) (x04, x00) (x00, x00)
      (x07, x00, x00, x00) (x00, x00, x80, x00) (pixels ++ [x09]) in
  let env := Sample.env [("a.stex", file)] [] in
  fst (_load_data_stex2d_v3 (api := Sample.api) env "a.stex" None 2)
  = Ret (mkStex2d 4 4 0 0 7 (mkImage 4 4 true 0 pixels)).
Proof.
  intros pixels file env.
  apply (stex2d_raw_round_trip (api := Sample.api) env "a.stex" OK 2
           (x04, x00) (x00, x00) (x04, x00) (x00, x00)
           (x07, x00, x00, x00) (x00, x00, x80, x00) pixels [x09] 0);
    try reflexivity; try discriminate.
Defined.

Section Stex2dEdges.
Context {api : ImageApi}.

(** X8.  A GDST file whose raw format code has no current equivalent is
    rejected before any pixel byte is read: with [ERR_UNAVAILABLE] when
    the code is a known deprecated format ([0 < code < V3Image::FORMAT_MAX]),
    with [ERR_FILE_CORRUPT] otherwise; the file handle has only seen the
    seven header reads. *)
Theorem stex2d_format_errors (env : Env) (p_path : string) (e : Error)
  (image : option Image) (L : Z) (tw twc th thc : byte * byte)
  (flags df : word) (body : list byte) :
  let code := Z.land (word_value df) FORMAT_MASK_IMAGE_FORMAT in
  file_open env p_path
  = (e, Some (gdst_file tw twc th thc flags df body)) ->
  has_bit (word_value df) FORMAT_BIT_PNG = false ->
  has_bit (word_value df) FORMAT_BIT_WEBP = false ->
  convert_image_format_enum_v3_to_v4 code = FORMAT_MAX ->
  _load_data_stex2d_v3 env p_path image L
  = (Failed
       (if (0 <? code) && (code <? V3_FORMAT_MAX)
        then ERR_UNAVAILABLE else ERR_FILE_CORRUPT)
       ("Failed to load image from texture file " ++ p_path),
     [EvGetBuffer 4; EvGet16; EvGet16; EvGet16; EvGet16; EvGet32; EvGet32]).
Proof.
  intros code Hopen Hpng Hwebp Hfmt.
  unfold _load_data_stex2d_v3. rewrite Hopen. unfold on_handle.
  rewrite (stex2d_header_run p_path image L tw twc th thc flags df body).
  unfold io_bind at 1, relabel, load_image_from_fileV3.
  rewrite Hpng, Hwebp. cbn [orb]. fold code. rewrite Hfmt, Z.eqb_refl.
  destruct ((0 <? code) && (code <? V3_FORMAT_MAX)); reflexivity.
Qed.

(** X9.  The plain (non-mipmapped) raw branch does not check how many
    bytes the read delivered: on a GDST file whose pixel body is shorter
    than the size formula demands, the decode still succeeds whenever the
    image accepts the buffer, and the image's data is the bytes of the
    file followed by the untouched tail of the freshly resized vector. *)
Theorem stex2d_plain_short_read_accepted (env : Env) (p_path : string)
  (e : Error) (L : Z) (tw twc th thc : byte * byte) (flags df : word)
  (body : list byte) (format : Format) :
  let w := le_value [fst tw; snd tw] in
  let h := le_value [fst th; snd th] in
  let size := get_image_data_size w h format false in
  let buffer := body ++ drop (length body) (resized_vector size) in
  file_open env p_path
  = (e, Some (gdst_file tw twc th thc flags df body)) ->
  has_bit (word_value df) FORMAT_BIT_PNG = false ->
  has_bit (word_value df) FORMAT_BIT_WEBP = false ->
  has_bit (word_value df) FORMAT_BIT_HAS_MIPMAPS = false ->
  convert_image_format_enum_v3_to_v4
    (Z.land (word_value df) FORMAT_MASK_IMAGE_FORMAT) = format ->
  format <> FORMAT_MAX ->
  Z.of_nat (length body) < size ->
  is_empty (initialize_data instantiate w h false format buffer) = false ->
  fst (_load_data_stex2d_v3 env p_path None L)
  = Ret (mkStex2d w h (le_value [fst twc; snd twc])
           (le_value [fst thc; snd thc]) (to_int (word_value flags))
           (mkImage w h false format buffer)).
Proof.
  intros w h size buffer Hopen Hpng Hwebp Hmip Hfmt Hmax Hshort Hacc.
  unfold _load_data_stex2d_v3. rewrite Hopen. unfold on_handle.
  rewrite (stex2d_header_run p_path None L tw twc th thc flags df body).
  fold w. fold h. set (f := mkFile _ 20 _).
  assert (Hbody : bytes_from f 20 = body) by (apply gdst_body).
  unfold io_bind at 1, relabel.
  rewrite (load_raw_plain _ _ _ _ _ _ _ _ _ _ Hpng Hwebp Hmip Hfmt Hmax).
  cbn [f_pos f]. rewrite Hbody. fold size.
  rewrite take_ge by lia. fold buffer.
  rewrite (finish_fresh w h false format buffer) by exact Hacc.
  reflexivity.
Qed.

End Stex2dEdges.

Lemma stex2d_format_errors_witness :
  let file code :=
    gdst_file (x04, x00) (x00, x00) (x04, x00) (x00, x00)
      (x07, x00, x00, x00) (code, x00, x00, x00) [] in
  let env := Sample.env [("old.stex", file x05); ("bad.stex", file x63)] [] in
  fst (_load_data_stex2d_v3 (api := Sample.api) env "old.stex" None 0)
  = Failed ERR_UNAVAILABLE "Failed to load image from texture file old.stex"
  /\ fst (_load_data_stex2d_v3 (api := Sample.api) env "bad.stex" None 0)
     = Failed ERR_FILE_CORRUPT
         "Failed to load image from texture file bad.stex".
Proof.
  intros file env. split.
  - rewrite (stex2d_format_errors (api := Sample.api) env "old.stex" OK
               None 0 (x04, x00) (x00, x00) (x04, x00) (x00, x00)
               (x07, x00, x00, x00) (x05, x00, x00, x00) []
               eq_refl eq_refl eq_refl eq_refl).
    reflexivity.
  - rewrite (stex2d_format_errors (api := Sample.api) env "bad.stex" OK
               None 0 (x04, x00) (x00, x00) (x04, x00) (x00, x00)
               (x07, x00, x00, x00) (x63, x00, x00, x00) []
               eq_refl eq_refl eq_refl eq_refl).
    reflexivity.
Defined.

Lemma stex2d_plain_short_read_accepted_witness :
  let body := repeat x01 10 in
  let file :=
    gdst_file (x04, x00) (x00, x00) (x04, x00) (x00, x00)
      (x07, x00, x00, x00) (x00, x00, x00, x00) body in
  let env := Sample.env [("short.stex", file)] [] in
  fst (_load_data_stex2d_v3 (api := Sample.api) env "short.stex" None 0)
  = Ret (mkStex2d 4 4 0 0 7
           (mkImage 4 4 false 0 (repeat x01 10 ++ repeat x00 6))).
Proof.
  intros body file env.
  apply (stex2d_plain_short_read_accepted (api := Sample.api) env
           "short.stex" OK 0 (x04, x00) (x00, x00) (x04, x00) (x00, x00)
           (x07, x00, x00, x00) (x00, x00, x00, x00) body 0);
    try reflexivity; try discriminate.
Defined.

(** ** The size-limit loop: monotonicity *)

Lemma half_bounds (x : Z) : 1 <= x -> 1 <= half x <= x.
Proof.
  intros Hx. unfold half. rewrite Z.shiftr_div_pow2 by lia.
  change (2 ^ 1) with 2.
  assert (x / 2 <= x) by (apply Z.div_le_upper_bound; lia).
  lia.
Qed.

Lemma half_iter_bounds (k : nat) (x : Z) :
  1 <= x -> 1 <= Nat.iter k half x <= x.
Proof.
  intros Hx. induction k as [|k IH]; simpl; [lia|].
  pose proof (half_bounds _ (proj1 IH)). lia.
Qed.

Lemma skip_raw_levels_mono n : forall L1 L2 sw sh m idx
    sw1 sh1 m1 idx1 sw2 sh2 m2 idx2,
  0 < L1 <= L2 -> 1 <= sw -> 1 <= sh ->
  skip_raw_levels n L1 sw sh m idx = (sw1, sh1, m1, idx1) ->
  skip_raw_levels n L2 sw sh m idx = (sw2, sh2, m2, idx2) ->
  idx <= idx2 <= idx1 /\ sw1 <= sw2 <= sw /\ sh1 <= sh2 <= sh.
Proof.
  induction n as [|n IH]; intros L1 L2 sw sh m idx sw1 sh1 m1 idx1
    sw2 sh2 m2 idx2 HL Hsw Hsh H1 H2.
  - simpl in H1, H2. injection H1 as <- <- <- <-.
    injection H2 as <- <- <- <-. lia.
  - pose proof (half_bounds sw Hsw) as Hhw.
    pose proof (half_bounds sh Hsh) as Hhh.
    cbn [skip_raw_levels] in H2.
    destruct ((1 <? m) && (0 <? L2) && ((L2 <? sw) || (L2 <? sh))) eqn:Hc2.
    + assert (Hc1 : (1 <? m) && (0 <? L1) && ((L1 <? sw) || (L1 <? sh))
                    = true).
      { apply andb_true_iff in Hc2. destruct Hc2 as [Hc2 Hd].
        apply andb_true_iff in Hc2. destruct Hc2 as [Hm _].
        apply orb_true_iff in Hd.
        rewrite Hm. cbn [andb].
        apply andb_true_iff. split; [apply Z.ltb_lt; lia|].
        apply orb_true_iff.
        destruct Hd as [Hd | Hd]; apply Z.ltb_lt in Hd;
          [left | right]; apply Z.ltb_lt; lia. }
      cbn [skip_raw_levels] in H1. rewrite Hc1 in H1.
      destruct (IH _ _ _ _ _ _ _ _ _ _ _ _ _ _ HL
                  (proj1 Hhw) (proj1 Hhh) H1 H2) as (Hi & Hw & Hh).
      lia.
    + injection H2 as <- <- <- <-.
      destruct (skip_raw_levels_shape _ _ _ _ _ _ _ _ _ _ H1)
        as (k & -> & _ & -> & ->).
      pose proof (half_iter_bounds k sw Hsw).
      pose proof (half_iter_bounds k sh Hsh).
      lia.
Qed.

(** X6.  In the raw mipmapped branch of [load_image_from_fileV3], raising
    the size limit never skips more levels and never yields a smaller
    image, and no limit yields an image larger than the header's
    dimensions: for limits [0 < L1 <= L2] the first kept level under [L2]
    is at or before the one under [L1], and the kept width and height
    under [L1] are at most those under [L2], which are at most the full
    width and height. *)
Theorem size_limit_monotone {api : ImageApi} (tw th L1 L2 : Z)
  (format : Format) (sw1 sh1 m1 idx1 sw2 sh2 m2 idx2 : Z) :
  0 < L1 <= L2 -> 1 <= tw -> 1 <= th ->
  raw_plan tw th L1 format = (sw1, sh1, m1, idx1) ->
  raw_plan tw th L2 format = (sw2, sh2, m2, idx2) ->
  0 <= idx2 <= idx1 /\ sw1 <= sw2 <= tw /\ sh1 <= sh2 <= th.
Proof.
  unfold raw_plan. intros HL Hw Hh H1 H2.
  exact (skip_raw_levels_mono _ _ _ _ _ _ _ _ _ _ _ _ _ _ _
           HL Hw Hh H1 H2).
Qed.

Lemma size_limit_monotone_witness :
  0 <= 1 <= 2 /\ 16 <= 32 <= 64 /\ 8 <= 16 <= 32.
Proof.
  apply (size_limit_monotone (api := Sample.api) 64 32 16 32 0
           16 8 4 2 32 16 5 1); try reflexivity; lia.
Defined.

(** ** The legacy 2D decoder: embedded codecs *)

Section Stex2dCodec.
Context {api : ImageApi}.

Lemma bind_get_32_any {B} (k : Z -> io B) f :
  io_bind get_32 k f
  = k (le_value (peek f 4))
      (advance f (Z.of_nat (length (peek f 4))) EvGet32).
Proof. reflexivity. Qed.

Lemma bind_ret {A B} (a : A) (k : A -> io B) f :
  io_bind (io_ret a) k f = k a f.
Proof. reflexivity. Qed.

Lemma bind_assoc {A B C} (m : io A) (k : A -> io B) (h : B -> io C) f :
  io_bind (io_bind m k) h f = io_bind m (fun a => io_bind (k a) h) f.
Proof. unfold io_bind. destruct (m f) as [[a|e msg|] f']; reflexivity. Qed.

Lemma bind_read_into_vector {B} size (k : list byte -> io B) f :
  io_bind (read_into_vector size) k f
  = k (peek f size ++ drop (length (peek f size)) (resized_vector size))
      (advance f (Z.of_nat (length (peek f size))) (EvGetBuffer size)).
Proof. reflexivity. Qed.

(** Without a size limit the level-skipping loop does nothing. *)
Lemma skip_codec_levels_no_limit n sw sh mipmaps size :
  skip_codec_levels n 0 sw sh mipmaps size = io_ret (sw, sh, mipmaps, size).
Proof.
  destruct n; [reflexivity|]. cbn [skip_codec_levels].
  change (0 <? 0) with false. rewrite andb_false_r. reflexivity.
Qed.

(** X10.  A GDST file that has an embedded-codec bit set and announces
    zero levels (in particular one that ends right after its header, where
    the missing count reads as zero) makes the decoder index an empty
    vector: the call crashes instead of returning an error. *)
Theorem stex2d_codec_without_levels_crashes (env : Env) (p_path : string)
  (e : Error) (image : option Image) (L : Z) (tw twc th thc : byte * byte)
  (flags df : word) (body : list byte) :
  file_open env p_path
  = (e, Some (gdst_file tw twc th thc flags df body)) ->
  has_bit (word_value df) FORMAT_BIT_PNG
  || has_bit (word_value df) FORMAT_BIT_WEBP = true ->
  le_value (take 4 body) = 0 ->
  fst (_load_data_stex2d_v3 env p_path image L) = Crash.
Proof.
  intros Hopen Hcodec Hzero.
  unfold _load_data_stex2d_v3. rewrite Hopen. unfold on_handle.
  rewrite (stex2d_header_run p_path image L tw twc th thc flags df body).
  unfold io_bind at 1, relabel, load_image_from_fileV3.
  rewrite Hcodec.
  rewrite bind_get_32_any.
  unfold peek at 1. cbn [f_pos f_data].
  change (Z.to_nat 20) with 20%nat. change (Z.to_nat 4) with 4%nat.
  rewrite gdst_body, Hzero.
  rewrite bind_get_32_any.
  rewrite skip_codec_levels_no_limit, bind_ret.
  cbn [Z.to_nat read_codec_levels]. reflexivity.
Qed.

(** X11.  A GDST file with an embedded-codec bit and exactly one level
    whose payload unpacks to a non-empty image decodes to that image as
    unpacked, next to the header's width, height, overrides and flags: the
    header's dimensions are not checked against the image's own, the PNG
    unpacker is used whenever the PNG bit is set (also when the WebP bit
    is set as well), and bytes after the payload are not read: the
    handle's log ends with the one read of the payload.  (The vector the
    payload is read into has the announced size.) *)
Theorem stex2d_codec_single_level (env : Env) (p_path : string) (e : Error)
  (L : Z) (tw twc th thc : byte * byte) (flags df count size : word)
  (payload trailing : list byte) (img : Image) :
  let unpack :=
    if has_bit (word_value df) FORMAT_BIT_PNG
    then png_unpacker else webp_unpack_v2v3 in
  file_open env p_path
  = (e, Some (gdst_file tw twc th thc flags df
                (word_bytes count ++ word_bytes size ++ payload
                 ++ trailing))) ->
  has_bit (word_value df) FORMAT_BIT_PNG
  || has_bit (word_value df) FORMAT_BIT_WEBP = true ->
  word_value count = 1 ->
  0 < word_value size ->
  Z.of_nat (length payload) = word_value size ->
  (length (resized_vector (word_value size)) <= length payload)%nat ->
  unpack payload = Some img ->
  is_empty img = false ->
  _load_data_stex2d_v3 env p_path None L
  = (Ret (mkStex2d (le_value [fst tw; snd tw]) (le_value [fst th; snd th])
            (le_value [fst twc; snd twc]) (le_value [fst thc; snd thc])
            (to_int (word_value flags)) img),
     [EvGetBuffer 4; EvGet16; EvGet16; EvGet16; EvGet16; EvGet32; EvGet32;
      EvGet32; EvGet32; EvGetBuffer (word_value size)]).
Proof.
  intros unpack Hopen Hcodec Hcount Hpos Hlen Hvec Hunpack Hne.
  unfold _load_data_stex2d_v3. rewrite Hopen. unfold on_handle.
  rewrite (stex2d_header_run p_path None L tw twc th thc flags df _).
  set (data := gdst_file _ _ _ _ _ _ _).
  assert (Hbody : drop 20 data
                  = word_bytes count ++ word_bytes size ++ payload
                    ++ trailing) by apply gdst_body.
  destruct count as [[[c0 c1] c2] c3], size as [[[s0 s1] s2] s3].
  unfold word_value, word_bytes in Hcount, Hpos, Hlen, Hvec.
  cbn [word_bytes app] in Hbody.
  unfold io_bind at 1, relabel, load_image_from_fileV3.
  rewrite Hcodec.
  erewrite bind_get_32 by exact Hbody. rewrite Hcount.
  erewrite bind_get_32
    by (change (Z.to_nat (20 + 4)) with (20 + 4)%nat;
        rewrite <- drop_drop, Hbody; reflexivity).
  rewrite skip_codec_levels_no_limit, bind_ret.
  change (Z.to_nat 1) with 1%nat. cbn [read_codec_levels].
  change (0 =? 0) with true. cbv iota.
  rewrite bind_assoc, bind_ret.
  assert (Hs : (le_value [s0; s1; s2; s3] =? 0) = false)
    by (apply Z.eqb_neq; lia).
  rewrite Hs, bind_assoc, bind_read_into_vector.
  unfold peek. cbn [f_pos f_data f_log].
  change (Z.to_nat (20 + 4 + 4)) with (20 + 4 + 4)%nat.
  rewrite <- !drop_drop, Hbody. cbn [drop]. rewrite drop_0.
  rewrite <- Hlen, Nat2Z.id, take_app_length.
  rewrite drop_ge by (rewrite Hlen; exact Hvec).
  rewrite app_nil_r.
  assert (Hu : (if has_bit (word_value df) FORMAT_BIT_PNG
                then png_unpacker payload else webp_unpack_v2v3 payload)
               = Some img).
  { subst unpack. destruct (has_bit (word_value df) FORMAT_BIT_PNG);
      exact Hunpack. }
  rewrite Hu, Hne.
  cbn [app]. rewrite bind_ret.
  unfold finish. rewrite Hne, Hlen. reflexivity.
Qed.

End Stex2dCodec.

Lemma stex2d_codec_without_levels_crashes_witness :
  let file :=
    gdst_file (x04, x00) (x00, x00) (x04, x00) (x00, x00)
      (x07, x00, x00, x00) (x00, x00, x10, x00) [] in
  let env := Sample.env [("cut.stex", file)] [] in
  fst (_load_data_stex2d_v3 (api := Sample.api) env "cut.stex" None 0)
  = Crash.
Proof.
  intros file env.
  apply (stex2d_codec_without_levels_crashes (api := Sample.api) env
           "cut.stex" OK None 0 (x04, x00) (x00, x00) (x04, x00) (x00, x00)
           (x07, x00, x00, x00) (x00, x00, x10, x00) []);
    reflexivity.
Defined.

Lemma stex2d_codec_single_level_witness :
  let file :=
    gdst_file (x04, x00) (x00, x00) (x04, x00) (x00, x00)
      (x07, x00, x00, x00) (x00, x00, x30, x00)
      (word_bytes (x01, x00, x00, x00) ++ word_bytes (x03, x00, x00, x00)
       ++ [x01; x01; xff] ++ [x00]) in
  let env := Sample.env [("one.stex", file)] [] in
  _load_data_stex2d_v3 (api := Packed.api) env "one.stex" None 8
  = (Ret (mkStex2d 4 4 0 0 7 (mkImage 1 1 false 0 [xff])),
     [EvGetBuffer 4; EvGet16; EvGet16; EvGet16; EvGet16; EvGet32; EvGet32;
      EvGet32; EvGet32; EvGetBuffer 3]).
Proof.
  intros file env.
  apply (stex2d_codec_single_level (api := Packed.api) env "one.stex" OK 8
           (x04, x00) (x00, x00) (x04, x00) (x00, x00) (x07, x00, x00, x00)
           (x00, x00, x30, x00) (x01, x00, x00, x00) (x03, x00, x00, x00)
           [x01; x01; xff] [x00] (mkImage 1 1 false 0 [xff]));
    try reflexivity; cbn; lia.
Defined.

(** ** The v4 2D decoder *)

Section Ctex2dProperties.
Context {api : ImageApi}.

Lemma gst2_body hdr version twc thc flags m r1 r2 r3 body :
  drop 36 (gst2_file hdr version twc thc flags m r1 r2 r3 body) = body.
Proof.
  destruct hdr as [[[? ?] ?] ?], version as [[[? ?] ?] ?],
    twc as [[[? ?] ?] ?], thc as [[[? ?] ?] ?], flags as [[[? ?] ?] ?],
    m as [[[? ?] ?] ?], r1 as [[[? ?] ?] ?], r2 as [[[? ?] ?] ?],
    r3 as [[[? ?] ?] ?].
  reflexivity.
Qed.

Lemma gst2_version hdr version twc thc flags m r1 r2 r3 body :
  version_field (gst2_file hdr version twc thc flags m r1 r2 r3 body)
  = word_value version.
Proof.
  destruct hdr as [[[? ?] ?] ?], version as [[[? ?] ?] ?].
  reflexivity.
Qed.

(** The header of a v4 2D file that is not too new: nine words are read,
    the data-format word is peeked and the cursor put back, and the
    engine's image loader runs at offset 36. *)
Lemma ctex2d_header_run tw th L hdr version twc thc flags m r1 r2 r3 body :
  let data := gst2_file hdr version twc thc flags m r1 r2 r3 body in
  let texture_flags := to_int (word_value flags) in
  (FORMAT_VERSION <? word_value version) = false ->
  ctex2d_v4_body tw th L (open_bytes data)
  = io_bind
      (load_image_from_file
         (if negb (has_bit texture_flags FORMAT_BIT_STREAM) then 0 else L))
      (fun image =>
         match image with
         | None => io_fail ERR_CANT_OPEN ""
         | Some img =>
             if is_empty img then io_fail ERR_CANT_OPEN ""
             else
               io_ret
                 (mkCtex2d
                    (if to_int (word_value twc) =? 0 then width img else tw)
                    (if to_int (word_value thc) =? 0 then height img else th)
                    (to_int (word_value twc)) (to_int (word_value thc)) img
                    (to_int (le_value (take 4 body))) texture_flags)
         end)
      (mkFile data 36 ctex2d_header_log).
Proof.
  intros data texture_flags Hv.
  assert (Hbody : drop 36 data = body) by apply gst2_body.
  destruct hdr as [[[g0 g1] g2] g3], version as [[[v0 v1] v2] v3],
    twc as [[[a0 a1] a2] a3], thc as [[[b0 b1] b2] b3],
    flags as [[[f0 f1] f2] f3], m as [[[m0 m1] m2] m3],
    r1 as [[[c0 c1] c2] c3], r2 as [[[d0 d1] d2] d3],
    r3 as [[[e0 e1] e2] e3].
  unfold ctex2d_v4_body, open_bytes.
  erewrite bind_get_buffer_4 by reflexivity.
  erewrite bind_get_32 by reflexivity.
  fold (word_bytes (v0, v1, v2, v3)). fold (word_value (v0, v1, v2, v3)).
  rewrite Hv.
  do 7 (erewrite bind_get_32 by reflexivity).
  rewrite bind_get_position. cbn [f_pos].
  rewrite bind_get_32_any, bind_seek.
  unfold peek. cbn [f_pos f_data f_log advance].
  change (Z.to_nat (0 + 4 + 4 + 4 + 4 + 4 + 4 + 4 + 4 + 4)) with 36%nat.
  rewrite Hbody. reflexivity.
Qed.

(** X12.  The v4 2D decoder honours the requested size limit only when
    the file's texture flags carry [FORMAT_BIT_STREAM]: on a file without
    that bit every limit gives the outcome of limit 0, down to the
    operations performed on the file. *)
Theorem ctex2d_limit_needs_stream_bit (env : Env) (p_path : string)
  (e : Error) (tw th L : Z)
  (hdr version twc thc flags m r1 r2 r3 : word) (body : list byte) :
  file_open env p_path
  = (e, Some (gst2_file hdr version twc thc flags m r1 r2 r3 body)) ->
  has_bit (to_int (word_value flags)) FORMAT_BIT_STREAM = false ->
  _load_data_ctex2d_v4 env p_path tw th L
  = _load_data_ctex2d_v4 env p_path tw th 0.
Proof.
  intros Hopen Hstream. unfold _load_data_ctex2d_v4. rewrite Hopen.
  destruct (FORMAT_VERSION <? word_value version) eqn:Hv.
  - apply Z.ltb_lt in Hv. rewrite <- (gst2_version hdr version twc thc
      flags m r1 r2 r3 body) in Hv.
    rewrite !(ctex2d_too_new _ _ _ _ Hv). reflexivity.
  - unfold on_handle.
    rewrite !(ctex2d_header_run _ _ _ _ _ _ _ _ _ _ _ _ _ Hv).
    rewrite Hstream. reflexivity.
Qed.

(** X13.  What the v4 2D decoder returns on success.  On a file that is
    not too new, the engine's image loader is started at offset 36 with
    the data-format word unconsumed (it was peeked and the cursor put
    back) and with the requested limit, or 0 without [FORMAT_BIT_STREAM].
    When it yields a non-empty image, the decoder returns that image, the
    two size overrides and the texture flags from the header, and the
    peeked data-format word; the width (height) is the image's when the
    width (height) override is 0, and otherwise the caller's value is left
    as it was.  The 4-byte header is read but not compared with anything. *)
Theorem ctex2d_success (env : Env) (p_path : string) (e : Error)
  (tw th L : Z) (hdr version twc thc flags m r1 r2 r3 : word)
  (body : list byte) (img : Image) (f' : FileAccess) :
  let data := gst2_file hdr version twc thc flags m r1 r2 r3 body in
  let texture_flags := to_int (word_value flags) in
  let limit := if has_bit texture_flags FORMAT_BIT_STREAM then L else 0 in
  file_open env p_path = (e, Some data) ->
  word_value version <= FORMAT_VERSION ->
  load_image_from_file limit (mkFile data 36 ctex2d_header_log)
  = (Ret (Some img), f') ->
  is_empty img = false ->
  _load_data_ctex2d_v4 env p_path tw th L
  = (Ret (mkCtex2d
            (if to_int (word_value twc) =? 0 then width img else tw)
            (if to_int (word_value thc) =? 0 then height img else th)
            (to_int (word_value twc)) (to_int (word_value thc)) img
            (to_int (le_value (take 4 body))) texture_flags),
     f_log f').
Proof.
  intros data texture_flags limit Hopen Hv Hload Hne.
  subst data.
  unfold _load_data_ctex2d_v4. rewrite Hopen. unfold on_handle.
  apply Z.ltb_ge in Hv.
  rewrite (ctex2d_header_run _ _ _ _ _ _ _ _ _ _ _ _ _ Hv).
  fold texture_flags.
  replace (if negb (has_bit texture_flags FORMAT_BIT_STREAM) then 0 else L)
    with limit by (subst limit; destruct (has_bit _ _); reflexivity).
  unfold io_bind. rewrite Hload, Hne. reflexivity.
Qed.

End Ctex2dProperties.

Lemma ctex2d_limit_needs_stream_bit_witness :
  let zero : word := (x00, x00, x00, x00) in
  let file :=
    gst2_file (x47, x53, x54, x32) (x01, x00, x00, x00) zero zero zero zero
      zero zero zero [x07] in
  let env := Sample.env [("a.ctex", file)] [] in
  _load_data_ctex2d_v4 (api := Sample.api) env "a.ctex" 0 0 64
  = _load_data_ctex2d_v4 (api := Sample.api) env "a.ctex" 0 0 0.
Proof.
  intros zero file env.
  apply (ctex2d_limit_needs_stream_bit (api := Sample.api) env "a.ctex" OK
           0 0 64 (x47, x53, x54, x32) (x01, x00, x00, x00) zero zero zero
           zero zero zero zero [x07]);
    reflexivity.
Defined.

Lemma ctex2d_success_witness :
  let zero : word := (x00, x00, x00, x00) in
  let file :=
    gst2_file zero (x01, x00, x00, x00) (x08, x00, x00, x00) zero
      (x00, x00, x40, x00) zero zero zero zero [x07; x09] in
  let env := Sample.env [("a.ctex", file)] [] in
  _load_data_ctex2d_v4 (api := Sample.api) env "a.ctex" 5 6 64
  = (Ret (mkCtex2d 5 1 8 0 (mkImage 1 1 false 0 [x07]) 2311 4194304),
     ctex2d_header_log ++ [EvGetBuffer 1]).
Proof.
  intros zero file env.
  apply (ctex2d_success (api := Sample.api) env "a.ctex" OK 5 6 64 zero
           (x01, x00, x00, x00) (x08, x00, x00, x00) zero
           (x00, x00, x40, x00) zero zero zero zero [x07; x09]
           (mkImage 1 1 false 0 [x07])
           (mkFile file 37 (ctex2d_header_log ++ [EvGetBuffer 1])));
    reflexivity.
Defined.

(** ** The v4 layered decoder *)

Section CtexLayeredProperties.
Context {api : ImageApi}.


(** X14.  The v4 layered decoder checks the magic itself: on any file of
    at least four bytes that does not start with "GSTL" it returns
    [ERR_FILE_UNRECOGNIZED] after the 4-byte read and touches the file no
    further, whatever error code [FileAccess::open] reported next to the
    handle. *)
Theorem ctexlayered_rejects_other_magic (env : Env) (uninit : list byte)
  (p_path : string) (init : ctexlayered_out) (e : Error)
  (b0 b1 b2 b3 : byte) (rest : list byte) :
  file_open env p_path = (e, Some (b0 :: b1 :: b2 :: b3 :: rest)) ->
  [b0; b1; b2; b3] <> magic "GSTL" ->
  _load_data_ctexlayered_v4 env uninit p_path init
  = (Failed ERR_FILE_UNRECOGNIZED "", [EvGetBuffer 4]).
Proof.
  intros Hopen Hm. unfold _load_data_ctexlayered_v4. rewrite Hopen.
  unfold on_handle, ctexlayered_v4_body, open_bytes.
  erewrite bind_get_buffer_4 by reflexivity.
  cbn [fill_header app].
  rewrite header_is_false by exact Hm. reflexivity.
Qed.



End CtexLayeredProperties.

Lemma ctexlayered_rejects_other_magic_witness :
  let env := Sample.env [("a.ctex3d", magic "GST2" ++ Sample.le32 1)] [] in
  let init := mkCtexLayered [] 0 0 0 0 0 false 0 in
  _load_data_ctexlayered_v4 (api := Sample.api) env [] "a.ctex3d" init
  = (Failed ERR_FILE_UNRECOGNIZED "", [EvGetBuffer 4]).
Proof.
  intros env init.
  apply (ctexlayered_rejects_other_magic (api := Sample.api) env []
           "a.ctex3d" init OK "G"%byte "S"%byte "T"%byte "2"%byte
           (Sample.le32 1)).
  - reflexivity.
  - discriminate.
Defined.


(** ** Tile reassembly: tiles kept, tiles never reached, no tiles *)

Section WalkResults.
Context {api : ImageApi} {conv : Conversions}.


(** X17.  The gap loop in front of a tile ends only when the cursor, two
    integers converted to [real_t], compares equal to the tile's offset.
    A tile whose offset no pair of integers compares equal to, such as one
    with a NaN coordinate, is therefore never reached: the gap loop in
    front of it (or of an earlier tile) does not terminate, so the
    reassembly yields no result however many rounds it is given. *)
Theorem convert_never_reaches (fuel : nat) (res_path : string)
  (pieces : list Piece) (whole_size : real_t * real_t) (p : Piece) :
  p ∈ pieces ->
  (forall x y : Z,
     real_eqb (fst (offset p)) (real_of_int x)
     && real_eqb (snd (offset p)) (real_of_int y) = false) ->
  convert fuel res_path (data_of pieces) whole_size = None.
Proof.
  intros Hp Hoff. unfold convert. rewrite gather_loaded. cbn [app].
  destruct (place_pieces _ _ _ _ _) as [c|] eqn:Hplace; [|reflexivity].
  apply (place_pieces_grows _ _ _ _ _ _ []) in Hplace;
    [| reflexivity | constructor].
  destruct Hplace as (_ & _ & Hall & _).
  rewrite Forall_forall in Hall.
  destruct (Hall p) as [c1 Hat]; [rewrite sort_custom_perm; exact Hp|].
  unfold at_pos in Hat. rewrite Hoff in Hat. discriminate.
Qed.

(** X18.  A tile array without tiles crashes the converter whatever the
    canvas size: both the closing gap loop and the construction of the
    layered texture index the first image of an empty vector. *)
Theorem convert_without_tiles_crashes (fuel : nat) (res_path : string)
  (whole_size : real_t * real_t) :
  convert fuel res_path [] whole_size = Some Crashed.
Proof. destruct fuel; reflexivity. Qed.

End WalkResults.


Lemma convert_never_reaches_witness :
  let a := mkPiece (real_of_int 0, S754_nan) (Sample.blank 2 2 false 0) in
  convert (api := Sample.api) (conv := x86_64) 100 "res://big.ltex"
    (data_of [a]) (Vector2_of (4, 4))
  = None.
Proof.
  intros a.
  apply (convert_never_reaches (api := Sample.api) (conv := x86_64) 100
           "res://big.ltex" [a] (Vector2_of (4, 4)) a).
  - left.
  - intros x y. apply andb_false_intro2.
    change (snd (offset a)) with S754_nan. reflexivity.
Defined.

(** ** The legacy 3D and array decoder *)

Section LayeredV3Properties.
Context {api : ImageApi}.

Lemma gd3t_body hdr width height depth flags fmt compression body :
  drop 28 (gd3t_file hdr width height depth flags fmt compression body)
  = body.
Proof.
  destruct hdr as [[[? ?] ?] ?], width as [[[? ?] ?] ?],
    height as [[[? ?] ?] ?], depth as [[[? ?] ?] ?],
    flags as [[[? ?] ?] ?], fmt as [[[? ?] ?] ?],
    compression as [[[? ?] ?] ?].
  reflexivity.
Qed.

(** The header of a legacy 3D or array file with a convertible format:
    seven reads, then the layer loop at offset 28. *)
Lemma layered_v3_header_run r_data hdr width height depth flags fmt
  compression body :
  let data := gd3t_file hdr width height depth flags fmt compression body in
  let format := convert_image_format_enum_v3_to_v4 (word_value fmt) in
  (format =? FORMAT_MAX) = false ->
  layered_v3_body r_data (open_bytes data)
  = load_v3_layers (Z.to_nat (to_int (word_value depth)))
      (to_int (word_value flags)) format (word_value compression)
      (mkLayeredV3 r_data (to_int (word_value width))
         (to_int (word_value height)) (to_int (word_value depth))
         (has_bit (to_int (word_value flags)) 1))
      (mkFile data 28 gd3t_header_log).
Proof.
  destruct hdr as [[[g0 g1] g2] g3], width as [[[w0 w1] w2] w3],
    height as [[[h0 h1] h2] h3], depth as [[[d0 d1] d2] d3],
    flags as [[[f0 f1] f2] f3], fmt as [[[p0 p1] p2] p3],
    compression as [[[c0 c1] c2] c3].
  intros data format Hfmt.
  unfold layered_v3_body, open_bytes.
  erewrite bind_get_buffer_4 by reflexivity.
  do 5 (erewrite bind_get_32 by reflexivity).
  fold (word_bytes (p0, p1, p2, p3)). fold (word_value (p0, p1, p2, p3)).
  fold format. rewrite Hfmt.
  erewrite bind_get_32 by reflexivity.
  reflexivity.
Qed.

(** The raw branch of the layer loop on a file that holds full layers at
    the cursor: each round consumes one layer. *)
Lemma load_v3_layers_raw flags format compression size :
  forall (layers : list (list byte)) k st data pos log rest,
  compression <> 0 ->
  size = get_image_data_size (l_width st) (l_height st) format
           (has_bit flags 1) ->
  (length (resized_vector size) <= Z.to_nat size)%nat ->
  Forall (fun l => Z.of_nat (length l) = size) layers ->
  0 <= pos ->
  drop (Z.to_nat pos) data = concat layers ++ rest ->
  exists pos' log',
    0 <= pos' /\ drop (Z.to_nat pos') data = rest
    /\ log' = log ++ map (fun _ => EvGetBuffer size) layers
    /\ load_v3_layers (length layers + k) flags format compression st
         (mkFile data pos log)
       = load_v3_layers k flags format compression
           (mkLayeredV3
              (l_data st
               ++ map (initialize_data instantiate (l_width st) (l_height st)
                         (has_bit flags 1) format) layers)
              (l_width st) (l_height st) (l_depth st) (l_mipmaps st))
           (mkFile data pos' log').
Proof.
  induction layers as [|l layers IH];
    intros k st data pos log rest Hc Hsize Hvec Hall Hpos Hdrop.
  - exists pos, log. cbn [concat app] in Hdrop. rewrite !app_nil_r.
    destruct st. repeat split; assumption.
  - apply Forall_cons in Hall. destruct Hall as [Hl Hall].
    cbn [concat] in Hdrop. rewrite <- app_assoc in Hdrop.
    cbn [length Nat.add load_v3_layers].
    unfold load_v3_layer at 1.
    apply Z.eqb_neq in Hc. rewrite Hc. rewrite <- Hsize.
    rewrite !bind_assoc.
    assert (Hrd : peek (mkFile data pos log) size = l).
    { unfold peek. cbn [f_pos f_data]. rewrite Hdrop, <- Hl, Nat2Z.id.
      apply take_app_length. }
    unfold io_bind at 1, get_buffer. rewrite Hrd.
    rewrite Hl, Z.eqb_refl. cbn [negb]. rewrite bind_ret.
    rewrite drop_ge, app_nil_r by lia.
    unfold advance. cbn [f_pos f_data f_log].
    destruct (IH k
                (mkLayeredV3
                   (l_data st
                    ++ [initialize_data instantiate (l_width st)
                          (l_height st) (has_bit flags 1) format l])
                   (l_width st) (l_height st) (l_depth st) (l_mipmaps st))
                data (pos + size) (log ++ [EvGetBuffer size]) rest)
      as (pos' & log' & Hpos' & Hdrop' & Hlog' & Hrun).
    + apply Z.eqb_neq. exact Hc.
    + exact Hsize.
    + exact Hvec.
    + exact Hall.
    + lia.
    + rewrite Z2Nat.inj_add, <- drop_drop, Hdrop by lia.
      rewrite <- Hl, Nat2Z.id. apply drop_app_length.
    + exists pos', log'. split; [exact Hpos'|]. split; [exact Hdrop'|].
      split; [rewrite Hlog', <- app_assoc; reflexivity|].
      rewrite Hrun. cbn [l_data l_width l_height l_depth l_mipmaps map].
      rewrite <- app_assoc. reflexivity.
Qed.

(** X19.  Round trip of the legacy 3D and array decoder on raw layers:
    when the compression mode is not 0 and the body holds [depth] blocks
    of exactly the size the formula gives for the header's width, height,
    format and mipmap flag (bit 0 of the flags), the decoder returns one
    image per block, in file order, each initialised from its block with
    the header's dimensions, appended to the caller's vector.  The images
    are not checked for emptiness, and what follows the blocks is not
    read: the handle's log is the header reads followed by one read per
    block.  (The resized vector is not longer than asked.) *)
Theorem layered_v3_raw_round_trip (env : Env) (p_path : string) (e : Error)
  (r_data : list Image)
  (hdr width height depth flags fmt compression : word)
  (layers : list (list byte)) (trailing : list byte) (format : Format) :
  let w := to_int (word_value width) in
  let h := to_int (word_value height) in
  let mipmaps := has_bit (to_int (word_value flags)) 1 in
  let size := get_image_data_size w h format mipmaps in
  file_open env p_path
  = (e, Some (gd3t_file hdr width height depth flags fmt compression
                (concat layers ++ trailing))) ->
  convert_image_format_enum_v3_to_v4 (word_value fmt) = format ->
  format <> FORMAT_MAX ->
  word_value compression <> 0 ->
  Z.to_nat (to_int (word_value depth)) = length layers ->
  Forall (fun l => Z.of_nat (length l) = size) layers ->
  (length (resized_vector size) <= Z.to_nat size)%nat ->
  _load_layered_texture_v3 env p_path r_data
  = (Ret (mkLayeredV3
            (r_data ++ map (initialize_data instantiate w h mipmaps format)
                         layers)
            w h (to_int (word_value depth)) mipmaps),
     gd3t_header_log ++ map (fun _ => EvGetBuffer size) layers).
Proof.
  intros w h mipmaps size Hopen Hfmt Hmax Hc Hdepth Hall Hvec.
  unfold _load_layered_texture_v3. rewrite Hopen. unfold on_handle.
  apply Z.eqb_neq in Hmax. rewrite <- Hfmt in Hmax.
  rewrite (layered_v3_header_run _ _ _ _ _ _ _ _ _ Hmax).
  rewrite Hfmt, Hdepth.
  destruct (load_v3_layers_raw (to_int (word_value flags)) format
              (word_value compression) size layers 0%nat
              (mkLayeredV3 r_data w h (to_int (word_value depth)) mipmaps)
              (gd3t_file hdr width height depth flags fmt compression
                 (concat layers ++ trailing))
              28 gd3t_header_log trailing)
    as (pos' & log' & _ & _ & Hlog & Hrun);
    [exact Hc | reflexivity | exact Hvec | exact Hall | lia
    | apply gd3t_body |].
  rewrite Nat.add_0_r in Hrun. fold w h mipmaps. rewrite Hrun, Hlog.
  reflexivity.
Qed.

(** X20.  The legacy 3D and array decoder rejects a truncated raw layer:
    when the file ends less than one full block after some complete
    blocks and the header announces more layers than there are complete
    blocks, the decoder fails with [ERR_FILE_CORRUPT]; the short block is
    neither zero-filled nor accepted. *)
Theorem layered_v3_short_layer_is_corrupt (env : Env) (p_path : string)
  (e : Error) (r_data : list Image)
  (hdr width height depth flags fmt compression : word)
  (layers : list (list byte)) (rest : list byte) (format : Format) :
  let w := to_int (word_value width) in
  let h := to_int (word_value height) in
  let mipmaps := has_bit (to_int (word_value flags)) 1 in
  let size := get_image_data_size w h format mipmaps in
  file_open env p_path
  = (e, Some (gd3t_file hdr width height depth flags fmt compression
                (concat layers ++ rest))) ->
  convert_image_format_enum_v3_to_v4 (word_value fmt) = format ->
  format <> FORMAT_MAX ->
  word_value compression <> 0 ->
  (length layers < Z.to_nat (to_int (word_value depth)))%nat ->
  Forall (fun l => Z.of_nat (length l) = size) layers ->
  Z.of_nat (length rest) < size ->
  (length (resized_vector size) <= Z.to_nat size)%nat ->
  fst (_load_layered_texture_v3 env p_path r_data)
  = Failed ERR_FILE_CORRUPT "".
Proof.
  intros w h mipmaps size Hopen Hfmt Hmax Hc Hdepth Hall Hshort Hvec.
  unfold _load_layered_texture_v3. rewrite Hopen. unfold on_handle.
  apply Z.eqb_neq in Hmax. rewrite <- Hfmt in Hmax.
  rewrite (layered_v3_header_run _ _ _ _ _ _ _ _ _ Hmax).
  rewrite Hfmt.
  destruct (Z.to_nat (to_int (word_value depth))) as [|n] eqn:Hn; [lia|].
  replace (S n) with (length layers + S (n - length layers))%nat by lia.
  destruct (load_v3_layers_raw (to_int (word_value flags)) format
              (word_value compression) size layers
              (S (n - length layers))
              (mkLayeredV3 r_data w h (to_int (word_value depth)) mipmaps)
              (gd3t_file hdr width height depth flags fmt compression
                 (concat layers ++ rest))
              28 gd3t_header_log rest)
    as (pos' & log' & Hpos' & Hdrop' & _ & Hrun);
    [exact Hc | reflexivity | exact Hvec | exact Hall | lia
    | apply gd3t_body |].
  fold w h mipmaps. rewrite Hrun.
  cbn [load_v3_layers l_width l_height l_mipmaps].
  unfold load_v3_layer at 1.
  apply Z.eqb_neq in Hc. rewrite Hc. fold mipmaps. fold size.
  rewrite !bind_assoc.
  assert (Hrd : peek (mkFile
                        (gd3t_file hdr width height depth flags fmt
                           compression (concat layers ++ rest))
                        pos' log') size = rest).
  { unfold peek. cbn [f_pos f_data]. rewrite Hdrop'.
    apply take_ge. lia. }
  unfold io_bind at 1, get_buffer. rewrite Hrd.
  assert (Hne : (Z.of_nat (length rest) =? size) = false)
    by (apply Z.eqb_neq; lia).
  rewrite Hne. reflexivity.
Qed.

(** X21.  The legacy 3D and array decoder makes no difference between a
    deprecated and an invalid pixel format: whenever the format code has
    no current equivalent it fails with [ERR_FILE_CORRUPT] right after
    reading the code; the compression word and the layers are not
    read. *)
Theorem layered_v3_bad_format (env : Env) (p_path : string) (e : Error)
  (r_data : list Image)
  (hdr width height depth flags fmt compression : word)
  (body : list byte) :
  file_open env p_path
  = (e, Some (gd3t_file hdr width height depth flags fmt compression
                body)) ->
  convert_image_format_enum_v3_to_v4 (word_value fmt) = FORMAT_MAX ->
  _load_layered_texture_v3 env p_path r_data
  = (Failed ERR_FILE_CORRUPT
       "Textured layer is in an invalid or deprecated format",
     [EvGetBuffer 4; EvGet32; EvGet32; EvGet32; EvGet32; EvGet32]).
Proof.
  intros Hopen Hfmt.
  unfold _load_layered_texture_v3. rewrite Hopen.
  destruct hdr as [[[g0 g1] g2] g3], width as [[[w0 w1] w2] w3],
    height as [[[h0 h1] h2] h3], depth as [[[d0 d1] d2] d3],
    flags as [[[f0 f1] f2] f3], fmt as [[[p0 p1] p2] p3],
    compression as [[[c0 c1] c2] c3].
  unfold on_handle, layered_v3_body, open_bytes.
  erewrite bind_get_buffer_4 by reflexivity.
  do 5 (erewrite bind_get_32 by reflexivity).
  fold (word_bytes (p0, p1, p2, p3)). fold (word_value (p0, p1, p2, p3)).
  rewrite Hfmt, Z.eqb_refl. reflexivity.
Qed.

End LayeredV3Properties.

Lemma layered_v3_raw_round_trip_witness :
  let zero : word := (x00, x00, x00, x00) in
  let two : word := (x02, x00, x00, x00) in
  let file :=
    gd3t_file (x47, x44, x33, x54) two two two zero zero two
      (concat [repeat x01 4; repeat x02 4] ++ [xff]) in
  let env := Sample.env [("a.tex3d", file)] [] in
  _load_layered_texture_v3 (api := Sample.api) env "a.tex3d" []
  = (Ret (mkLayeredV3
            [mkImage 2 2 false 0 (repeat x01 4);
             mkImage 2 2 false 0 (repeat x02 4)] 2 2 2 false),
     [EvGetBuffer 4; EvGet32; EvGet32; EvGet32; EvGet32; EvGet32; EvGet32;
      EvGetBuffer 4; EvGetBuffer 4]).
Proof.
  intros zero two file env.
  apply (layered_v3_raw_round_trip (api := Sample.api) env "a.tex3d" OK []
           (x47, x44, x33, x54) two two two zero zero two
           [repeat x01 4; repeat x02 4] [xff] 0);
    try reflexivity; try discriminate.
  repeat constructor.
Defined.

Lemma layered_v3_short_layer_is_corrupt_witness :
  let zero : word := (x00, x00, x00, x00) in
  let two : word := (x02, x00, x00, x00) in
  let file :=
    gd3t_file (x47, x44, x33, x54) two two two zero zero two
      (concat [repeat x01 4] ++ [x02; x02; x02]) in
  let env := Sample.env [("a.tex3d", file)] [] in
  fst (_load_layered_texture_v3 (api := Sample.api) env "a.tex3d" [])
  = Failed ERR_FILE_CORRUPT "".
Proof.
  intros zero two file env.
  apply (layered_v3_short_layer_is_corrupt (api := Sample.api) env
           "a.tex3d" OK [] (x47, x44, x33, x54) two two two zero zero two
           [repeat x01 4] [x02; x02; x02] 0);
    try reflexivity; try discriminate; try (cbn; lia).
  all: repeat constructor.
Defined.

Lemma layered_v3_bad_format_witness :
  let zero : word := (x00, x00, x00, x00) in
  let two : word := (x02, x00, x00, x00) in
  let file :=
    gd3t_file (x47, x44, x41, x54) two two two zero (x05, x00, x00, x00)
      two (repeat x01 8) in
  let env := Sample.env [("a.texarr", file)] [] in
  _load_layered_texture_v3 (api := Sample.api) env "a.texarr" []
  = (Failed ERR_FILE_CORRUPT
       "Textured layer is in an invalid or deprecated format",
     [EvGetBuffer 4; EvGet32; EvGet32; EvGet32; EvGet32; EvGet32]).
Proof.
  intros zero two file env.
  apply (layered_v3_bad_format (api := Sample.api) env "a.texarr" OK []
           (x47, x44, x41, x54) two two two zero (x05, x00, x00, x00) two
           (repeat x01 8));
    reflexivity.
Defined.
